(** * dropbox_upload.py: a shallow embedding and its verified properties

    The program uploads one local file to Dropbox (in one call, or through
    an upload session when the file is larger than [CHUNK_SIZE]), optionally
    creates a password protected shared link, and keeps an OAuth refresh
    token in an INI file.

    Conventions of the embedding.
    - Python [int]s are [Z]; [bytes] are [list byte]; [str] is [string].
    - Effects are explicit: a computation is a function from a [World] (the
      local file system, the module global [refresh_token], the trace of
      actions observable from outside) to a result and a new world.
    - Everything outside the program (the Dropbox servers, the operator at
      the terminal, the random generator, the clock) is an [Env]: a record
      of answer functions that receive the trace so far, so a remote end
      may keep state.
    - An exception is a value; [Raise] propagates through [bind] the way an
      exception unwinds the stack and [try_except] catches it.
    - [logger] calls have no influence on control flow or on the actions
      studied here and are left out. *)

From Stdlib Require Import ZArith Lia Ascii String.
From stdpp Require Import base tactics option list strings gmap.

Open Scope Z_scope.

(** ** Exceptions *)

(** Classes deriving from Python's [Exception] that the program raises,
    catches or lets through. [OtherError] stands for any further class
    that derives from [Exception] but from none of the classes named
    here. *)
Inductive exn_class : Type :=
  | RuntimeError
  | ValueError
  | TypeError
  | KeyError
  | UnboundLocalError
  | OverflowError
  | FileNotFoundError
  | FileExistsError
  | OSError
  | IndexError
  | EOFError
  | UnicodeError
  | ApiError
  | ConfigParserError
  | OtherError (name : string).

(** What a [raise] carries. [SystemExit] derives from [BaseException]
    only, so [except Exception] does not catch it. *)
Inductive exn : Type :=
  | Exception (c : exn_class)
  | SystemExit (code : Z).

Definition is_Exception (e : exn) : bool :=
  match e with Exception _ => true | SystemExit _ => false end.

Definition is_RuntimeError (e : exn) : bool :=
  match e with Exception RuntimeError => true | _ => false end.

Definition is_ApiError (e : exn) : bool :=
  match e with Exception ApiError => true | _ => false end.

(** ** Values exchanged with the Dropbox SDK *)

Abbreviation bytes := (list Byte.byte).

Inductive WriteMode : Type := WriteMode_add | WriteMode_overwrite.

Record PathRoot : Type := mkPathRoot { pr_tag : string; pr_value : string }.

(** The client object [dropbox.Dropbox(...)], and what [with_path_root]
    changes in it. *)
Record Dropbox : Type := mkDropbox {
  oauth2_refresh_token : string;
  app_key : string;
  path_root : option PathRoot
}.

Definition with_path_root (dbx : Dropbox) (r : PathRoot) : Dropbox :=
  {| oauth2_refresh_token := oauth2_refresh_token dbx;
     app_key := app_key dbx;
     path_root := Some r |}.

Record UploadSessionCursor : Type := mkCursor {
  session_id : string;
  offset : Z
}.

Record CommitInfo : Type := mkCommitInfo {
  ci_path : string;
  ci_mode : WriteMode;
  ci_autorename : bool
}.

(** Entries of a folder listing. *)
Inductive Metadata : Type :=
  | FileMetadata (name path_lower path_display : string)
  | FolderMetadata (name path_lower path_display : string)
  | DeletedMetadata (name path_lower path_display : string).

Definition path_display (m : Metadata) : string :=
  match m with
  | FileMetadata _ _ p | FolderMetadata _ _ p | DeletedMetadata _ _ p => p
  end.

Record ListFolderResult : Type := mkListFolderResult {
  entries : list Metadata;
  cursor : string;
  has_more : bool
}.

Inductive LinkAudience : Type := LinkAudience_public | LinkAudience_team.

Record SharedLinkSettings : Type := mkSharedLinkSettings {
  require_password : bool;
  link_password : string;
  allow_download : bool;
  expires : option Z;
  audience : LinkAudience
}.

Record OAuth2FlowNoRedirectResult : Type := mkOAuthResult {
  access_token : string;
  rt_refresh_token : string;
  account_id : string;
  scope : string;        (* the text [str(tokens.scope)] *)
  expires_at : string    (* the text [str(tokens.expires_at)] *)
}.

(** The dictionary [output_json] of the main program. *)
Record Report : Type := mkReport {
  report_url : string;
  report_password : string;
  report_expiration_date : Z;
  report_size : Z;
  report_source : string;
  report_dropbox_path : option string
}.

(** ** Observable actions *)

Inductive ApiCall : Type :=
  | users_get_current_account
  | files_upload (f : bytes) (path : string) (mode : WriteMode)
      (autorename : bool)
  | files_upload_session_start (f : bytes)
  | files_upload_session_append (f : bytes) (session_id : string)
      (offset : Z)
  | files_upload_session_finish (f : bytes) (cursor : UploadSessionCursor)
      (commit : CommitInfo)
  | files_list_folder (path : string)
  | files_list_folder_continue (cursor : string)
  | files_download (path : string)
  | sharing_create_shared_link_with_settings (path : string)
      (settings : SharedLinkSettings).

Inductive Event : Type :=
  | EApi (dbx : Dropbox) (c : ApiCall)
  | ESleep (seconds : Z)
  | EPrint (text : string)
  | EInput (prompt : string)
  | EAuthStart
  | EAuthFinish (auth_code : string)
  | EZip (folder_path output_path : string)
  | ERandom (bound : nat).

Abbreviation Trace := (list Event).

(** ** The environment *)

Record Env : Type := mkEnv {
  APP_KEY : string;
  my_config_file : string;
  (* the Dropbox servers *)
  srv_users_get_current_account : Trace -> Dropbox -> exn_class + string;
  srv_files_upload :
    Trace -> Dropbox -> bytes -> string -> WriteMode -> bool ->
    exn_class + Metadata;
  srv_files_upload_session_start :
    Trace -> Dropbox -> bytes -> exn_class + string;
  srv_files_upload_session_append :
    Trace -> Dropbox -> bytes -> string -> Z -> exn_class + unit;
  srv_files_upload_session_finish :
    Trace -> Dropbox -> bytes -> UploadSessionCursor -> CommitInfo ->
    exn_class + Metadata;
  srv_files_list_folder :
    Trace -> Dropbox -> string -> exn_class + ListFolderResult;
  srv_files_list_folder_continue :
    Trace -> Dropbox -> string -> exn_class + ListFolderResult;
  srv_files_download :
    Trace -> Dropbox -> string -> exn_class + (Metadata * bytes);
  srv_sharing_create_shared_link_with_settings :
    Trace -> Dropbox -> string -> SharedLinkSettings -> exn_class + string;
  (* the constructor [dropbox.Dropbox(oauth2_refresh_token=..., app_key=...)],
     which validates its arguments *)
  dropbox_init : string -> string -> exn_class + unit;
  (* the OAuth flow and the operator *)
  auth_flow_start : Trace -> string;
  stdin_readline : Trace -> exn_class + string;
  auth_flow_finish : Trace -> string -> exn_class + OAuth2FlowNoRedirectResult;
  (* the rest of the machine: [secrets.randbelow], the archive [zipfile]
     makes of a folder, whether a path may be opened for writing, the day
     [datetime.today()] falls on (as a proleptic Gregorian ordinal), and
     the functions of [os.path] and [pathlib] that depend on the current
     directory *)
  randbelow : Trace -> nat -> nat;
  zip_archive : Trace -> string -> exn_class + bytes;
  file_writable : string -> bool;
  clock_today : Trace -> Z;
  os_path_abspath : string -> string;
  path_stem : string -> string;
  cwd_basename : string;
  (* [json.dumps(output_json, indent=4)] *)
  json_dumps : Report -> string
}.

(** ** The world and the monad *)

Record World : Type := mkWorld {
  w_files : gmap string bytes;
  w_dirs : gset string;
  w_refresh_token : option string;
  w_trace : Trace
}.

(** [OutOfFuel]: the model does not follow the run to its end, because a
    loop bounded by fuel used it up or a library call is outside the
    modelled part of the library. *)
Inductive Res (A : Type) : Type :=
  | Ok (a : A)
  | Raise (e : exn)
  | OutOfFuel.
Arguments Ok {A} a.
Arguments Raise {A} e.
Arguments OutOfFuel {A}.

Definition M (A : Type) : Type := World -> Res A * World.

Definition ret {A} (a : A) : M A := fun w => (Ok a, w).

Definition bind {A B} (m : M A) (k : A -> M B) : M B :=
  fun w =>
    match m w with
    | (Ok a, w') => k a w'
    | (Raise e, w') => (Raise e, w')
    | (OutOfFuel, w') => (OutOfFuel, w')
    end.

Definition raise {A} (e : exn) : M A := fun w => (Raise e, w).

Definition out_of_fuel {A} : M A := fun w => (OutOfFuel, w).

(** [try: m except e if catches e: handler e]. *)
Definition try_except {A} (m : M A) (catches : exn -> bool)
    (handler : exn -> M A) : M A :=
  fun w =>
    match m w with
    | (Raise e, w') => if catches e then handler e w' else (Raise e, w')
    | r => r
    end.

Declare Scope py_scope.
Delimit Scope py_scope with py.
Notation "x <- c1 ;; c2" := (bind c1 (fun x => c2))
  (at level 100, c1 at next level, right associativity) : py_scope.
Notation "c1 ;;; c2" := (bind c1 (fun _ => c2))
  (at level 100, right associativity) : py_scope.
Open Scope py_scope.

(** The world after the actions [evs] happened. *)
Definition add_events (w : World) (evs : Trace) : World :=
  {| w_files := w_files w; w_dirs := w_dirs w;
     w_refresh_token := w_refresh_token w;
     w_trace := w_trace w ++ evs |}.

Definition emit (ev : Event) : M unit :=
  fun w => (Ok tt, add_events w [ev]).

Definition get_trace : M Trace := fun w => (Ok (w_trace w), w).

Definition get_global_refresh_token : M (option string) :=
  fun w => (Ok (w_refresh_token w), w).

Definition set_global_refresh_token (tok : string) : M unit :=
  fun w =>
    (Ok tt, {| w_files := w_files w; w_dirs := w_dirs w;
               w_refresh_token := Some tok; w_trace := w_trace w |}).

Definition set_file (path : string) (content : bytes) : M unit :=
  fun w =>
    (Ok tt, {| w_files := <[path := content]> (w_files w);
               w_dirs := w_dirs w;
               w_refresh_token := w_refresh_token w;
               w_trace := w_trace w |}).

Definition get_file (path : string) : M (option bytes) :=
  fun w => (Ok (w_files w !! path), w).

Definition add_dir (path : string) : M unit :=
  fun w =>
    (Ok tt, {| w_files := w_files w; w_dirs := {[path]} ∪ w_dirs w;
               w_refresh_token := w_refresh_token w;
               w_trace := w_trace w |}).

(** Turn an answer of the environment into a result or an exception. *)
Definition answer {A} (r : exn_class + A) : M A :=
  match r with
  | inl c => raise (Exception c)
  | inr a => ret a
  end.

(** One request to the servers: the call is recorded, and the answer is
    the one the environment gives after the trace that precedes it. *)
Definition api {A} (dbx : Dropbox) (c : ApiCall)
    (srv : Trace -> Dropbox -> exn_class + A) : M A :=
  tr <- get_trace ;;
  emit (EApi dbx c) ;;;
  answer (srv tr dbx).

(** ** Local files *)

(** A file opened for reading in binary mode: its content and the read
    position. *)
Record FileObj : Type := mkFileObj {
  f_content : bytes;
  f_pos : nat
}.

Definition f_tell (f : FileObj) : Z := Z.of_nat (f_pos f).

(** [f.read(n)]: at most [n] bytes from the position on; everything that
    is left when [n] is negative. *)
Definition f_read (f : FileObj) (n : Z) : bytes * FileObj :=
  let rest := drop (f_pos f) (f_content f) in
  let data := if n <? 0 then rest else take (Z.to_nat n) rest in
  (data, {| f_content := f_content f;
            f_pos := (f_pos f + length data)%nat |}).

(** [f.read()]. *)
Definition f_read_all (f : FileObj) : bytes * FileObj := f_read f (-1).

(** [open(file_path, "rb")]. *)
Definition open_rb (file_path : string) : M FileObj :=
  fun w =>
    match w_files w !! file_path with
    | Some c => (Ok {| f_content := c; f_pos := 0 |}, w)
    | None =>
        if decide (file_path ∈ w_dirs w)
        then (Raise (Exception OSError), w)
        else (Raise (Exception FileNotFoundError), w)
    end.

(** [os.path.getsize(file_path)] of a regular file. Directories have a
    size too, which the environment does not expose; the program never
    asks for it. *)
Definition os_path_getsize (file_path : string) : M Z :=
  fun w =>
    match w_files w !! file_path with
    | Some c => (Ok (Z.of_nat (length c)), w)
    | None => (Raise (Exception FileNotFoundError), w)
    end.

Definition os_path_isfile (file_path : string) : M bool :=
  fun w => (Ok (bool_decide (is_Some (w_files w !! file_path))), w).

Definition os_path_exists (file_path : string) : M bool :=
  fun w =>
    (Ok (bool_decide (is_Some (w_files w !! file_path))
         || bool_decide (file_path ∈ w_dirs w)), w).


(** ** Python strings

    A Python [str] is modelled by its UTF-8 encoding, one [ascii] per
    byte; on ASCII text this is the text itself. The functions below are
    the [str] methods the program and the two standard library modules it
    calls ([urllib.parse], [configparser]) rely on, restricted to
    what they are used for. *)

Module Str.

Definition code (c : ascii) : N := N_of_ascii c.

Definition isascii (c : ascii) : bool := (code c <? 128)%N.

Definition between (lo hi : N) (c : ascii) : bool :=
  ((lo <=? code c) && (code c <=? hi))%N.

Definition isupper (c : ascii) : bool := between 65 90 c.
Definition islower (c : ascii) : bool := between 97 122 c.
Definition isdigit (c : ascii) : bool := between 48 57 c.
Definition isalpha (c : ascii) : bool := isupper c || islower c.
Definition isalnum (c : ascii) : bool := isalpha c || isdigit c.

(** [str.isspace] on ASCII: TAB, LF, VT, FF, CR, the four separators
    0x1c-0x1f and the space. *)
Definition isspace (c : ascii) : bool :=
  between 9 13 c || between 28 32 c.

Definition lower_char (c : ascii) : ascii :=
  if isupper c then ascii_of_N (code c + 32) else c.

Fixpoint lower (s : string) : string :=
  match s with
  | EmptyString => EmptyString
  | String c s' => String (lower_char c) (lower s')
  end.

Definition eqb_char (a b : ascii) : bool := Ascii.eqb a b.

(** [c in s] *)
Fixpoint contains (c : ascii) (s : string) : bool :=
  match s with
  | EmptyString => false
  | String d s' => eqb_char c d || contains c s'
  end.

Fixpoint forallb (p : ascii -> bool) (s : string) : bool :=
  match s with
  | EmptyString => true
  | String c s' => p c && forallb p s'
  end.

(** The longest prefix of characters satisfying [p], and the rest. *)
Fixpoint span (p : ascii -> bool) (s : string) : string * string :=
  match s with
  | EmptyString => (EmptyString, EmptyString)
  | String c s' =>
      if p c then let '(a, b) := span p s' in (String c a, b)
      else (EmptyString, s)
  end.

(** [s.partition(c)] for a separator of one character: [None] when [c]
    does not occur, else what stands before and after its first
    occurrence. *)
Fixpoint partition (c : ascii) (s : string) : option (string * string) :=
  match s with
  | EmptyString => None
  | String d s' =>
      if eqb_char c d then Some (EmptyString, s')
      else match partition c s' with
           | Some (a, b) => Some (String d a, b)
           | None => None
           end
  end.

(** [s.split(c)] for a separator of one character. *)
Fixpoint split (c : ascii) (s : string) : list string :=
  match s with
  | EmptyString => [EmptyString]
  | String d s' =>
      if eqb_char c d then EmptyString :: split c s'
      else match split c s' with
           | a :: l => String d a :: l
           | [] => [String d EmptyString]
           end
  end.

(** [sep.join(l)] *)
Fixpoint join (sep : string) (l : list string) : string :=
  match l with
  | [] => EmptyString
  | [a] => a
  | a :: l' => a +:+ sep +:+ join sep l'
  end.

(** [s.replace(c, "")] and [s.replace(c, d)] for single characters. *)
Fixpoint remove (p : ascii -> bool) (s : string) : string :=
  match s with
  | EmptyString => EmptyString
  | String c s' => if p c then remove p s' else String c (remove p s')
  end.

Fixpoint map (f : ascii -> ascii) (s : string) : string :=
  match s with
  | EmptyString => EmptyString
  | String c s' => String (f c) (map f s')
  end.

Definition replace_char (c d : ascii) (s : string) : string :=
  map (fun x => if eqb_char x c then d else x) s.

Fixpoint lstrip (p : ascii -> bool) (s : string) : string :=
  match s with
  | EmptyString => EmptyString
  | String c s' => if p c then lstrip p s' else s
  end.

(** [rstrip]: a character is kept when something that stays follows it. *)
Fixpoint rstrip (p : ascii -> bool) (s : string) : string :=
  match s with
  | EmptyString => EmptyString
  | String c s' =>
      match rstrip p s' with
      | EmptyString => if p c then EmptyString else String c EmptyString
      | r => String c r
      end
  end.

Definition strip (p : ascii -> bool) (s : string) : string :=
  rstrip p (lstrip p s).

Fixpoint startswith (prefix s : string) : bool :=
  match prefix, s with
  | EmptyString, _ => true
  | String a p', String b s' => eqb_char a b && startswith p' s'
  | String _ _, EmptyString => false
  end.

Definition is_empty (s : string) : bool :=
  match s with EmptyString => true | _ => false end.

Definition eqb (a b : string) : bool := bool_decide (a = b).

(** Characters that cannot be written inside a string literal here. *)
Definition TAB : ascii := ascii_of_N 9.
Definition LF : ascii := ascii_of_N 10.
Definition CR : ascii := ascii_of_N 13.
Definition QUOTE : ascii := ascii_of_N 34.

End Str.

(** ** [urllib.parse]

    The functions [convert_dropbox_url_into_download_only] calls, after
    [Lib/urllib/parse.py] of CPython 3.11, for [str] arguments and the
    default values of the optional parameters. Two checks of [urlsplit]
    are outside the model and answer [Unmodelled]: the validation of a
    bracketed (IPv6) host, which calls the [ipaddress] module, and the
    NFKC check of a network location that is not ASCII. *)

Module Urllib.

Inductive result (A : Type) : Type :=
  | Returns (a : A)
  | RaisesValueError
  | Unmodelled.
Arguments Returns {A} a.
Arguments RaisesValueError {A}.
Arguments Unmodelled {A}.

Definition uses_netloc : list string :=
  [""; "ftp"; "http"; "gopher"; "nntp"; "telnet"; "imap"; "wais"; "file";
   "mms"; "https"; "shttp"; "snews"; "prospero"; "rtsp"; "rtspu"; "rsync";
   "svn"; "svn+ssh"; "sftp"; "nfs"; "git"; "git+ssh"; "ws"; "wss"].

Definition uses_params : list string :=
  [""; "ftp"; "hdl"; "prospero"; "http"; "imap"; "https"; "shttp"; "rtsp";
   "rtspu"; "sip"; "sips"; "mms"; "sftp"; "tel"].

Definition in_list (s : string) (l : list string) : bool :=
  existsb (Str.eqb s) l.

(** [c in scheme_chars] *)
Definition scheme_char (c : ascii) : bool :=
  Str.isalnum c || Str.contains c "+-.".

(** [c in _WHATWG_C0_CONTROL_OR_SPACE] *)
Definition C0_control_or_space (c : ascii) : bool := (Str.code c <=? 32)%N.

(** [c in _UNSAFE_URL_BYTES_TO_REMOVE] *)
Definition unsafe_url_byte (c : ascii) : bool :=
  Str.eqb_char c Str.TAB || Str.eqb_char c Str.CR || Str.eqb_char c Str.LF.

Record SplitResult : Type := mkSplitResult {
  s_scheme : string; s_netloc : string; s_path : string;
  s_query : string; s_fragment : string
}.

Record ParseResult : Type := mkParseResult {
  scheme : string; netloc : string; path : string; params : string;
  query : string; fragment : string
}.

(** The scheme of [urlsplit]: what stands before the first [":"], when
    it starts with an ASCII letter and consists of scheme characters. *)
Definition split_scheme (url : string) : string * string :=
  match Str.partition ":" url with
  | Some (String c0 _ as pre, post) =>
      if Str.isascii c0 && Str.isalpha c0 && Str.forallb scheme_char pre
      then (Str.lower pre, post)
      else (EmptyString, url)
  | _ => (EmptyString, url)
  end.

(** [_splitnetloc(url, 2)], given what follows the two slashes. *)
Definition _splitnetloc (after_slashes : string) : string * string :=
  Str.span (fun c => negb (Str.contains c "/?#")) after_slashes.

(** The three checks [urlsplit] makes on the network location. *)
Definition check_netloc (netloc : string) : result unit :=
  let opening := Str.contains "[" netloc in
  let closing := Str.contains "]" netloc in
  if xorb opening closing then RaisesValueError
  else if opening && closing then Unmodelled
  else if Str.is_empty netloc || Str.forallb Str.isascii netloc
       then Returns tt
       else Unmodelled.

Definition split_at (c : ascii) (url : string) : string * string :=
  match Str.partition c url with
  | Some (a, b) => (a, b)
  | None => (url, EmptyString)
  end.

Definition urlsplit (url : string) : result SplitResult :=
  let url := Str.lstrip C0_control_or_space url in
  let url := Str.remove unsafe_url_byte url in
  let '(scheme, url) := split_scheme url in
  let '(netloc, url) :=
    match url with
    | String "/" (String "/" rest) => _splitnetloc rest
    | _ => (EmptyString, url)
    end in
  let '(url, fragment) := split_at "#" url in
  let '(url, query) := split_at "?" url in
  match check_netloc netloc with
  | Returns _ =>
      Returns {| s_scheme := scheme; s_netloc := netloc; s_path := url;
                 s_query := query; s_fragment := fragment |}
  | RaisesValueError => RaisesValueError
  | Unmodelled => Unmodelled
  end.

(** [s.rpartition(c)]: around the last occurrence of [c]. *)
Fixpoint rpartition (c : ascii) (s : string) : option (string * string) :=
  match s with
  | EmptyString => None
  | String d s' =>
      match rpartition c s' with
      | Some (a, b) => Some (String d a, b)
      | None => if Str.eqb_char c d then Some (EmptyString, s') else None
      end
  end.

(** [_splitparams(url)], called when [";"] occurs in [url]: the
    parameters are what follows the first [";"] of the last path
    segment. *)
Definition _splitparams (url : string) : string * string :=
  match rpartition "/" url with
  | Some (dir, segment) =>
      match Str.partition ";" segment with
      | Some (a, b) => (dir +:+ "/" +:+ a, b)
      | None => (url, EmptyString)
      end
  | None => split_at ";" url
  end.

Definition urlparse (url : string) : result ParseResult :=
  match urlsplit url with
  | Returns r =>
      let '(url, params) :=
        if in_list (s_scheme r) uses_params && Str.contains ";" (s_path r)
        then _splitparams (s_path r)
        else (s_path r, EmptyString) in
      Returns {| scheme := s_scheme r; netloc := s_netloc r; path := url;
                 params := params; query := s_query r;
                 fragment := s_fragment r |}
  | RaisesValueError => RaisesValueError
  | Unmodelled => Unmodelled
  end.

Definition starts_with_two_slashes (url : string) : bool :=
  match url with String "/" (String "/" _) => true | _ => false end.

Definition starts_with_slash (url : string) : bool :=
  match url with String "/" _ => true | _ => false end.

Definition urlunsplit (scheme netloc url query fragment : string) : string :=
  let url :=
    if negb (Str.is_empty netloc)
       || (negb (Str.is_empty scheme) && in_list scheme uses_netloc
           && negb (starts_with_two_slashes url))
    then
      let url :=
        if negb (Str.is_empty url) && negb (starts_with_slash url)
        then "/" +:+ url else url in
      "//" +:+ netloc +:+ url
    else url in
  let url := if negb (Str.is_empty scheme) then scheme +:+ ":" +:+ url
             else url in
  let url := if negb (Str.is_empty query) then url +:+ "?" +:+ query
             else url in
  if negb (Str.is_empty fragment) then url +:+ "#" +:+ fragment else url.

Definition urlunparse (scheme netloc url params query fragment : string)
    : string :=
  let url := if negb (Str.is_empty params) then url +:+ ";" +:+ params
             else url in
  urlunsplit scheme netloc url query fragment.

(** *** Percent decoding *)

Definition hexval (c : ascii) : option N :=
  if Str.isdigit c then Some (Str.code c - 48)%N
  else if Str.between 97 102 c then Some (Str.code c - 87)%N
  else if Str.between 65 70 c then Some (Str.code c - 55)%N
  else None.

(** [unquote_to_bytes]: every ["%"] followed by two hexadecimal digits
    becomes the byte they denote; any other ["%"] stays. *)
Fixpoint unquote_to_bytes (s : string) : string :=
  match s with
  | EmptyString => EmptyString
  | String c s' =>
      if Str.eqb_char c "%" then
        match s' with
        | String h (String l rest) =>
            match hexval h, hexval l with
            | Some a, Some b =>
                String (ascii_of_N (16 * a + b)) (unquote_to_bytes rest)
            | _, _ => String c (unquote_to_bytes s')
            end
        | _ => String c (unquote_to_bytes s')
        end
      else String c (unquote_to_bytes s')
  end.

(** [bytes.decode("utf-8", "replace")], the result again in UTF-8: well
    formed sequences stay, and every maximal ill formed piece becomes
    U+FFFD (the bytes EF BF BD). *)
Definition REPLACEMENT : string :=
  String (ascii_of_N 239) (String (ascii_of_N 191)
    (String (ascii_of_N 189) EmptyString)).

Inductive decoder : Type :=
  | Start
  | Need (pending : string) (more : nat) (lo hi : N).

Definition decode_start (c : ascii) : string * decoder :=
  let n := Str.code c in
  let one := String c EmptyString in
  if (n <? 128)%N then (one, Start)
  else if (n <? 194)%N then (REPLACEMENT, Start)
  else if (n <? 224)%N then (EmptyString, Need one 1 128 191)
  else if (n =? 224)%N then (EmptyString, Need one 2 160 191)
  else if (n =? 237)%N then (EmptyString, Need one 2 128 159)
  else if (n <? 240)%N then (EmptyString, Need one 2 128 191)
  else if (n =? 240)%N then (EmptyString, Need one 3 144 191)
  else if (n <? 244)%N then (EmptyString, Need one 3 128 191)
  else if (n =? 244)%N then (EmptyString, Need one 3 128 143)
  else (REPLACEMENT, Start).

Definition decode_step (st : decoder) (c : ascii) : string * decoder :=
  match st with
  | Start => decode_start c
  | Need pending more lo hi =>
      if Str.between lo hi c then
        match more with
        | S (S m) =>
            (EmptyString,
             Need (pending +:+ String c EmptyString) (S m) 128 191)
        | _ => (pending +:+ String c EmptyString, Start)
        end
      else
        let '(out, st') := decode_start c in (REPLACEMENT +:+ out, st')
  end.

Fixpoint decode_replace (st : decoder) (s : string) : string :=
  match s with
  | EmptyString =>
      match st with Start => EmptyString | Need _ _ _ _ => REPLACEMENT end
  | String c s' =>
      let '(out, st') := decode_step st c in
      out +:+ decode_replace st' s'
  end.

(** The runs of ASCII and of other characters of a string, in order
    ([_asciire.split]). *)
Fixpoint runs (s : string) : list (bool * string) :=
  match s with
  | EmptyString => []
  | String c s' =>
      match runs s' with
      | (kind, run) :: l =>
          if Bool.eqb kind (Str.isascii c) then (kind, String c run) :: l
          else (Str.isascii c, String c EmptyString) :: (kind, run) :: l
      | [] => [(Str.isascii c, String c EmptyString)]
      end
  end.

(** [unquote(s)] with [encoding="utf-8"] and [errors="replace"]. *)
Definition unquote (s : string) : string :=
  if negb (Str.contains "%" s) then s
  else
    Str.join EmptyString
      (List.map
         (fun '(ascii_run, run) =>
            if ascii_run : bool
            then decode_replace Start (unquote_to_bytes run)
            else run)
         (runs s)).

(** *** Query strings *)

(** [parse_qsl(qs)]: the fields [name=value] with a value that is not
    empty, decoded, in order. *)
Definition parse_field (name_value : string) : list (string * string) :=
  if Str.is_empty name_value then []
  else
    match Str.partition "=" name_value with
    | None => []
    | Some (name, value) =>
        if Str.is_empty value then []
        else [(unquote (Str.replace_char "+" " " name),
               unquote (Str.replace_char "+" " " value))]
    end.

Definition parse_qsl (qs : string) : list (string * string) :=
  if Str.is_empty qs then []
  else flat_map parse_field (Str.split "&" qs).

(** A Python [dict] from [str] to lists of [str]: an association list in
    insertion order. *)
Abbreviation query_dict := (list (string * list string)).

Fixpoint dict_get (k : string) (d : query_dict) : option (list string) :=
  match d with
  | [] => None
  | (k', v) :: d' => if Str.eqb k' k then Some v else dict_get k d'
  end.

(** [d[k] = v] *)
Fixpoint dict_set (k : string) (v : list string) (d : query_dict)
    : query_dict :=
  match d with
  | [] => [(k, v)]
  | (k', v') :: d' =>
      if Str.eqb k' k then (k', v) :: d' else (k', v') :: dict_set k v d'
  end.

(** One round of [parse_qs]'s loop. *)
Definition dict_add (d : query_dict) (field : string * string)
    : query_dict :=
  let '(name, value) := field in
  match dict_get name d with
  | Some values => dict_set name (values ++ [value]) d
  | None => dict_set name [value] d
  end.

Definition parse_qs (qs : string) : query_dict :=
  fold_left dict_add (parse_qsl qs) [].

(** *** Percent encoding *)

Definition always_safe (c : ascii) : bool :=
  Str.isascii c && (Str.isalnum c || Str.contains c "_.-~").

Definition hexdigit (n : N) : ascii :=
  if (n <? 10)%N then ascii_of_N (48 + n) else ascii_of_N (55 + n).

Definition quote_plus_byte (c : ascii) : string :=
  if Str.eqb_char c " " then "+"
  else if always_safe c then String c EmptyString
  else String "%" (String (hexdigit (Str.code c / 16))
         (String (hexdigit (Str.code c mod 16)) EmptyString)).

Fixpoint quote_plus (s : string) : string :=
  match s with
  | EmptyString => EmptyString
  | String c s' => quote_plus_byte c +:+ quote_plus s'
  end.

(** [urlencode(query, doseq=True)] for a dictionary of lists. *)
Definition urlencode (query : query_dict) : string :=
  Str.join "&"
    (flat_map
       (fun '(k, values) =>
          List.map (fun v => quote_plus k +:+ "=" +:+ quote_plus v) values)
       query).

End Urllib.

(** ** [configparser.ConfigParser]

    The operations [get_refresh_token] performs on a parser created with
    the default settings (delimiters ["="] and [":"], comment prefixes
    ["#"] and [";"], no inline comments, strict, empty lines allowed in
    values, [BasicInterpolation], default section ["DEFAULT"]), after
    [Lib/configparser.py] of CPython 3.11. Text is ASCII: the option
    names and values the program stores are, and a file holding another
    byte is refused when it is decoded (see [read_text_file] below). *)

Module ConfigParser.

(** A Python [dict] with [str] keys: an association list in insertion
    order, without repeated keys. *)
Abbreviation dict V := (list (string * V)).

Fixpoint lookup {V} (k : string) (d : dict V) : option V :=
  match d with
  | [] => None
  | (k', v) :: d' => if Str.eqb k' k then Some v else lookup k d'
  end.

(** [d[k] = v]: a present key keeps its place. *)
Fixpoint store {V} (k : string) (v : V) (d : dict V) : dict V :=
  match d with
  | [] => [(k, v)]
  | (k', v') :: d' =>
      if Str.eqb k' k then (k', v) :: d' else (k', v') :: store k v d'
  end.

Definition default_section : string := "DEFAULT".
Definition MAX_INTERPOLATION_DEPTH : nat := 10.

Record t : Type := mkConfig {
  defaults : dict string;
  sections : dict (dict string)
}.

(** [ConfigParser()] *)
Definition empty : t := {| defaults := []; sections := [] |}.

Definition has_section (cfg : t) (section : string) : bool :=
  bool_decide (is_Some (lookup section (sections cfg))).

(** [optionxform] *)
Definition optionxform (optionstr : string) : string :=
  Str.lower optionstr.

(** [config[key] = {}] ([__setitem__] with an empty dictionary, through
    [read_dict] and [add_section], whose [ValueError] for the default
    section and [DuplicateSectionError] [read_dict] swallows). *)
Definition setitem_empty (key : string) (cfg : t) : t :=
  if Str.eqb key default_section
  then {| defaults := []; sections := sections cfg |}
  else if has_section cfg key
  then {| defaults := defaults cfg;
          sections := store key [] (sections cfg) |}
  else {| defaults := defaults cfg;
          sections := sections cfg ++ [(key, [])] |}.

(** *** Interpolation syntax *)

(** [s.replace("%%", "")] *)
Fixpoint remove_escaped_percent (s : string) : string :=
  match s with
  | EmptyString => EmptyString
  | String c s' =>
      if Str.eqb_char c "%" then
        match s' with
        | String d rest =>
            if Str.eqb_char d "%" then remove_escaped_percent rest
            else String c (remove_escaped_percent s')
        | EmptyString => String c EmptyString
        end
      else String c (remove_escaped_percent s')
  end.

(** A match of [_KEYCRE], the pattern [%\(([^)]+)\)s], at the start of
    [s]: the name between the parentheses and what follows the match. *)
Definition match_reference (s : string) : option (string * string) :=
  match s with
  | String "%" (String "(" after) =>
      let '(name, rest) :=
        Str.span (fun c => negb (Str.eqb_char c ")")) after in
      match name, rest with
      | String _ _, String ")" (String "s" rest') => Some (name, rest')
      | _, _ => None
      end
  | _ => None
  end.

(** [_KEYCRE.sub("", s)]: [skip] characters of a match are still to be
    dropped. *)
Fixpoint remove_references (skip : nat) (s : string) : string :=
  match s with
  | EmptyString => EmptyString
  | String c s' =>
      match skip with
      | S k => remove_references k s'
      | O =>
          match match_reference s with
          | Some (name, _) =>
              (* the match is ["%(" name ")s"]; its first character is [c] *)
              remove_references (String.length name + 3) s'
          | None => String c (remove_references 0 s')
          end
      end
  end.

(** [BasicInterpolation.before_set]: [true] when the value is refused
    with [ValueError]. *)
Definition invalid_interpolation_syntax (value : string) : bool :=
  Str.contains "%"
    (remove_references 0 (remove_escaped_percent value)).

(** [config[section][key] = value] for a [str] value:
    [__getitem__], then [SectionProxy.__setitem__] and [set]. *)
Definition set_option (section key value : string) (cfg : t)
    : exn_class + t :=
  if negb (Str.eqb section default_section) && negb (has_section cfg section)
  then inl KeyError
  else if negb (Str.is_empty value) && invalid_interpolation_syntax value
  then inl ValueError
  else if Str.is_empty section || Str.eqb section default_section
  then inr {| defaults := store (optionxform key) value (defaults cfg);
              sections := sections cfg |}
  else
    match lookup section (sections cfg) with
    | Some sectdict =>
        inr {| defaults := defaults cfg;
               sections :=
                 store section (store (optionxform key) value sectdict)
                   (sections cfg) |}
    | None => inl ConfigParserError
    end.

(** *** Writing *)

Definition NEWLINE : string := String Str.LF EmptyString.

(** [str(value).replace("\n", "\n\t")] *)
Fixpoint indent_continuations (value : string) : string :=
  match value with
  | EmptyString => EmptyString
  | String c s' =>
      if Str.eqb_char c Str.LF
      then String Str.LF (String Str.TAB (indent_continuations s'))
      else String c (indent_continuations s')
  end.

(** The strings [_write_section] passes to [fp.write], in order. *)
Definition write_section (section_name : string) (items : dict string)
    : list string :=
  ("[" +:+ section_name +:+ "]" +:+ NEWLINE)
  :: List.map
       (fun '(key, value) =>
          key +:+ " = " +:+ indent_continuations value +:+ NEWLINE)
       items
  ++ [NEWLINE].

(** [config.write(fp)] *)
Definition write (cfg : t) : list string :=
  (if bool_decide (defaults cfg = []) then []
   else write_section default_section (defaults cfg))
  ++ flat_map (fun '(name, items) => write_section name items)
       (sections cfg).

(** *** Reading *)

Inductive current_section : Type :=
  | NoSection
  | InDefaults
  | InSection (name : string).

(** The local variables of [_read] with the dictionaries of a parser
    that was empty before; while the file is read a value is the list of
    its lines. *)
Record reader : Type := mkReader {
  r_defaults : dict (list string);
  r_sections : dict (dict (list string));
  cursect : current_section;
  sectname : string;
  optname : option string;
  indent_level : nat;
  added_sections : list string;
  added_options : list (string * string);
  parsing_error : bool
}.

Definition reader_start : reader :=
  {| r_defaults := []; r_sections := []; cursect := NoSection;
     sectname := EmptyString; optname := None; indent_level := 0;
     added_sections := []; added_options := []; parsing_error := false |}.

(** The dictionary [cursect] refers to. *)
Definition cursect_dict (r : reader) : dict (list string) :=
  match cursect r with
  | NoSection => []
  | InDefaults => r_defaults r
  | InSection name => default [] (lookup name (r_sections r))
  end.

Definition set_cursect_dict (r : reader) (d : dict (list string)) : reader :=
  match cursect r with
  | NoSection => r
  | InDefaults =>
      {| r_defaults := d; r_sections := r_sections r; cursect := cursect r;
         sectname := sectname r; optname := optname r;
         indent_level := indent_level r;
         added_sections := added_sections r;
         added_options := added_options r;
         parsing_error := parsing_error r |}
  | InSection name =>
      {| r_defaults := r_defaults r;
         r_sections := store name d (r_sections r); cursect := cursect r;
         sectname := sectname r; optname := optname r;
         indent_level := indent_level r;
         added_sections := added_sections r;
         added_options := added_options r;
         parsing_error := parsing_error r |}
  end.

(** [cursect[optname].append(line)] *)
Definition append_to_option (r : reader) (name : string) (line : string)
    : reader :=
  let d := cursect_dict r in
  set_cursect_dict r (store name (default [] (lookup name d) ++ [line]) d).

(** [cursect is not None and optname]: the name of the option a
    continuation line belongs to. *)
Definition open_option (r : reader) : option string :=
  match cursect r, optname r with
  | NoSection, _ => None
  | _, Some (String _ _ as name) => Some name
  | _, _ => None
  end.

(** A match of [SECTCRE], the pattern [\[(.+)\]], at the start of the
    line: the header runs to the last ["]"]. *)
Definition section_header (value : string) : option string :=
  match value with
  | String "[" rest =>
      match Urllib.rpartition "]" rest with
      | Some (String _ _ as header, _) => Some header
      | _ => None
      end
  | _ => None
  end.

Definition is_delimiter (c : ascii) : bool :=
  Str.eqb_char c "=" || Str.eqb_char c ":".

(** A match of [OPTCRE]: the option name, as short as possible, then
    white space, the first delimiter, white space, and the value. *)
Definition option_line (value : string) : option (string * string) :=
  match Str.span (fun c => negb (is_delimiter c)) value with
  | (before, String _ after) =>
      Some (Str.rstrip Str.isspace before, Str.lstrip Str.isspace after)
  | (_, EmptyString) => None
  end.

Definition is_comment (stripped : string) : bool :=
  Str.startswith "#" stripped || Str.startswith ";" stripped.

Definition with_header (r : reader) (name : string) (cs : current_section)
    (secs : dict (dict (list string))) (added : list string) : reader :=
  {| r_defaults := r_defaults r; r_sections := secs; cursect := cs;
     sectname := name; optname := None; indent_level := indent_level r;
     added_sections := added; added_options := added_options r;
     parsing_error := parsing_error r |}.

Definition with_indent (r : reader) (n : nat) : reader :=
  {| r_defaults := r_defaults r; r_sections := r_sections r;
     cursect := cursect r; sectname := sectname r; optname := optname r;
     indent_level := n; added_sections := added_sections r;
     added_options := added_options r;
     parsing_error := parsing_error r |}.

Definition with_error (r : reader) : reader :=
  {| r_defaults := r_defaults r; r_sections := r_sections r;
     cursect := cursect r; sectname := sectname r; optname := optname r;
     indent_level := indent_level r; added_sections := added_sections r;
     added_options := added_options r; parsing_error := true |}.

Definition with_option (r : reader) (name : string) : reader :=
  {| r_defaults := r_defaults r; r_sections := r_sections r;
     cursect := cursect r; sectname := sectname r; optname := Some name;
     indent_level := indent_level r; added_sections := added_sections r;
     added_options := (sectname r, name) :: added_options r;
     parsing_error := parsing_error r |}.

(** The branch of [_read] for a line that starts a section or an
    option. *)
Definition read_header_or_option (r : reader) (value : string)
    : exn_class + reader :=
  match section_header value with
  | Some name =>
      if bool_decide (is_Some (lookup name (r_sections r))) then
        if bool_decide (name ∈ added_sections r)
        then inl ConfigParserError
        else inr (with_header r name (InSection name) (r_sections r)
                    (name :: added_sections r))
      else if Str.eqb name default_section then
        inr (with_header r name InDefaults (r_sections r)
               (added_sections r))
      else
        inr (with_header r name (InSection name)
               (r_sections r ++ [(name, [])]) (name :: added_sections r))
  | None =>
      match cursect r with
      | NoSection => inl ConfigParserError
      | _ =>
          match option_line value with
          | Some (optname, optval) =>
              let r := if Str.is_empty optname then with_error r else r in
              let name := optionxform (Str.rstrip Str.isspace optname) in
              if bool_decide ((sectname r, name) ∈ added_options r)
              then inl ConfigParserError
              else
                inr (set_cursect_dict (with_option r name)
                       (store name [Str.strip Str.isspace optval]
                          (cursect_dict r)))
          | None => inr (with_error r)
          end
      end
  end.

(** One round of the loop of [_read] over the lines of the file. *)
Definition read_line (r : reader) (line : string) : exn_class + reader :=
  let stripped := Str.strip Str.isspace line in
  let value := if is_comment stripped then EmptyString else stripped in
  if Str.is_empty value then
    match open_option r with
    | Some name =>
        if is_comment stripped then inr r
        else inr (append_to_option r name EmptyString)
    | None => inr r
    end
  else
    let cur_indent_level :=
      String.length (fst (Str.span Str.isspace line)) in
    match open_option r with
    | Some name =>
        if (indent_level r <? cur_indent_level)%nat
        then inr (append_to_option r name value)
        else read_header_or_option (with_indent r cur_indent_level) value
    | None => read_header_or_option (with_indent r cur_indent_level) value
    end.

Fixpoint read_lines (r : reader) (lines : list string)
    : exn_class + reader :=
  match lines with
  | [] => inr r
  | line :: lines' =>
      match read_line r line with
      | inr r' => read_lines r' lines'
      | inl e => inl e
      end
  end.

(** [_join_multiline_values] for one value. *)
Definition join_value (lines : list string) : string :=
  Str.rstrip Str.isspace (Str.join NEWLINE lines).

Definition join_values (d : dict (list string)) : dict string :=
  List.map (fun '(name, lines) => (name, join_value lines)) d.

(** What a text file gives when it is read line by line: ["\r\n"] and
    ["\r"] count as ["\n"] (universal newlines). *)
Fixpoint universal_newlines (s : string) : string :=
  match s with
  | EmptyString => EmptyString
  | String c s' =>
      if Str.eqb_char c Str.CR then
        match s' with
        | String d s'' =>
            if Str.eqb_char d Str.LF
            then String Str.LF (universal_newlines s'')
            else String Str.LF (universal_newlines s')
        | EmptyString => String Str.LF EmptyString
        end
      else String c (universal_newlines s')
  end.

Fixpoint drop_last_if_empty (l : list string) : list string :=
  match l with
  | [] => []
  | [EmptyString] => []
  | a :: l' => a :: drop_last_if_empty l'
  end.

(** The lines of a text, without their terminators. *)
Definition lines (text : string) : list string :=
  drop_last_if_empty (Str.split Str.LF (universal_newlines text)).

(** [_read] on a parser that was empty: the text of the file to the
    configuration, or the exception raised. *)
Definition read_text (text : string) : exn_class + t :=
  match read_lines reader_start (lines text) with
  | inl e => inl e
  | inr r =>
      if parsing_error r then inl ConfigParserError
      else
        inr {| defaults := join_values (r_defaults r);
               sections :=
                 List.map (fun '(name, d) => (name, join_values d))
                   (r_sections r) |}
  end.

(** *** Getting a value *)

(** [_unify_values]: the option is looked up in the section, then in the
    defaults. *)
Definition unify_values (cfg : t) (section : string) (key : string)
    : option string :=
  match lookup key (default [] (lookup section (sections cfg))) with
  | Some v => Some v
  | None => lookup key (defaults cfg)
  end.

(** [BasicInterpolation._interpolate_some]: [depth_left] further levels
    of references may be entered; [fuel] bounds the rounds of the loop
    over [rest], each of which consumes a character. *)
Fixpoint interpolate_some (depth_left : nat) (map : string -> option string)
    (rest0 : string) : exn_class + string :=
  match depth_left with
  | O => inl ConfigParserError
  | S depth_left' =>
      (fix loop (fuel : nat) (rest : string) : exn_class + string :=
         match fuel with
         | O => inr EmptyString
         | S fuel' =>
             match Str.partition "%" rest with
             | None => inr rest
             | Some (before, after) =>
                 match after with
                 | String "%" rest' =>
                     match loop fuel' rest' with
                     | inr r => inr (before +:+ "%" +:+ r)
                     | inl e => inl e
                     end
                 | String "(" _ =>
                     match match_reference (String "%" after) with
                     | None => inl ConfigParserError
                     | Some (name, rest') =>
                         match map (optionxform name) with
                         | None => inl ConfigParserError
                         | Some v =>
                             match (if Str.contains "%" v
                                    then interpolate_some depth_left' map v
                                    else inr v) with
                             | inl e => inl e
                             | inr vi =>
                                 match loop fuel' rest' with
                                 | inr r => inr (before +:+ vi +:+ r)
                                 | inl e => inl e
                                 end
                             end
                         end
                     end
                 | _ => inl ConfigParserError
                 end
             end
         end) (S (String.length rest0)) rest0
  end.

(** [config[section][key]]: [__getitem__] of the parser, then of the
    section proxy ([has_option], [get] and [before_get]). *)
Definition getitem (cfg : t) (section key : string)
    : exn_class + string :=
  if negb (Str.eqb section default_section) && negb (has_section cfg section)
  then inl KeyError
  else
    let key := optionxform key in
    let in_defaults :=
      bool_decide (is_Some (lookup key (defaults cfg))) in
    let has_option :=
      if Str.is_empty section || Str.eqb section default_section
      then in_defaults
      else bool_decide
             (is_Some (lookup key
                         (default [] (lookup section (sections cfg)))))
           || in_defaults in
    if negb has_option then inl KeyError
    else
      match unify_values cfg section key with
      | None => inl ConfigParserError
      | Some value =>
          interpolate_some MAX_INTERPOLATION_DEPTH
            (unify_values cfg section) value
      end.

End ConfigParser.
(** ** The program *)

Definition CHUNK_SIZE : Z := 4 * 1024 * 1024.
Definition TIMEOUT : Z := 900.

(** *** [convert_dropbox_url_into_download_only] *)

Definition convert_dropbox_url_into_download_only (the_url : string)
    : Urllib.result string :=
  match Urllib.urlparse the_url with
  | Urllib.Returns parsed_url =>
      let query_params := Urllib.parse_qs (Urllib.query parsed_url) in
      let query_params :=
        if bool_decide (Urllib.dict_get "dl" query_params = Some ["0"])
        then Urllib.dict_set "dl" ["1"] query_params
        else query_params in
      let new_query_string := Urllib.urlencode query_params in
      let updated_url :=
        Urllib.urlunparse (Urllib.scheme parsed_url)
          (Urllib.netloc parsed_url) (Urllib.path parsed_url)
          (Urllib.params parsed_url) new_query_string
          (Urllib.fragment parsed_url) in
      Urllib.Returns updated_url
  | Urllib.RaisesValueError => Urllib.RaisesValueError
  | Urllib.Unmodelled => Urllib.Unmodelled
  end.

(** *** Values of the main program *)

Inductive root_choice : Type := root_team | root_user.

(** The namespace [argparse] returns. *)
Record Args : Type := mkArgs {
  source : string;
  destination : string;
  authenticate : bool;
  auto_rename : bool;
  zip : bool;
  password : option string;
  expiration_days : Z;
  zip_file_path : option string;
  output : string;
  root : root_choice
}.

(** The dictionary [return_struct] of [big_file_upload]. *)
Record return_struct : Type := mkReturnStruct {
  url : option string;
  dropbox_path : option string
}.

(** Truth value of a [str] or [None]. *)
Definition truthy (s : option string) : bool :=
  match s with Some (String _ _) => true | _ => false end.

(** *** Text files

    The text encoding of the machine is ASCII: writing a character or
    reading a byte outside ASCII raises a [UnicodeError]. *)

Definition encode_text (s : string) : option bytes :=
  if Str.forallb Str.isascii s then Some (list_byte_of_string s) else None.

Definition decode_text (b : bytes) : option string :=
  let s := string_of_list_byte b in
  if Str.forallb Str.isascii s then Some s else None.

(** [posixpath.join(a, b)] *)
Definition os_path_join (a b : string) : string :=
  if Str.startswith "/" b then b
  else if Str.is_empty a then b
  else if Str.eqb_char (default "/"%char (String.get (String.length a - 1) a))
            "/"
       then a +:+ b
       else a +:+ "/" +:+ b.

(** [string.hexdigits] *)
Definition hexdigits : string := "0123456789abcdefABCDEF".

(** The days [datetime] can represent, as proleptic Gregorian ordinals,
    and the range of [timedelta(days=...)]. *)
Definition MAX_ORDINAL : Z := 3652059.
Definition MAX_DELTA_DAYS : Z := 999999999.

Section Program.

Context (E : Env).

Definition dbx_users_get_current_account (dbx : Dropbox) : M string :=
  api dbx users_get_current_account (srv_users_get_current_account E).

Definition dbx_files_upload (dbx : Dropbox) (f : bytes) (path : string)
    (mode : WriteMode) (autorename : bool) : M Metadata :=
  api dbx (files_upload f path mode autorename)
    (fun tr d => srv_files_upload E tr d f path mode autorename).

Definition dbx_files_upload_session_start (dbx : Dropbox) (f : bytes)
    : M string :=
  api dbx (files_upload_session_start f)
    (fun tr d => srv_files_upload_session_start E tr d f).

Definition dbx_files_upload_session_append (dbx : Dropbox) (f : bytes)
    (sid : string) (off : Z) : M unit :=
  api dbx (files_upload_session_append f sid off)
    (fun tr d => srv_files_upload_session_append E tr d f sid off).

Definition dbx_files_upload_session_finish (dbx : Dropbox) (f : bytes)
    (cur : UploadSessionCursor) (commit : CommitInfo) : M Metadata :=
  api dbx (files_upload_session_finish f cur commit)
    (fun tr d => srv_files_upload_session_finish E tr d f cur commit).

Definition dbx_files_list_folder (dbx : Dropbox) (path : string)
    : M ListFolderResult :=
  api dbx (files_list_folder path)
    (fun tr d => srv_files_list_folder E tr d path).

Definition dbx_files_list_folder_continue (dbx : Dropbox) (cur : string)
    : M ListFolderResult :=
  api dbx (files_list_folder_continue cur)
    (fun tr d => srv_files_list_folder_continue E tr d cur).

Definition dbx_files_download (dbx : Dropbox) (path : string)
    : M (Metadata * bytes) :=
  api dbx (files_download path)
    (fun tr d => srv_files_download E tr d path).

Definition dbx_sharing_create_shared_link_with_settings (dbx : Dropbox)
    (path : string) (settings : SharedLinkSettings) : M string :=
  api dbx (sharing_create_shared_link_with_settings path settings)
    (fun tr d =>
       srv_sharing_create_shared_link_with_settings E tr d path settings).

(** *** [upload] *)

(** The [while f.tell() < file_size] loop of [upload]. [actual_path] is
    the local variable of that name, unbound ([None]) until the finish
    branch assigns it. Every round reads at least one byte when the chunk
    size is positive, so [fuel] rounds for a file of [fuel] bytes are
    never used up (lemma [upload_loop_fuel] below). *)
Fixpoint upload_loop (chunk_size : Z) (fuel : nat) (dbx : Dropbox)
    (file_size : Z) (f : FileObj) (cur : UploadSessionCursor)
    (commit : CommitInfo) (actual_path : option string)
    : M (option string) :=
  if f_tell f <? file_size then
    match fuel with
    | O => out_of_fuel
    | S fuel' =>
        if file_size - f_tell f <=? chunk_size then
          let '(data, f') := f_read f chunk_size in
          upload_return <-
            dbx_files_upload_session_finish dbx data cur commit ;;
          upload_loop chunk_size fuel' dbx file_size f' cur commit
            (Some (path_display upload_return))
        else
          let '(data, f') := f_read f chunk_size in
          dbx_files_upload_session_append dbx data (session_id cur)
            (offset cur) ;;;
          upload_loop chunk_size fuel' dbx file_size f'
            {| session_id := session_id cur; offset := f_tell f' |}
            commit actual_path
    end
  else ret actual_path.

Definition upload_with (chunk_size : Z) (file_path target_path : string)
    (dbx : Dropbox) (autorename : bool) : M string :=
  f <- open_rb file_path ;;
  file_size <- os_path_getsize file_path ;;
  if file_size <=? chunk_size then
    let '(data, _) := f_read_all f in
    upload_return <-
      dbx_files_upload dbx data target_path WriteMode_add autorename ;;
    ret (path_display upload_return)
  else
    let '(data, f1) := f_read f chunk_size in
    sid <- dbx_files_upload_session_start dbx data ;;
    let cur := {| session_id := sid; offset := f_tell f1 |} in
    let commit := {| ci_path := target_path; ci_mode := WriteMode_add;
                     ci_autorename := autorename |} in
    actual_path <-
      upload_loop chunk_size (length (f_content f1)) dbx file_size f1 cur
        commit None ;;
    match actual_path with
    | Some p => ret p
    | None => raise (Exception UnboundLocalError)
    end.

Definition upload : string -> string -> Dropbox -> bool -> M string :=
  upload_with CHUNK_SIZE.

(** *** Writing files *)

(** [open(path, "w")] or [open(path, "wb")]: the file is created or
    emptied. *)
Definition open_w (path : string) : M unit :=
  fun w =>
    if decide (path ∈ w_dirs w) then (Raise (Exception OSError), w)
    else if file_writable E path then set_file path [] w
    else (Raise (Exception OSError), w).

(** [fp.write(text)] on a text file. *)
Definition fp_write (path : string) (text : string) : M unit :=
  match encode_text text with
  | Some b =>
      old <- get_file path ;;
      set_file path (default [] old ++ b)
  | None => raise (Exception UnicodeError)
  end.

Fixpoint fp_write_all (path : string) (texts : list string) : M unit :=
  match texts with
  | [] => ret tt
  | text :: texts' => fp_write path text ;;; fp_write_all path texts'
  end.

(** [os.makedirs(path, exist_ok=True)] *)
Definition os_makedirs (path : string) : M unit :=
  fun w =>
    match w_files w !! path with
    | Some _ => (Raise (Exception FileExistsError), w)
    | None =>
        if decide (path ∈ w_dirs w) then (Ok tt, w)
        else if file_writable E path then add_dir path w
        else (Raise (Exception OSError), w)
    end.

Definition sys_exit {A} (code : Z) : M A := raise (SystemExit code).

Definition time_sleep (seconds : Z) : M unit := emit (ESleep seconds).

Definition print (text : string) : M unit := emit (EPrint text).

(** [input(prompt)] *)
Definition input (prompt : string) : M string :=
  tr <- get_trace ;;
  emit (EInput prompt) ;;;
  answer (stdin_readline E tr).

(** *** [make_user_login_to_get_tokens] *)

Definition make_user_login_to_get_tokens : M OAuth2FlowNoRedirectResult :=
  tr <- get_trace ;;
  emit EAuthStart ;;;
  let authorize_url := auth_flow_start E tr in
  print ("Login Here:" +:+ ConfigParser.NEWLINE +:+ authorize_url) ;;;
  line <- input "Paste Access Code: " ;;
  let auth_code := Str.strip Str.isspace line in
  try_except
    (tr <- get_trace ;;
     emit (EAuthFinish auth_code) ;;;
     answer (auth_flow_finish E tr auth_code))
    is_RuntimeError
    (fun ex => sys_exit 42).

(** *** [get_refresh_token] *)

Definition get_refresh_token (interactive : bool) : M string :=
  let config := ConfigParser.empty in
  is_file <- os_path_isfile (my_config_file E) ;;
  config <-
    (if negb is_file then
       if negb interactive then raise (Exception RuntimeError)
       else
         tokens <- make_user_login_to_get_tokens ;;
         let config := ConfigParser.setitem_empty (APP_KEY E) config in
         config <- answer (ConfigParser.set_option (APP_KEY E)
                             "access_token" (access_token tokens) config) ;;
         config <- answer (ConfigParser.set_option (APP_KEY E)
                             "refresh_token" (rt_refresh_token tokens)
                             config) ;;
         config <- answer (ConfigParser.set_option (APP_KEY E)
                             "account_id" (account_id tokens) config) ;;
         config <- answer (ConfigParser.set_option (APP_KEY E)
                             "scope" (scope tokens) config) ;;
         config <- answer (ConfigParser.set_option (APP_KEY E)
                             "expiration" (expires_at tokens) config) ;;
         open_w (my_config_file E) ;;;
         fp_write_all (my_config_file E) (ConfigParser.write config) ;;;
         ret config
     else
       content <- get_file (my_config_file E) ;;
       match decode_text (default [] content) with
       | None => raise (Exception UnicodeError)
       | Some text => answer (ConfigParser.read_text text)
       end) ;;
  answer (ConfigParser.getitem config (APP_KEY E) "refresh_token").

(** *** [download_file], [download_folder], [big_download_directory] *)

Definition download_file (dbx : Dropbox) (dropbox_path local_path : string)
    : M unit :=
  open_w local_path ;;;
  res <- dbx_files_download dbx dropbox_path ;;
  set_file local_path (snd res).

(** The body of the [for entry in response.entries] loop; [recurse] is
    [download_folder] itself. *)
Definition download_entry (recurse : string -> string -> M (Z * Z))
    (dbx : Dropbox) (local_dir : string) (entry : Metadata)
    (totals : Z * Z) : M (Z * Z) :=
  let '(total_files, total_folders) := totals in
  match entry with
  | FileMetadata name path_lower _ =>
      let local_file_path := os_path_join local_dir name in
      download_file dbx path_lower local_file_path ;;;
      ret (total_files + 1, total_folders)
  | FolderMetadata name path_lower _ =>
      let new_local_dir := os_path_join local_dir name in
      sub <- recurse path_lower new_local_dir ;;
      let '(sub_files, sub_folders) := sub in
      ret (total_files + sub_files, total_folders + (1 + sub_folders))
  | DeletedMetadata _ _ _ => ret totals
  end.

Fixpoint download_entries (recurse : string -> string -> M (Z * Z))
    (dbx : Dropbox) (local_dir : string) (entries : list Metadata)
    (totals : Z * Z) : M (Z * Z) :=
  match entries with
  | [] => ret totals
  | entry :: entries' =>
      totals' <- download_entry recurse dbx local_dir entry totals ;;
      download_entries recurse dbx local_dir entries' totals'
  end.

(** The [while True] loop over the pages of a listing; [fuel] bounds the
    number of continuation calls. *)
Fixpoint download_pages (recurse : string -> string -> M (Z * Z))
    (fuel : nat) (dbx : Dropbox) (local_dir : string)
    (response : ListFolderResult) (totals : Z * Z) : M (Z * Z) :=
  totals' <-
    download_entries recurse dbx local_dir (entries response) totals ;;
  if negb (has_more response) then ret totals'
  else
    match fuel with
    | O => out_of_fuel
    | S fuel' =>
        response' <- dbx_files_list_folder_continue dbx (cursor response) ;;
        download_pages recurse fuel' dbx local_dir response' totals'
    end.

(** [fuel] bounds the depth of the folders and, in each folder, the
    number of pages. *)
Fixpoint download_folder (fuel : nat) (dbx : Dropbox)
    (folder_path local_dir : string) : M (Z * Z) :=
  match fuel with
  | O => out_of_fuel
  | S fuel' =>
      try_except
        (os_makedirs local_dir ;;;
         response <- dbx_files_list_folder dbx folder_path ;;
         download_pages (download_folder fuel' dbx) fuel' dbx local_dir
           response (0, 0))
        is_ApiError
        (fun err => raise err)
  end.

(** [if not refresh_token: refresh_token = get_refresh_token(...)] *)
Definition cached_refresh_token (interactive : bool) : M string :=
  cached <- get_global_refresh_token ;;
  if truthy cached then ret (default EmptyString cached)
  else
    tok <- get_refresh_token interactive ;;
    set_global_refresh_token tok ;;;
    ret tok.

(** [dropbox.Dropbox(oauth2_refresh_token=refresh_token, app_key=APP_KEY)] *)
Definition new_dropbox (refresh_token : string) : M Dropbox :=
  answer (dropbox_init E refresh_token (APP_KEY E)) ;;;
  ret {| oauth2_refresh_token := refresh_token; app_key := APP_KEY E;
         path_root := None |}.

(** The client the calls go through, for the chosen root. *)
Definition choose_root (dbx : Dropbox) (use_team_root : bool) : M Dropbox :=
  if use_team_root then
    root_namespace_id <- dbx_users_get_current_account dbx ;;
    ret (with_path_root dbx
           {| pr_tag := "root"; pr_value := root_namespace_id |})
  else ret dbx.

Definition big_download_directory (fuel : nat)
    (dropbox_path local_dir : string) (interactive use_team_root : bool)
    : M (Z * Z) :=
  refresh_token <- cached_refresh_token interactive ;;
  dbx <- new_dropbox refresh_token ;;
  try_except
    (dbx <- choose_root dbx use_team_root ;;
     download_folder fuel dbx dropbox_path local_dir)
    is_Exception
    (fun ex => raise ex).

(** *** [big_file_upload] *)

Definition big_file_upload (source destination : string)
    (interactive use_team_root : bool) (password : option string)
    (expiration : option Z) (autorename : bool) : M return_struct :=
  refresh_token <- cached_refresh_token interactive ;;
  dbx <- new_dropbox refresh_token ;;
  try_except
    (dbx <- choose_root dbx use_team_root ;;
     uploaded_path <- upload source destination dbx autorename ;;
     if truthy password then
       let shared_link_settings :=
         {| require_password := true;
            link_password := default EmptyString password;
            allow_download := true;
            expires := expiration;
            audience := LinkAudience_public |} in
       time_sleep 10 ;;;
       shared_link_url <-
         dbx_sharing_create_shared_link_with_settings dbx uploaded_path
           shared_link_settings ;;
       ret {| url := Some shared_link_url;
              dropbox_path := Some uploaded_path |}
     else ret {| url := None; dropbox_path := Some uploaded_path |})
    is_Exception
    (fun ex => raise ex).

(** *** [zip_folder] and [generate_password] *)

(** The archive [zipfile] writes is the environment's; the file is
    created first (mode ['x']). *)
Definition zip_folder (folder_path output_path : string) : M unit :=
  exists_already <- os_path_exists output_path ;;
  if exists_already : bool then raise (Exception FileExistsError)
  else
    open_w output_path ;;;
    tr <- get_trace ;;
    emit (EZip folder_path output_path) ;;;
    archive <- answer (zip_archive E tr folder_path) ;;
    set_file output_path archive.

(** [secrets.choice(seq)] *)
Definition secrets_choice (seq : string) : M ascii :=
  tr <- get_trace ;;
  emit (ERandom (String.length seq)) ;;;
  match String.get (randbelow E tr (String.length seq)
                    mod String.length seq)%nat seq with
  | Some c => ret c
  | None => raise (Exception IndexError)
  end.

(** [''.join(secrets.choice(alphabet).lower() for i in range(n))] *)
Fixpoint random_lower_hex (n : nat) : M string :=
  match n with
  | O => ret EmptyString
  | S n' =>
      c <- secrets_choice hexdigits ;;
      rest <- random_lower_hex n' ;;
      ret (String (Str.lower_char c) rest)
  end.

Definition generate_password : M string := random_lower_hex 12.

(** *** The main program *)

(** [datetime.today() + timedelta(days=days)], as a day. Both the
    construction of the difference and the sum raise [OverflowError]
    outside their ranges. *)
Definition expiration_after (days : Z) : M Z :=
  tr <- get_trace ;;
  let today := clock_today E tr in
  if (Z.abs days <=? MAX_DELTA_DAYS) && (1 <=? today + days)
     && (today + days <=? MAX_ORDINAL)
  then ret (today + days)
  else raise (Exception OverflowError).

(** The [if args.zip:] block: the path of the archive, the password and
    the expiration date the rest of the program goes on with. *)
Definition main_zip (args : Args) : M (string * option string * option Z) :=
  let dropbox_input_path := source args in
  let output_path :=
    if truthy (zip_file_path args)
    then os_path_abspath E (default EmptyString (zip_file_path args))
    else
      let zip_filename := path_stem E dropbox_input_path in
      let zip_filename :=
        if Str.is_empty zip_filename then cwd_basename E else zip_filename in
      os_path_abspath E ("./" +:+ zip_filename +:+ ".zip") in
  output_exists <- os_path_exists output_path ;;
  if output_exists : bool then raise (Exception FileExistsError)
  else
    input_exists <- os_path_exists dropbox_input_path ;;
    if negb input_exists then raise (Exception FileNotFoundError)
    else
      zip_folder dropbox_input_path output_path ;;;
      password <-
        (if negb (truthy (password args))
         then generate_password
         else ret (default EmptyString (password args))) ;;
      expiration_date <- expiration_after (expiration_days args) ;;
      ret (output_path, Some password, Some expiration_date).

(** The [if args.zip:] block at the end: the report. With [-z] the
    password is never empty and the expiration date is set, so after an
    upload that returned there is a link; the other cases are kept as
    Python would run them: [None.isoformat] raises [AttributeError], and a
    link that is [None] comes back from the conversion as [bytes], which
    [json.dumps] refuses with [TypeError]. *)
Definition main_report (args : Args) (dropbox_input_path : string)
    (password : option string) (expiration_date : option Z)
    (upload_return : return_struct) : M unit :=
  download_only_url <-
    match url upload_return with
    | Some the_url =>
        match convert_dropbox_url_into_download_only the_url with
        | Urllib.Returns r => ret (Some r)
        | Urllib.RaisesValueError => raise (Exception ValueError)
        | Urllib.Unmodelled => out_of_fuel
        end
    | None => ret None
    end ;;
  expiration <-
    match expiration_date with
    | Some d => ret d
    | None => raise (Exception (OtherError "AttributeError"))
    end ;;
  size <- os_path_getsize dropbox_input_path ;;
  let output_json (the_url : string) :=
    {| report_url := the_url;
       report_password := default EmptyString password;
       report_expiration_date := expiration;
       report_size := size;
       report_source := os_path_abspath E (source args);
       report_dropbox_path := dropbox_path upload_return |} in
  (if negb (Str.is_empty (output args)) then open_w (output args)
   else ret tt) ;;;
  match download_only_url with
  | Some the_url =>
      if negb (Str.is_empty (output args))
      then fp_write (output args) (json_dumps E (output_json the_url))
      else ret tt
  | None => raise (Exception TypeError)
  end.

Definition main (args : Args) : M unit :=
  if authenticate args then
    get_refresh_token true ;;;
    sys_exit 0
  else
    (if Str.is_empty (source args) then raise (Exception ValueError)
     else
       source_exists <- os_path_exists (source args) ;;
       if negb source_exists then raise (Exception ValueError)
       else ret tt) ;;;
    (if Str.is_empty (destination args) then raise (Exception ValueError)
     else ret tt) ;;;
    let use_team_root :=
      match root args with root_team => true | root_user => false end in
    prepared <-
      (if zip args then main_zip args
       else ret (source args, password args, None)) ;;
    let '(dropbox_input_path, password, expiration_date) := prepared in
    upload_return <-
      try_except
        (big_file_upload dropbox_input_path (destination args) true
           use_team_root password expiration_date (auto_rename args))
        is_Exception
        (fun e => sys_exit 42) ;;
    if zip args then
      main_report args dropbox_input_path password expiration_date
        upload_return
    else ret tt.

(** The exit status of the process for a run of the main program:
    [sys.exit(code)] gives [code], an exception nobody caught gives 1
    (the interpreter prints the traceback), running to the end gives 0.
    A run the model does not follow to its end has none. *)
Definition exit_status {A} (r : Res A) : option Z :=
  match r with
  | Ok _ => Some 0
  | Raise (SystemExit code) => Some code
  | Raise (Exception _) => Some 1
  | OutOfFuel => None
  end.

End Program.

(** ** Vocabulary for statements about upload sessions *)

(** The bytes a call carries. *)
Definition call_payload (c : ApiCall) : bytes :=
  match c with
  | files_upload f _ _ _ => f
  | files_upload_session_start f => f
  | files_upload_session_append f _ _ => f
  | files_upload_session_finish f _ _ => f
  | _ => []
  end.

(** The offset an append or a finish call announces to the server. *)
Definition call_offset (c : ApiCall) : option Z :=
  match c with
  | files_upload_session_append _ _ off => Some off
  | files_upload_session_finish _ cur _ => Some (offset cur)
  | _ => None
  end.

Definition is_finish (c : ApiCall) : bool :=
  match c with files_upload_session_finish _ _ _ => true | _ => false end.

Definition is_append (c : ApiCall) : bool :=
  match c with files_upload_session_append _ _ _ => true | _ => false end.

(** The calls of all earlier rounds carried [sent] bytes; the bytes
    [rest] are left. A well sequenced session sends [rest] in pieces of
    [chunk_size] bytes by append calls, then the last piece (not empty,
    at most [chunk_size] bytes) by one finish call, and announces in
    every call the number of bytes sent before it. *)
Inductive session_calls (chunk_size : Z) (sid : string)
    (commit : CommitInfo) : Z -> bytes -> list ApiCall -> Prop :=
  | session_finish sent rest :
      0 < Z.of_nat (length rest) <= chunk_size ->
      session_calls chunk_size sid commit sent rest
        [files_upload_session_finish rest
           {| session_id := sid; offset := sent |} commit]
  | session_append sent rest calls :
      chunk_size < Z.of_nat (length rest) ->
      session_calls chunk_size sid commit
        (sent + Z.of_nat (length (take (Z.to_nat chunk_size) rest)))
        (drop (Z.to_nat chunk_size) rest) calls ->
      session_calls chunk_size sid commit sent rest
        (files_upload_session_append (take (Z.to_nat chunk_size) rest)
           sid sent :: calls).

(** The least [q] with [a <= q * b], for positive [b]. *)
Definition ceil_div (a b : Z) : Z := (a + b - 1) / b.

(** A remote end that accepts every call of an upload session. *)
Definition accepts_sessions (E : Env) : Prop :=
  (forall tr dbx f, exists sid,
      srv_files_upload_session_start E tr dbx f = inr sid) /\
  (forall tr dbx f sid off,
      srv_files_upload_session_append E tr dbx f sid off = inr tt) /\
  (forall tr dbx f cur commit, exists m,
      srv_files_upload_session_finish E tr dbx f cur commit = inr m).

(** ** A sample environment

    A remote end that accepts everything, an operator who pastes the code
    ["code"], a random generator that always draws [0]. It serves as the
    concrete instance on which the general statements are exercised. *)
Definition sample_tokens : OAuth2FlowNoRedirectResult :=
  {| access_token := "sl.ACCESS"; rt_refresh_token := "REFRESH-TOKEN_1";
     account_id := "dbid:AAH4f99T0taONIb-OurWxbNQ6ywGRopQngc";
     scope := "account_info.read files.content.write";
     expires_at := "2024-06-01 12:00:00.000000" |}.

Definition sample_env : Env :=
  {| APP_KEY := "app-key";
     my_config_file := "/home/user/.dropbox.cfg";
     srv_users_get_current_account := fun _ _ => inr "ns:1";
     srv_files_upload :=
       fun _ _ _ path _ _ => inr (FileMetadata path path path);
     srv_files_upload_session_start := fun _ _ _ => inr "session-1";
     srv_files_upload_session_append := fun _ _ _ _ _ => inr tt;
     srv_files_upload_session_finish :=
       fun _ _ _ _ commit =>
         inr (FileMetadata (ci_path commit) (ci_path commit)
                (ci_path commit));
     srv_files_list_folder :=
       fun _ _ _ => inr {| entries := []; cursor := ""; has_more := false |};
     srv_files_list_folder_continue :=
       fun _ _ _ => inr {| entries := []; cursor := ""; has_more := false |};
     srv_files_download :=
       fun _ _ path => inr (FileMetadata path path path, []);
     srv_sharing_create_shared_link_with_settings :=
       fun _ _ path _ =>
         inr ("https://www.dropbox.com/scl/fi/abc" +:+ path
              +:+ "?rlkey=k1&dl=0");
     dropbox_init := fun _ _ => inr tt;
     auth_flow_start := fun _ => "https://www.dropbox.com/oauth2/authorize";
     stdin_readline := fun _ => inr "code";
     auth_flow_finish := fun _ _ => inr sample_tokens;
     randbelow := fun _ _ => 0%nat;
     zip_archive := fun _ _ => inr [];
     file_writable := fun _ => true;
     clock_today := fun _ => 739000;
     os_path_abspath := fun p => p;
     path_stem := fun p => p;
     cwd_basename := "work";
     json_dumps := fun r => report_url r +:+ " " +:+ report_password r |}.

Definition sample_dbx : Dropbox :=
  {| oauth2_refresh_token := "REFRESH-TOKEN_1"; app_key := "app-key";
     path_root := None |}.

(** A world whose only file, [path], holds [content]. *)
Definition world_with_file (path : string) (content : bytes) : World :=
  {| w_files := {[ path := content ]}; w_dirs := ∅;
     w_refresh_token := None; w_trace := [] |}.

(** Sample files: one byte more than a chunk, and 10 MiB. *)
Definition big_content : bytes :=
  replicate (Z.to_nat (CHUNK_SIZE + 1)) Byte.x00.

Definition ten_MiB_content : bytes :=
  replicate (Z.to_nat (10 * 1024 * 1024)) Byte.x00.

(** ** Vocabulary for statements about traces *)

(** Every run of [m] only adds actions to the trace, and each action it
    adds satisfies [P]. *)
Definition emits {A} (P : Event -> Prop) (m : M A) : Prop :=
  forall w, exists new,
    w_trace (m w).2 = w_trace w ++ new /\ Forall P new.

Definition is_share_call (ev : Event) : bool :=
  match ev with
  | EApi _ (sharing_create_shared_link_with_settings _ _) => true
  | _ => false
  end.

Definition is_listing_call (ev : Event) : bool :=
  match ev with
  | EApi _ (files_list_folder _) => true
  | EApi _ (files_list_folder_continue _) => true
  | _ => false
  end.

(** The format of a generated password: twelve characters, each a
    decimal digit or a letter from [a] to [f]. *)
Definition lower_hex_digit (c : ascii) : bool :=
  Str.contains c "0123456789abcdef".

Definition password_format (pw : string) : Prop :=
  String.length pw = 12%nat /\ Str.forallb lower_hex_digit pw = true.

(** How a run failed, if it did: [Some (Some e)] with the exception [e],
    [Some None] when the model ran out of fuel. *)
Definition failure_of {A} (r : Res A) : option (option exn) :=
  match r with
  | Ok _ => None
  | Raise e => Some (Some e)
  | OutOfFuel => Some None
  end.

(** Every failure of [m] satisfies [Q]. *)
Definition fails_only {A} (Q : option exn -> Prop) (m : M A) : Prop :=
  forall w f, failure_of (m w).1 = Some f -> Q f.

(** A failure that is not [SystemExit] with a code other than 42. *)
Definition exit_only_42 (f : option exn) : Prop :=
  match f with
  | Some (SystemExit code) => code = 42
  | _ => True
  end.

(** A failure that is not [SystemExit] with a code other than 0 or 42. *)
Definition exit_only_0_or_42 (f : option exn) : Prop :=
  match f with
  | Some (SystemExit code) => code = 0 \/ code = 42
  | _ => True
  end.

(** Every run of [m] changes nothing in the world but the trace, to which
    it adds actions satisfying [P]. *)
Definition traces {A} (P : Event -> Prop) (m : M A) : Prop :=
  forall w, exists new, (m w).2 = add_events w new /\ Forall P new.

Definition is_upload_call (ev : Event) : bool :=
  match ev with
  | EApi _ (files_upload _ _ _ _)
  | EApi _ (files_upload_session_start _)
  | EApi _ (files_upload_session_append _ _ _)
  | EApi _ (files_upload_session_finish _ _ _) => true
  | _ => false
  end.

Definition is_login_event (ev : Event) : bool :=
  match ev with
  | EAuthStart | EPrint _ | EInput _ | EAuthFinish _ => true
  | _ => false
  end.

Definition is_account_call (ev : Event) : bool :=
  match ev with
  | EApi _ users_get_current_account => true
  | _ => false
  end.

(** ** Vocabulary for statements about folder listings *)

Definition is_folder_entry (m : Metadata) : bool :=
  match m with FolderMetadata _ _ _ => true | _ => false end.

Definition is_file_entry (m : Metadata) : bool :=
  match m with FileMetadata _ _ _ => true | _ => false end.

Definition entry_name (m : Metadata) : string :=
  match m with
  | FileMetadata n _ _ | FolderMetadata n _ _ | DeletedMetadata n _ _ => n
  end.

Definition entry_path_lower (m : Metadata) : string :=
  match m with
  | FileMetadata _ p _ | FolderMetadata _ p _ | DeletedMetadata _ p _ => p
  end.

(** After the page [p] the server hands out the pages [rest], one per
    continuation call, and [has_more] is set on all pages but the last. *)
Fixpoint served_after (E : Env) (p : ListFolderResult)
    (rest : list ListFolderResult) : Prop :=
  match rest with
  | [] => has_more p = false
  | q :: rest' =>
      has_more p = true /\
      (forall tr dbx,
          srv_files_list_folder_continue E tr dbx (cursor p) = inr q) /\
      served_after E q rest'
  end.

(** The listing of [folder] consists of the pages [pages]. *)
Definition serves_pages (E : Env) (folder : string)
    (pages : list ListFolderResult) : Prop :=
  match pages with
  | [] => False
  | p :: rest =>
      (forall tr dbx, srv_files_list_folder E tr dbx folder = inr p) /\
      served_after E p rest
  end.

(** The download calls for the file entries of a page, in order. *)
Definition download_calls (dbx : Dropbox) (l : list Metadata) : Trace :=
  List.map (fun m => EApi dbx (files_download (entry_path_lower m)))
    (List.filter is_file_entry l).

(** The calls for a listing of several pages: the listing call that
    fetches a page, the downloads of its files, then the same for the
    next page, fetched with the cursor of this one. *)
Fixpoint listing_events (dbx : Dropbox) (call : ApiCall)
    (pages : list ListFolderResult) : Trace :=
  match pages with
  | [] => []
  | p :: rest =>
      EApi dbx call
      :: download_calls dbx (entries p)
      ++ listing_events dbx (files_list_folder_continue (cursor p)) rest
  end.

(** A sample listing of three pages. *)
Definition page1 : ListFolderResult :=
  {| entries := [FileMetadata "a.txt" "/in/a.txt" "/In/a.txt";
                 FileMetadata "b.txt" "/in/b.txt" "/In/b.txt"];
     cursor := "c1"; has_more := true |}.

Definition page2 : ListFolderResult :=
  {| entries := [DeletedMetadata "old" "/in/old" "/In/old";
                 FileMetadata "c.txt" "/in/c.txt" "/In/c.txt"];
     cursor := "c2"; has_more := true |}.

Definition page3 : ListFolderResult :=
  {| entries := [FileMetadata "d.txt" "/in/d.txt" "/In/d.txt"];
     cursor := "c3"; has_more := false |}.

Definition paging_env : Env :=
  {| APP_KEY := APP_KEY sample_env;
     my_config_file := my_config_file sample_env;
     srv_users_get_current_account :=
       srv_users_get_current_account sample_env;
     srv_files_upload := srv_files_upload sample_env;
     srv_files_upload_session_start :=
       srv_files_upload_session_start sample_env;
     srv_files_upload_session_append :=
       srv_files_upload_session_append sample_env;
     srv_files_upload_session_finish :=
       srv_files_upload_session_finish sample_env;
     srv_files_list_folder := fun _ _ _ => inr page1;
     srv_files_list_folder_continue :=
       fun _ _ cur => if Str.eqb cur "c1" then inr page2 else inr page3;
     srv_files_download := srv_files_download sample_env;
     srv_sharing_create_shared_link_with_settings :=
       srv_sharing_create_shared_link_with_settings sample_env;
     dropbox_init := dropbox_init sample_env;
     auth_flow_start := auth_flow_start sample_env;
     stdin_readline := stdin_readline sample_env;
     auth_flow_finish := auth_flow_finish sample_env;
     randbelow := randbelow sample_env;
     zip_archive := zip_archive sample_env;
     file_writable := file_writable sample_env;
     clock_today := clock_today sample_env;
     os_path_abspath := os_path_abspath sample_env;
     path_stem := path_stem sample_env;
     cwd_basename := cwd_basename sample_env;
     json_dumps := json_dumps sample_env |}.

Definition empty_world : World :=
  {| w_files := ∅; w_dirs := ∅; w_refresh_token := None; w_trace := [] |}.

(** The remote end delivers every file, and every local path may be
    written. *)
Definition downloads_succeed (E : Env) : Prop :=
  (forall tr dbx path, exists res,
      srv_files_download E tr dbx path = inr res) /\
  (forall path, file_writable E path = true).

(** The entries of the pages are files or deleted entries, and no file
    would be written where a directory of [dirs] stands. *)
Definition plain_entries (local_dir : string) (dirs : gset string)
    (l : list Metadata) : Prop :=
  Forall (fun m =>
            is_folder_entry m = false /\
            (is_file_entry m = true ->
             os_path_join local_dir (entry_name m) ∉ dirs)) l.

Definition count_files (l : list Metadata) : Z :=
  Z.of_nat (length (List.filter is_file_entry l)).

(** ** Further vocabulary *)

(** A call that commits a file to Dropbox: the single write call, or the
    finish call of an upload session. *)
Definition is_commit (c : ApiCall) : bool :=
  match c with
  | files_upload _ _ _ _ | files_upload_session_finish _ _ _ => true
  | _ => false
  end.

(** What the calls of [upload] may name: every call goes through the
    client [dbx], and a call that commits names the target path, the
    write mode [add] and the given [autorename]. *)
Definition upload_call_for (dbx : Dropbox) (target_path : string)
    (autorename : bool) (ev : Event) : Prop :=
  match ev with
  | EApi d (files_upload _ p m ar) =>
      d = dbx /\ p = target_path /\ m = WriteMode_add /\ ar = autorename
  | EApi d (files_upload_session_start _) => d = dbx
  | EApi d (files_upload_session_append _ _ _) => d = dbx
  | EApi d (files_upload_session_finish _ _ c) =>
      d = dbx /\ ci_path c = target_path /\ ci_mode c = WriteMode_add /\
      ci_autorename c = autorename
  | _ => False
  end.

(** The sample environment with a remote end that refuses to write (the
    single write call and the append calls of a session), to list and to
    deliver files, an OAuth exchange that rejects the pasted code, and an
    operator who types spaces around the code. *)
Definition refusing_env : Env :=
  {| APP_KEY := APP_KEY sample_env;
     my_config_file := my_config_file sample_env;
     srv_users_get_current_account :=
       srv_users_get_current_account sample_env;
     srv_files_upload := fun _ _ _ _ _ _ => inl ApiError;
     srv_files_upload_session_start :=
       srv_files_upload_session_start sample_env;
     srv_files_upload_session_append := fun _ _ _ _ _ => inl ApiError;
     srv_files_upload_session_finish :=
       srv_files_upload_session_finish sample_env;
     srv_files_list_folder := fun _ _ _ => inl ApiError;
     srv_files_list_folder_continue :=
       srv_files_list_folder_continue sample_env;
     srv_files_download := fun _ _ _ => inl ApiError;
     srv_sharing_create_shared_link_with_settings :=
       srv_sharing_create_shared_link_with_settings sample_env;
     dropbox_init := dropbox_init sample_env;
     auth_flow_start := auth_flow_start sample_env;
     stdin_readline := fun _ => inr "  code  ";
     auth_flow_finish := fun _ _ => inl RuntimeError;
     randbelow := randbelow sample_env;
     zip_archive := zip_archive sample_env;
     file_writable := file_writable sample_env;
     clock_today := clock_today sample_env;
     os_path_abspath := os_path_abspath sample_env;
     path_stem := path_stem sample_env;
     cwd_basename := cwd_basename sample_env;
     json_dumps := json_dumps sample_env |}.

(** The settings [big_file_upload] requests a shared link with. *)
Definition link_settings (password : option string) (expiration : option Z)
    : SharedLinkSettings :=
  {| require_password := true;
     link_password := default EmptyString password;
     allow_download := true;
     expires := expiration;
     audience := LinkAudience_public |}.

(** The client [dropbox.Dropbox(oauth2_refresh_token=..., app_key=APP_KEY)]
    before a path root is chosen. *)
Definition plain_client (E : Env) (refresh_token : string) : Dropbox :=
  {| oauth2_refresh_token := refresh_token; app_key := APP_KEY E;
     path_root := None |}.

(** How the client of a call is rooted: the call that asks for the
    account goes through the plain client; every other call through a
    client rooted at a namespace when the team root is used, and through
    the plain client otherwise. *)
Definition rooted_as (use_team_root : bool) (d : Dropbox) (c : ApiCall)
    : Prop :=
  match c with
  | users_get_current_account => use_team_root = true /\ path_root d = None
  | _ =>
      if use_team_root
      then exists ns,
             path_root d = Some {| pr_tag := "root"; pr_value := ns |}
      else path_root d = None
  end.

(** An action other than a request to the servers, or a request made
    with the refresh token [tok] and the application key, rooted as
    asked. *)
Definition call_as (E : Env) (tok : string) (use_team_root : bool)
    (ev : Event) : Prop :=
  match ev with
  | EApi d c =>
      oauth2_refresh_token d = tok /\ app_key d = APP_KEY E /\
      rooted_as use_team_root d c
  | _ => True
  end.

Definition is_api_event (ev : Event) : bool :=
  match ev with EApi _ _ => true | _ => false end.

(** The actions of a download: those of the login, the request for the
    account, the listing calls and the download calls. *)
Definition is_download_event (ev : Event) : bool :=
  match ev with
  | EAuthStart | EPrint _ | EInput _ | EAuthFinish _ => true
  | EApi _ users_get_current_account
  | EApi _ (files_list_folder _)
  | EApi _ (files_list_folder_continue _)
  | EApi _ (files_download _) => true
  | _ => false
  end.

(** The path of the archive the main program makes with [-z]: the one
    given with [-zfp], or [./<stem of the source>.zip] (with the name of
    the current directory when the stem is empty), made absolute. *)
Definition archive_path (E : Env) (args : Args) : string :=
  if truthy (zip_file_path args)
  then os_path_abspath E (default EmptyString (zip_file_path args))
  else
    let zip_filename := path_stem E (source args) in
    let zip_filename :=
      if Str.is_empty zip_filename then cwd_basename E else zip_filename in
    os_path_abspath E ("./" +:+ zip_filename +:+ ".zip").

(** [args.root == 'team'] *)
Definition use_team_root_of (args : Args) : bool :=
  match root args with root_team => true | root_user => false end.

(** Something stands at [path]: a regular file or a directory. *)
Definition path_exists (w : World) (path : string) : bool :=
  bool_decide (is_Some (w_files w !! path))
  || bool_decide (path ∈ w_dirs w).

(** The arguments of a plain upload of [source] to [destination], and
    variations of them. *)
Definition upload_args (source destination : string) : Args :=
  {| source := source; destination := destination; authenticate := false;
     auto_rename := false; zip := false; password := None;
     expiration_days := 14; zip_file_path := None; output := EmptyString;
     root := root_team |}.

Definition authenticate_args : Args :=
  {| source := EmptyString; destination := EmptyString;
     authenticate := true; auto_rename := false; zip := false;
     password := None; expiration_days := 14; zip_file_path := None;
     output := EmptyString; root := root_team |}.

Definition zip_args (source destination output : string) : Args :=
  {| source := source; destination := destination; authenticate := false;
     auto_rename := true; zip := true; password := None;
     expiration_days := 14; zip_file_path := None; output := output;
     root := root_team |}.


(** * Properties *)

(** Boolean comparisons on [Z] in the hypotheses, as propositions. *)
Ltac zbool :=
  repeat match goal with
    | H : (_ <? _) = true |- _ => apply Z.ltb_lt in H
    | H : (_ <? _) = false |- _ => apply Z.ltb_ge in H
    | H : (_ <=? _) = true |- _ => apply Z.leb_le in H
    | H : (_ <=? _) = false |- _ => apply Z.leb_gt in H
    | H : (_ =? _) = true |- _ => apply Z.eqb_eq in H
    | H : (_ =? _) = false |- _ => apply Z.eqb_neq in H
    end.

(** ** The monad *)

Lemma bind_ok {A B} (m : M A) (k : A -> M B) w a w' :
  m w = (Ok a, w') -> bind m k w = k a w'.
Proof. intros H. unfold bind. by rewrite H. Qed.

Lemma bind_raise {A B} (m : M A) (k : A -> M B) w e w' :
  m w = (Raise e, w') -> bind m k w = (Raise e, w').
Proof. intros H. unfold bind. by rewrite H. Qed.

Lemma add_events_nil w : add_events w [] = w.
Proof. destruct w. unfold add_events. simpl. by rewrite app_nil_r. Qed.

Lemma add_events_app w l1 l2 :
  add_events (add_events w l1) l2 = add_events w (l1 ++ l2).
Proof. unfold add_events. simpl. by rewrite app_assoc. Qed.

Lemma api_ok {A} dbx c (srv : Trace -> Dropbox -> exn_class + A) w a :
  srv (w_trace w) dbx = inr a ->
  api dbx c srv w = (Ok a, add_events w [EApi dbx c]).
Proof. intros H. unfold api, bind, get_trace, emit, answer. by rewrite H. Qed.

Lemma api_raise {A} dbx c (srv : Trace -> Dropbox -> exn_class + A) w e :
  srv (w_trace w) dbx = inl e ->
  api dbx c srv w = (Raise (Exception e), add_events w [EApi dbx c]).
Proof. intros H. unfold api, bind, get_trace, emit, answer. by rewrite H. Qed.

(** *** What a computation adds to the trace *)

Lemma emits_mono {A} (P Q : Event -> Prop) (m : M A) :
  (forall ev, P ev -> Q ev) -> emits P m -> emits Q m.
Proof.
  intros HPQ Hm w. destruct (Hm w) as (new & Htr & Hall).
  exists new. split; [done|]. eapply Forall_impl; eauto.
Qed.

Lemma emits_ret {A} P (a : A) : emits P (ret a).
Proof. intros w. exists []. simpl. by rewrite app_nil_r. Qed.

Lemma emits_raise {A} P e : emits P (@raise A e).
Proof. intros w. exists []. simpl. by rewrite app_nil_r. Qed.

Lemma emits_out_of_fuel {A} P : emits P (@out_of_fuel A).
Proof. intros w. exists []. simpl. by rewrite app_nil_r. Qed.

Lemma emits_bind {A B} P (m : M A) (k : A -> M B) :
  emits P m -> (forall a, emits P (k a)) -> emits P (bind m k).
Proof.
  intros Hm Hk w. unfold bind.
  destruct (Hm w) as (new1 & Htr1 & Hall1).
  destruct (m w) as [[a|e|] w1]; simpl in *.
  - destruct (Hk a w1) as (new2 & Htr2 & Hall2).
    exists (new1 ++ new2). rewrite Htr2, Htr1, app_assoc.
    split; [done|]. by apply Forall_app.
  - by exists new1.
  - by exists new1.
Qed.

Lemma emits_try_except {A} P (m : M A) catches handler :
  emits P m -> (forall e, emits P (handler e)) ->
  emits P (try_except m catches handler).
Proof.
  intros Hm Hh w. unfold try_except.
  destruct (Hm w) as (new1 & Htr1 & Hall1).
  destruct (m w) as [[a|e|] w1]; simpl in *; [by exists new1| |by exists new1].
  destruct (catches e); [|by exists new1].
  destruct (Hh e w1) as (new2 & Htr2 & Hall2).
  exists (new1 ++ new2). rewrite Htr2, Htr1, app_assoc.
  split; [done|]. by apply Forall_app.
Qed.

Lemma emits_emit (P : Event -> Prop) ev : P ev -> emits P (emit ev).
Proof. intros H w. exists [ev]. simpl. split; [done|]. by constructor. Qed.

(** A computation that leaves the trace alone. *)
Lemma emits_silent {A} P (m : M A) :
  (forall w, w_trace (m w).2 = w_trace w) -> emits P m.
Proof. intros H w. exists []. rewrite H, app_nil_r. done. Qed.

Lemma emits_answer {A} P (r : exn_class + A) : emits P (answer r).
Proof. destruct r; [apply emits_raise|apply emits_ret]. Qed.

Lemma emits_get_trace P : emits P get_trace.
Proof. by apply emits_silent. Qed.

Lemma emits_api {A} (P : Event -> Prop) dbx c
    (srv : Trace -> Dropbox -> exn_class + A) :
  P (EApi dbx c) -> emits P (api dbx c srv).
Proof.
  intros H. unfold api. apply emits_bind; [apply emits_get_trace|].
  intros tr. apply emits_bind; [by apply emits_emit|].
  intros _. apply emits_answer.
Qed.

Example upload_small_file :
  upload sample_env "a.bin" "/dst/a.bin" sample_dbx false
    (world_with_file "a.bin" [Byte.x01; Byte.x02])
  = (Ok "/dst/a.bin",
     add_events (world_with_file "a.bin" [Byte.x01; Byte.x02])
       [EApi sample_dbx
          (files_upload [Byte.x01; Byte.x02] "/dst/a.bin" WriteMode_add
             false)]).
Proof. reflexivity. Qed.

Example upload_with_chunk_4_file_10 :
  let c := [Byte.x00; Byte.x01; Byte.x02; Byte.x03; Byte.x04; Byte.x05;
            Byte.x06; Byte.x07; Byte.x08; Byte.x09] in
  let commit := {| ci_path := "/dst/a.bin"; ci_mode := WriteMode_add;
                   ci_autorename := true |} in
  upload_with sample_env 4 "a.bin" "/dst/a.bin" sample_dbx true
    (world_with_file "a.bin" c)
  = (Ok "/dst/a.bin",
     add_events (world_with_file "a.bin" c)
       (map (EApi sample_dbx)
          [files_upload_session_start
             [Byte.x00; Byte.x01; Byte.x02; Byte.x03];
           files_upload_session_append
             [Byte.x04; Byte.x05; Byte.x06; Byte.x07] "session-1" 4;
           files_upload_session_finish [Byte.x08; Byte.x09]
             {| session_id := "session-1"; offset := 8 |} commit])).
Proof. reflexivity. Qed.

(** ** Upload sessions *)

Lemma ceil_div_small a b : 0 < a <= b -> ceil_div a b = 1.
Proof.
  intros H. unfold ceil_div. symmetry.
  apply (Z.div_unique_pos _ _ 1 (a - 1)); lia.
Qed.

Lemma ceil_div_step a b : 0 < b -> ceil_div (a + b) b = 1 + ceil_div a b.
Proof.
  intros H. unfold ceil_div.
  replace (a + b + b - 1) with (a + b - 1 + 1 * b) by lia.
  rewrite Z.div_add by lia. lia.
Qed.

(** [ceil_div] is the ceiling of the quotient. *)
Lemma ceil_div_spec a b :
  0 < b -> (ceil_div a b - 1) * b < a <= ceil_div a b * b.
Proof.
  intros H. unfold ceil_div.
  pose proof (Z.div_mod (a + b - 1) b ltac:(lia)) as Hd.
  pose proof (Z.mod_pos_bound (a + b - 1) b H) as Hm. nia.
Qed.

Section Session.

Context (chunk_size : Z) (sid : string) (commit : CommitInfo).
Hypothesis chunk_pos : 0 < chunk_size.

Lemma take_chunk_length (rest : bytes) :
  chunk_size < Z.of_nat (length rest) ->
  Z.of_nat (length (take (Z.to_nat chunk_size) rest)) = chunk_size.
Proof. intros H. rewrite length_take. lia. Qed.

Lemma session_calls_payloads sent rest calls :
  session_calls chunk_size sid commit sent rest calls ->
  concat (map call_payload calls) = rest.
Proof.
  induction 1 as [sent rest _|sent rest calls _ _ IH]; simpl.
  - by rewrite app_nil_r.
  - rewrite IH. apply take_drop.
Qed.

Lemma session_calls_count sent rest calls :
  session_calls chunk_size sid commit sent rest calls ->
  Z.of_nat (length calls) = ceil_div (Z.of_nat (length rest)) chunk_size.
Proof.
  induction 1 as [sent rest Hr|sent rest calls Hr _ IH]; simpl length.
  - by rewrite ceil_div_small.
  - rewrite Nat2Z.inj_succ, IH, length_drop.
    replace (Z.of_nat (length rest))
      with (Z.of_nat (length rest - Z.to_nat chunk_size) + chunk_size)
      by lia.
    rewrite ceil_div_step by done. lia.
Qed.

Lemma session_calls_nonempty sent rest calls :
  session_calls chunk_size sid commit sent rest calls -> calls <> [].
Proof. by destruct 1. Qed.

(** The last call is the finish call; what comes before are appends. *)
Lemma session_calls_last sent rest calls :
  session_calls chunk_size sid commit sent rest calls ->
  exists appends d off,
    calls = appends ++
      [files_upload_session_finish d {| session_id := sid; offset := off |}
         commit] /\
    Forall (fun c => is_append c = true) appends /\
    Z.of_nat (length d) = sent + Z.of_nat (length rest) - off /\
    0 < Z.of_nat (length d) <= chunk_size.
Proof.
  induction 1 as [sent rest Hr|sent rest calls Hr _ IH].
  - exists [], rest, sent. split; [done|]. split; [constructor|]. lia.
  - destruct IH as (appends & d & off & -> & Happ & Hd & Hle).
    eexists (_ :: appends), d, off.
    split; [reflexivity|]. split; [by constructor|]. split; [|done].
    rewrite Hd, length_drop, take_chunk_length by done. lia.
Qed.

(** Every call announces the number of bytes the calls before it sent. *)
Lemma session_calls_offsets sent rest calls :
  session_calls chunk_size sid commit sent rest calls ->
  forall i c, calls !! i = Some c ->
    call_offset c
    = Some (sent + Z.of_nat (length (concat (map call_payload (take i calls))))).
Proof.
  induction 1 as [sent rest Hr|sent rest calls Hr _ IH]; intros i c Hi.
  - destruct i as [|i]; simpl in Hi; [|by destruct i].
    inversion Hi; subst. simpl. f_equal. lia.
  - destruct i as [|i]; simpl in Hi.
    + inversion Hi; subst. simpl. f_equal. lia.
    + rewrite (IH i c Hi). simpl. f_equal. rewrite length_app. lia.
Qed.

Lemma session_calls_payload_nonempty sent rest calls :
  session_calls chunk_size sid commit sent rest calls ->
  Forall (fun c => (0 < length (call_payload c))%nat) calls.
Proof.
  induction 1 as [sent rest Hr|sent rest calls Hr _ IH].
  - constructor; [simpl; lia|constructor].
  - constructor; [|done]. simpl.
    apply take_chunk_length in Hr. lia.
Qed.

End Session.

Section UploadLoop.

Context (E : Env) (chunk_size : Z).
Hypothesis chunk_pos : 0 < chunk_size.
Hypothesis remote_ok : accepts_sessions E.

Lemma f_read_chunk (f : FileObj) :
  f_read f chunk_size
  = (take (Z.to_nat chunk_size) (drop (f_pos f) (f_content f)),
     {| f_content := f_content f;
        f_pos := (f_pos f + length (take (Z.to_nat chunk_size)
                                      (drop (f_pos f) (f_content f))))%nat |}).
Proof.
  unfold f_read. destruct (chunk_size <? 0) eqn:Hneg; [zbool; lia|done].
Qed.

(** The loop of [upload], entered with bytes left to send and a cursor
    that agrees with the read position, runs to its end within its fuel
    and issues a well sequenced series of session calls. *)
Lemma upload_loop_session fuel :
  forall dbx (f : FileObj) cur commit ap w,
    (f_pos f < length (f_content f))%nat ->
    offset cur = f_tell f ->
    (length (f_content f) - f_pos f <= fuel)%nat ->
    exists calls m,
      upload_loop E chunk_size fuel dbx (Z.of_nat (length (f_content f)))
        f cur commit ap w
      = (Ok (Some (path_display m)), add_events w (map (EApi dbx) calls)) /\
      session_calls chunk_size (session_id cur) commit (f_tell f)
        (drop (f_pos f) (f_content f)) calls.
Proof.
  destruct remote_ok as (_ & Happend & Hfinish).
  induction fuel as [|fuel IH]; intros dbx f cur commit ap w Hpos Hcur Hfuel;
    [lia|].
  destruct f as [content pos], cur as [sid off]; simpl in *.
  unfold f_tell in *; simpl in *; subst off.
  set (rest := drop pos content).
  assert (Hrest : length rest = (length content - pos)%nat)
    by (unfold rest; apply length_drop).
  destruct (Z.of_nat pos <? Z.of_nat (length content)) eqn:Hlt; [|zbool; lia].
  destruct (chunk_size <? 0) eqn:Hneg; [zbool; lia|].
  destruct (Z.of_nat (length content) - Z.of_nat pos <=? chunk_size)
    eqn:Hlast; zbool.
  - (* the finish branch *)
    assert (Htake : take (Z.to_nat chunk_size) rest = rest)
      by (apply take_ge; lia).
    rewrite Htake.
    destruct (Hfinish (w_trace w) dbx rest
                {| session_id := sid; offset := Z.of_nat pos |} commit)
      as [m Hm].
    exists [files_upload_session_finish rest
              {| session_id := sid; offset := Z.of_nat pos |} commit], m.
    split; [|constructor; lia].
    erewrite bind_ok; [|unfold dbx_files_upload_session_finish;
                        apply api_ok; exact Hm].
    destruct fuel; simpl; unfold f_tell; simpl;
      (destruct (Z.of_nat (pos + length rest) <? Z.of_nat (length content))
         eqn:Hend; [zbool; lia|done]).
  - (* the append branch *)
    assert (Hlen : Z.of_nat (length (take (Z.to_nat chunk_size) rest))
                   = chunk_size)
      by (rewrite length_take; lia).
    erewrite bind_ok; [|unfold dbx_files_upload_session_append;
                        apply api_ok; apply Happend].
    set (f' := {| f_content := content;
                  f_pos := (pos + length (take (Z.to_nat chunk_size) rest))%nat |}).
    destruct (IH dbx f' {| session_id := sid; offset := f_tell f' |} commit
                ap (add_events w
                      [EApi dbx (files_upload_session_append
                                   (take (Z.to_nat chunk_size) rest) sid
                                   (Z.of_nat pos))]))
      as (calls & m & Hrun & Hcalls).
    { simpl. lia. }
    { done. }
    { simpl. lia. }
    exists (files_upload_session_append (take (Z.to_nat chunk_size) rest)
              sid (Z.of_nat pos) :: calls), m.
    split.
    + etrans; [exact Hrun|]. by rewrite add_events_app.
    + apply session_append; [lia|].
      simpl in Hcalls. unfold f_tell in Hcalls; simpl in Hcalls.
      rewrite Nat2Z.inj_add in Hcalls.
      replace (drop (Z.to_nat chunk_size) rest)
        with (drop (pos + length (take (Z.to_nat chunk_size) rest)) content);
        [done|].
      subst rest. rewrite drop_drop. f_equal. lia.
Qed.

End UploadLoop.

(** Bytes sent by the first [i] calls of a list. *)
Lemma sent_before_mono (calls : list ApiCall) i j :
  (i <= j)%nat ->
  (length (concat (map call_payload (take i calls)))
   <= length (concat (map call_payload (take j calls))))%nat.
Proof.
  intros Hij.
  rewrite <- (take_drop i (take j calls)), take_take, Nat.min_l by done.
  rewrite map_app, concat_app, length_app. lia.
Qed.

Lemma sent_before_step (calls : list ApiCall) i c :
  calls !! i = Some c ->
  length (concat (map call_payload (take (S i) calls)))
  = (length (concat (map call_payload (take i calls)))
     + length (call_payload c))%nat.
Proof.
  intros Hi. rewrite (take_S_r _ _ _ Hi), map_app, concat_app, length_app.
  simpl. rewrite app_nil_r. done.
Qed.

Lemma sent_before_strict (calls : list ApiCall) i j :
  Forall (fun c => (0 < length (call_payload c))%nat) calls ->
  (i < j)%nat -> (i < length calls)%nat ->
  (length (concat (map call_payload (take i calls)))
   < length (concat (map call_payload (take j calls))))%nat.
Proof.
  intros Hall Hij Hi.
  destruct (lookup_lt_is_Some_2 calls i Hi) as [c Hc].
  pose proof (sent_before_step calls i c Hc) as Hstep.
  pose proof (sent_before_mono calls (S i) j ltac:(lia)) as Hmono.
  rewrite Forall_lookup in Hall. specialize (Hall i c Hc). simpl in Hall.
  lia.
Qed.

(** A session for a rest of more than one and at most two chunks is one
    append followed by the finish. *)
Lemma session_calls_two chunk_size sid commit sent rest calls :
  0 < chunk_size ->
  chunk_size < Z.of_nat (length rest) <= 2 * chunk_size ->
  session_calls chunk_size sid commit sent rest calls ->
  calls =
    [files_upload_session_append (take (Z.to_nat chunk_size) rest) sid sent;
     files_upload_session_finish (drop (Z.to_nat chunk_size) rest)
       {| session_id := sid; offset := sent + chunk_size |} commit].
Proof.
  intros Hpos Hlen Hcalls.
  inversion Hcalls as [? ? Hr|? ? calls' Hr Htail]; subst; [lia|].
  f_equal.
  rewrite take_chunk_length in Htail by done.
  inversion Htail as [? ? Hr'|? ? ? Hr' _]; subst; [done|].
  rewrite length_drop in Hr'. lia.
Qed.

Section UploadWith.

Context (E : Env) (chunk_size : Z).

Lemma upload_with_single fp tp dbx ar w c :
  w_files w !! fp = Some c ->
  Z.of_nat (length c) <= chunk_size ->
  upload_with E chunk_size fp tp dbx ar w
  = match srv_files_upload E (w_trace w) dbx c tp WriteMode_add ar with
    | inr m => (Ok (path_display m),
                add_events w
                  [EApi dbx (files_upload c tp WriteMode_add ar)])
    | inl e => (Raise (Exception e),
                add_events w
                  [EApi dbx (files_upload c tp WriteMode_add ar)])
    end.
Proof.
  intros Hfile Hsmall.
  unfold upload_with, bind at 1, open_rb. rewrite Hfile.
  unfold bind at 1, os_path_getsize. rewrite Hfile.
  destruct (Z.of_nat (length c) <=? chunk_size) eqn:Hle; [|zbool; lia].
  unfold f_read_all, f_read. simpl. rewrite drop_0.
  unfold dbx_files_upload, bind.
  destruct (srv_files_upload E (w_trace w) dbx c tp WriteMode_add ar)
    as [e|m] eqn:Hsrv.
  - by rewrite (api_raise _ _ _ _ e).
  - by rewrite (api_ok _ _ _ _ m).
Qed.

Hypothesis chunk_pos : 0 < chunk_size.
Hypothesis remote_ok : accepts_sessions E.

Lemma upload_with_session fp tp dbx ar w c :
  w_files w !! fp = Some c ->
  chunk_size < Z.of_nat (length c) ->
  exists sid calls m,
    upload_with E chunk_size fp tp dbx ar w
    = (Ok (path_display m),
       add_events w
         (map (EApi dbx)
            (files_upload_session_start (take (Z.to_nat chunk_size) c)
             :: calls))) /\
    session_calls chunk_size sid
      {| ci_path := tp; ci_mode := WriteMode_add; ci_autorename := ar |}
      chunk_size (drop (Z.to_nat chunk_size) c) calls.
Proof.
  intros Hfile Hbig.
  destruct remote_ok as (Hstart & _ & _).
  destruct (Hstart (w_trace w) dbx (take (Z.to_nat chunk_size) c))
    as [sid Hsid].
  set (f1 := {| f_content := c;
                f_pos := length (take (Z.to_nat chunk_size) c) |}).
  assert (Hf1 : f_pos f1 = Z.to_nat chunk_size)
    by (simpl; rewrite length_take; lia).
  destruct (upload_loop_session E chunk_size chunk_pos remote_ok
              (length c) dbx f1
              {| session_id := sid; offset := f_tell f1 |}
              {| ci_path := tp; ci_mode := WriteMode_add;
                 ci_autorename := ar |}
              None
              (add_events w
                 [EApi dbx (files_upload_session_start
                              (take (Z.to_nat chunk_size) c))]))
    as (calls & m & Hrun & Hcalls).
  { rewrite Hf1. simpl. lia. }
  { done. }
  { simpl. lia. }
  exists sid, calls, m. split.
  - unfold upload_with, bind at 1, open_rb. rewrite Hfile.
    unfold bind at 1, os_path_getsize. rewrite Hfile.
    destruct (Z.of_nat (length c) <=? chunk_size) eqn:Hle; [zbool; lia|].
    unfold f_read. simpl f_pos. simpl f_content. rewrite drop_0.
    destruct (chunk_size <? 0) eqn:Hneg; [zbool; lia|].
    erewrite bind_ok; [|unfold dbx_files_upload_session_start;
                        apply api_ok; exact Hsid].
    erewrite bind_ok; [|exact Hrun].
    unfold ret. by rewrite add_events_app.
  - unfold f_tell in Hcalls. simpl in Hcalls, Hf1. rewrite !Hf1 in Hcalls.
    rewrite Z2Nat.id in Hcalls by lia. done.
Qed.

End UploadWith.

Lemma CHUNK_SIZE_pos : 0 < CHUNK_SIZE.
Proof. done. Qed.

Lemma CHUNK_SIZE_value : CHUNK_SIZE = 4194304.
Proof. reflexivity. Qed.

(** From here on the chunk size is used through the two lemmas above. *)
Opaque CHUNK_SIZE.

Lemma sample_env_accepts : accepts_sessions sample_env.
Proof. repeat split; intros; simpl; eauto. Qed.

Lemma world_with_file_lookup path content :
  w_files (world_with_file path content) !! path = Some content.
Proof. apply lookup_singleton_eq. Qed.

Lemma big_content_length : Z.of_nat (length big_content) = CHUNK_SIZE + 1.
Proof.
  unfold big_content. rewrite length_replicate.
  apply Z2Nat.id. pose proof CHUNK_SIZE_pos. lia.
Qed.

Lemma ten_MiB_content_length :
  Z.of_nat (length ten_MiB_content) = 10 * 1024 * 1024.
Proof.
  unfold ten_MiB_content. rewrite length_replicate. apply Z2Nat.id. lia.
Qed.

(** C1. With [CHUNK_SIZE] = 4 MiB and a source file of [s] bytes:
    when [s <= CHUNK_SIZE] (equality included) [upload] issues exactly one
    remote call, a [files_upload] carrying the whole content; when
    [s > CHUNK_SIZE] and the remote end accepts the session calls, the
    session start is followed by exactly [ceil ((s - CHUNK_SIZE) /
    CHUNK_SIZE)] further calls, the last of which is a finish call whose
    payload has [s - offset] bytes, [offset] being the cursor's offset in
    that last round, and at most [CHUNK_SIZE] bytes. *)
Theorem upload_number_of_calls (E : Env) (w : World)
    (file_path target_path : string) (dbx : Dropbox) (autorename : bool)
    (content : bytes) :
  w_files w !! file_path = Some content ->
  (Z.of_nat (length content) <= CHUNK_SIZE ->
   w_trace (upload E file_path target_path dbx autorename w).2
   = w_trace w
     ++ [EApi dbx (files_upload content target_path WriteMode_add
                     autorename)]) /\
  (CHUNK_SIZE < Z.of_nat (length content) -> accepts_sessions E ->
   exists further d cur commit p w',
     upload E file_path target_path dbx autorename w = (Ok p, w') /\
     w_trace w'
     = w_trace w
       ++ EApi dbx (files_upload_session_start
                      (take (Z.to_nat CHUNK_SIZE) content))
          :: map (EApi dbx) further /\
     Z.of_nat (length further)
     = ceil_div (Z.of_nat (length content) - CHUNK_SIZE) CHUNK_SIZE /\
     last further = Some (files_upload_session_finish d cur commit) /\
     Z.of_nat (length d) = Z.of_nat (length content) - offset cur /\
     Z.of_nat (length d) <= CHUNK_SIZE).
Proof.
  intros Hfile. split.
  - intros Hsmall. unfold upload.
    rewrite (upload_with_single E CHUNK_SIZE _ _ _ _ _ _ Hfile Hsmall).
    by destruct (srv_files_upload _ _ _ _ _ _ _).
  - intros Hbig Hacc. unfold upload.
    destruct (upload_with_session E CHUNK_SIZE CHUNK_SIZE_pos Hacc
                file_path target_path dbx autorename w content Hfile Hbig)
      as (sid & calls & m & Hrun & Hcalls).
    destruct (session_calls_last _ _ _ CHUNK_SIZE_pos _ _ _ Hcalls)
      as (appends & d & off & -> & _ & Hd & Hle).
    eexists _, d, _, _, _, _. split; [exact Hrun|].
    split; [done|]. split; [|split; [apply last_snoc|]].
    + rewrite (session_calls_count _ _ _ CHUNK_SIZE_pos _ _ _ Hcalls).
      rewrite length_drop. f_equal. pose proof CHUNK_SIZE_pos. lia.
    + cbn [offset]. rewrite length_drop in Hd. pose proof CHUNK_SIZE_pos. lia.
Qed.

Lemma upload_number_of_calls_witness :
  exists further d cur commit p w',
    upload sample_env "big.bin" "/dst/big.bin" sample_dbx false
      (world_with_file "big.bin" big_content) = (Ok p, w') /\
    w_trace w'
    = w_trace (world_with_file "big.bin" big_content)
      ++ EApi sample_dbx (files_upload_session_start
                            (take (Z.to_nat CHUNK_SIZE) big_content))
         :: map (EApi sample_dbx) further /\
    Z.of_nat (length further)
    = ceil_div (Z.of_nat (length big_content) - CHUNK_SIZE) CHUNK_SIZE /\
    last further = Some (files_upload_session_finish d cur commit) /\
    Z.of_nat (length d) = Z.of_nat (length big_content) - offset cur /\
    Z.of_nat (length d) <= CHUNK_SIZE.
Proof.
  apply (upload_number_of_calls sample_env
           (world_with_file "big.bin" big_content) "big.bin" "/dst/big.bin"
           sample_dbx false big_content).
  - apply world_with_file_lookup.
  - rewrite big_content_length. lia.
  - apply sample_env_accepts.
Defined.

(** C2. In the chunked path ([s > CHUNK_SIZE], the remote end accepting
    the session calls) the payloads of the calls, in the order of the
    calls, are the file cut into consecutive pieces: concatenated they give
    the file back, so chunks go out in file order, their sizes sum to [s],
    no byte is sent twice and none is skipped. The offset passed to every
    append and to the finish call is the number of bytes sent by the calls
    before it, and offsets strictly increase. For a 10 MiB file the calls
    are a session start with 4 MiB, one append of 4 MiB at offset 4194304
    and one finish of 2 MiB at offset 8388608: three calls. *)
Theorem upload_chunks_in_file_order (E : Env) (w : World)
    (file_path target_path : string) (dbx : Dropbox) (autorename : bool)
    (content : bytes) :
  w_files w !! file_path = Some content ->
  CHUNK_SIZE < Z.of_nat (length content) ->
  accepts_sessions E ->
  exists calls p w',
    upload E file_path target_path dbx autorename w = (Ok p, w') /\
    w_trace w' = w_trace w ++ map (EApi dbx) calls /\
    concat (map call_payload calls) = content /\
    (forall i c, calls !! i = Some c -> i <> 0%nat ->
       call_offset c
       = Some (Z.of_nat
                 (length (concat (map call_payload (take i calls)))))) /\
    (forall i j ci cj oi oj,
       (i < j)%nat -> calls !! i = Some ci -> calls !! j = Some cj ->
       call_offset ci = Some oi -> call_offset cj = Some oj -> oi < oj) /\
    (Z.of_nat (length content) = 10 * 1024 * 1024 ->
     exists sid d0 d1 d2,
       calls =
         [files_upload_session_start d0;
          files_upload_session_append d1 sid 4194304;
          files_upload_session_finish d2
            {| session_id := sid; offset := 8388608 |}
            {| ci_path := target_path; ci_mode := WriteMode_add;
               ci_autorename := autorename |}] /\
       content = d0 ++ d1 ++ d2 /\
       Z.of_nat (length d0) = 4 * 1024 * 1024 /\
       Z.of_nat (length d1) = 4 * 1024 * 1024 /\
       Z.of_nat (length d2) = 2 * 1024 * 1024).
Proof.
  intros Hfile Hbig Hacc. unfold upload.
  destruct (upload_with_session E CHUNK_SIZE CHUNK_SIZE_pos Hacc
              file_path target_path dbx autorename w content Hfile Hbig)
    as (sid & further & m & Hrun & Hcalls).
  pose proof CHUNK_SIZE_pos as Hpos.
  set (d0 := take (Z.to_nat CHUNK_SIZE) content) in *.
  assert (Hd0 : Z.of_nat (length d0) = CHUNK_SIZE)
    by (unfold d0; rewrite length_take; lia).
  set (calls := files_upload_session_start d0 :: further).
  assert (Hoffsets : forall i c, calls !! i = Some c -> i <> 0%nat ->
            call_offset c
            = Some (Z.of_nat
                      (length (concat (map call_payload (take i calls)))))).
  { intros [|i] c Hi Hne; [done|]. simpl in Hi.
    erewrite session_calls_offsets by eauto.
    simpl. rewrite length_app. f_equal. lia. }
  assert (Hnonempty :
            Forall (fun c => (0 < length (call_payload c))%nat) calls).
  { constructor; [simpl; lia|].
    eapply session_calls_payload_nonempty; eauto. }
  exists calls, (path_display m), (add_events w (map (EApi dbx) calls)).
  split; [exact Hrun|].
  split; [done|]. split; [|split; [exact Hoffsets|split]].
  - simpl. erewrite session_calls_payloads by eauto.
    apply take_drop.
  - intros i j ci cj oi oj Hij Hi Hj Hoi Hoj.
    destruct i as [|i]; [simpl in Hi; inversion Hi; subst; done|].
    rewrite (Hoffsets _ _ Hi) in Hoi by done.
    rewrite (Hoffsets _ _ Hj) in Hoj by lia.
    apply (inj Some) in Hoi, Hoj. subst oi oj.
    exact (proj1 (Nat2Z.inj_lt _ _)
             (sent_before_strict calls (S i) j Hnonempty Hij
                (lookup_lt_Some _ _ _ Hi))).
  - intros Hten.
    assert (Hrest : CHUNK_SIZE
                    < Z.of_nat (length (drop (Z.to_nat CHUNK_SIZE) content))
                    <= 2 * CHUNK_SIZE).
    { rewrite length_drop. pose proof CHUNK_SIZE_value. lia. }
    pose proof (session_calls_two _ _ _ _ _ _ Hpos Hrest Hcalls) as Hfurther.
    exists sid, d0, (take (Z.to_nat CHUNK_SIZE)
                       (drop (Z.to_nat CHUNK_SIZE) content)),
      (drop (Z.to_nat CHUNK_SIZE) (drop (Z.to_nat CHUNK_SIZE) content)).
    split; [unfold calls; by rewrite Hfurther|].
    split; [unfold d0; by rewrite !take_drop|].
    split; [pose proof CHUNK_SIZE_value; lia|].
    rewrite length_take, !length_drop. pose proof CHUNK_SIZE_value. lia.
Qed.

Lemma upload_chunks_in_file_order_witness :
  exists calls p w',
    upload sample_env "ten.bin" "/dst/ten.bin" sample_dbx true
      (world_with_file "ten.bin" ten_MiB_content) = (Ok p, w') /\
    w_trace w'
    = w_trace (world_with_file "ten.bin" ten_MiB_content)
      ++ map (EApi sample_dbx) calls /\
    concat (map call_payload calls) = ten_MiB_content /\
    (forall i c, calls !! i = Some c -> i <> 0%nat ->
       call_offset c
       = Some (Z.of_nat
                 (length (concat (map call_payload (take i calls)))))) /\
    (forall i j ci cj oi oj,
       (i < j)%nat -> calls !! i = Some ci -> calls !! j = Some cj ->
       call_offset ci = Some oi -> call_offset cj = Some oj -> oi < oj) /\
    (Z.of_nat (length ten_MiB_content) = 10 * 1024 * 1024 ->
     exists sid d0 d1 d2,
       calls =
         [files_upload_session_start d0;
          files_upload_session_append d1 sid 4194304;
          files_upload_session_finish d2
            {| session_id := sid; offset := 8388608 |}
            {| ci_path := "/dst/ten.bin"; ci_mode := WriteMode_add;
               ci_autorename := true |}] /\
       ten_MiB_content = d0 ++ d1 ++ d2 /\
       Z.of_nat (length d0) = 4 * 1024 * 1024 /\
       Z.of_nat (length d1) = 4 * 1024 * 1024 /\
       Z.of_nat (length d2) = 2 * 1024 * 1024).
Proof.
  apply (upload_chunks_in_file_order sample_env
           (world_with_file "ten.bin" ten_MiB_content) "ten.bin"
           "/dst/ten.bin" sample_dbx true ten_MiB_content).
  - apply world_with_file_lookup.
  - rewrite ten_MiB_content_length. pose proof CHUNK_SIZE_value. lia.
  - apply sample_env_accepts.
Defined.

(** *** How a computation can fail *)


Lemma fails_only_ret {A} Q (a : A) : fails_only Q (ret a).
Proof. intros w f Hf. discriminate. Qed.

Lemma fails_only_raise {A} (Q : option exn -> Prop) e :
  Q (Some e) -> fails_only Q (@raise A e).
Proof. intros H w f Hf. simpl in Hf. by simplify_eq. Qed.

Lemma fails_only_bind {A B} Q (m : M A) (k : A -> M B) :
  fails_only Q m -> (forall a, fails_only Q (k a)) ->
  fails_only Q (bind m k).
Proof.
  intros Hm Hk w f. unfold bind. specialize (Hm w).
  destruct (m w) as [[a|e|] w1]; simpl in *.
  - apply Hk.
  - intros Hf. by apply Hm.
  - intros Hf. by apply Hm.
Qed.

Lemma fails_only_try_except {A} (Q : option exn -> Prop) (m : M A)
    (catches : exn -> bool) handler :
  fails_only (fun f => match f with
                       | Some e => catches e = false -> Q f
                       | None => Q f
                       end) m ->
  (forall e, catches e = true -> fails_only Q (handler e)) ->
  fails_only Q (try_except m catches handler).
Proof.
  intros Hm Hh w f. unfold try_except. specialize (Hm w).
  destruct (m w) as [[a|e|] w1]; simpl in *.
  - discriminate.
  - destruct (catches e) eqn:Hc.
    + by apply Hh.
    + intros Hf. simpl in Hf. simplify_eq.
      by apply (Hm _ eq_refl).
  - intros Hf. simplify_eq. by apply (Hm _ eq_refl).
Qed.

Lemma fails_only_silent_ok {A} Q (m : M A) :
  (forall w, exists a, (m w).1 = Ok a) -> fails_only Q m.
Proof. intros H w f. destruct (H w) as [a ->]. discriminate. Qed.

Lemma fails_only_answer {A} (Q : option exn -> Prop) (r : exn_class + A) :
  (forall c, Q (Some (Exception c))) -> fails_only Q (answer r).
Proof.
  intros HQ. destruct r; [by apply fails_only_raise|apply fails_only_ret].
Qed.

Lemma fails_only_emit Q ev : fails_only Q (emit ev).
Proof. apply fails_only_silent_ok. intros w. by exists tt. Qed.

Lemma fails_only_get_trace Q : fails_only Q get_trace.
Proof. apply fails_only_silent_ok. intros w. by eexists. Qed.

Lemma fails_only_api {A} (Q : option exn -> Prop) dbx c
    (srv : Trace -> Dropbox -> exn_class + A) :
  (forall c, Q (Some (Exception c))) -> fails_only Q (api dbx c srv).
Proof.
  intros HQ. unfold api.
  apply fails_only_bind; [apply fails_only_get_trace|]. intros tr.
  apply fails_only_bind; [apply fails_only_emit|]. intros _.
  by apply fails_only_answer.
Qed.

(** ** [generate_password] *)

Lemma hexdigits_lower i :
  (i < 22)%nat ->
  exists c, String.get i hexdigits = Some c /\
            lower_hex_digit (Str.lower_char c) = true.
Proof.
  intros Hi.
  do 22 (destruct i as [|i]; [eexists; split; reflexivity|]). lia.
Qed.

Section GeneratePassword.

Context (E : Env).

Lemma secrets_choice_hexdigits w :
  exists c,
    secrets_choice E hexdigits w
    = (Ok c, add_events w [ERandom 22]) /\
    lower_hex_digit (Str.lower_char c) = true.
Proof.
  unfold secrets_choice, bind, get_trace, emit. cbn [String.length hexdigits].
  destruct (hexdigits_lower (randbelow E (w_trace w) 22 mod 22))
    as (c & Hget & Hc).
  { apply Nat.mod_upper_bound. lia. }
  exists c. change (String.length hexdigits) with 22%nat.
  rewrite Hget. done.
Qed.

Lemma random_lower_hex_format n : forall w,
  exists pw,
    random_lower_hex E n w = (Ok pw, add_events w (replicate n (ERandom 22)))
    /\ String.length pw = n /\ Str.forallb lower_hex_digit pw = true.
Proof.
  induction n as [|n IH]; intros w.
  - exists EmptyString. simpl. by rewrite add_events_nil.
  - destruct (secrets_choice_hexdigits w) as (c & Hc & Hlower).
    destruct (IH (add_events w [ERandom 22])) as (pw & Hpw & Hlen & Hall).
    exists (String (Str.lower_char c) pw). split; [|split].
    + cbn [random_lower_hex]. erewrite bind_ok by exact Hc.
      erewrite bind_ok by exact Hpw. unfold ret.
      by rewrite add_events_app.
    + simpl. by rewrite Hlen.
    + simpl. by rewrite Hlower, Hall.
Qed.

Lemma generate_password_format w :
  exists pw,
    generate_password E w
    = (Ok pw, add_events w (replicate 12 (ERandom 22)))
    /\ password_format pw.
Proof.
  destruct (random_lower_hex_format 12 w) as (pw & Hrun & Hlen & Hall).
  exists pw. by repeat split.
Qed.

End GeneratePassword.

(** *** Computations that only extend the trace *)

Lemma traces_emits {A} P (m : M A) : traces P m -> emits P m.
Proof.
  intros Hm w. destruct (Hm w) as (new & Hw & Hall).
  exists new. by rewrite Hw.
Qed.

Lemma traces_mono {A} (P Q : Event -> Prop) (m : M A) :
  (forall ev, P ev -> Q ev) -> traces P m -> traces Q m.
Proof.
  intros HPQ Hm w. destruct (Hm w) as (new & Hw & Hall).
  exists new. split; [done|]. eapply Forall_impl; eauto.
Qed.

Lemma traces_still {A} P (m : M A) :
  (forall w, (m w).2 = w) -> traces P m.
Proof. intros H w. exists []. by rewrite H, add_events_nil. Qed.

Lemma traces_ret {A} P (a : A) : traces P (ret a).
Proof. by apply traces_still. Qed.

Lemma traces_raise {A} P e : traces P (@raise A e).
Proof. by apply traces_still. Qed.

Lemma traces_out_of_fuel {A} P : traces P (@out_of_fuel A).
Proof. by apply traces_still. Qed.

Lemma traces_answer {A} P (r : exn_class + A) : traces P (answer r).
Proof. destruct r; [apply traces_raise|apply traces_ret]. Qed.

Lemma traces_get_trace P : traces P get_trace.
Proof. by apply traces_still. Qed.

Lemma traces_emit (P : Event -> Prop) ev : P ev -> traces P (emit ev).
Proof. intros H w. exists [ev]. split; [done|]. by constructor. Qed.

Lemma traces_bind {A B} P (m : M A) (k : A -> M B) :
  traces P m -> (forall a, traces P (k a)) -> traces P (bind m k).
Proof.
  intros Hm Hk w. unfold bind.
  destruct (Hm w) as (new1 & Hw1 & Hall1).
  destruct (m w) as [[a|e|] w1]; simpl in *; subst w1.
  - destruct (Hk a (add_events w new1)) as (new2 & Hw2 & Hall2).
    exists (new1 ++ new2). rewrite Hw2, add_events_app.
    split; [done|]. by apply Forall_app.
  - by exists new1.
  - by exists new1.
Qed.

Lemma traces_try_except {A} P (m : M A) catches handler :
  traces P m -> (forall e, traces P (handler e)) ->
  traces P (try_except m catches handler).
Proof.
  intros Hm Hh w. unfold try_except.
  destruct (Hm w) as (new1 & Hw1 & Hall1).
  destruct (m w) as [[a|e|] w1]; simpl in *; subst w1;
    [by exists new1| |by exists new1].
  destruct (catches e); [|by exists new1].
  destruct (Hh e (add_events w new1)) as (new2 & Hw2 & Hall2).
  exists (new1 ++ new2). rewrite Hw2, add_events_app.
  split; [done|]. by apply Forall_app.
Qed.

Lemma traces_api {A} (P : Event -> Prop) dbx c
    (srv : Trace -> Dropbox -> exn_class + A) :
  P (EApi dbx c) -> traces P (api dbx c srv).
Proof.
  intros H. unfold api. apply traces_bind; [apply traces_get_trace|].
  intros tr. apply traces_bind; [by apply traces_emit|].
  intros _. apply traces_answer.
Qed.

Lemma traces_open_rb P path : traces P (open_rb path).
Proof.
  apply traces_still. intros w. unfold open_rb.
  destruct (w_files w !! path); [done|]. by destruct (decide _).
Qed.

Lemma traces_os_path_getsize P path : traces P (os_path_getsize path).
Proof.
  apply traces_still. intros w. unfold os_path_getsize.
  by destruct (w_files w !! path).
Qed.

(** One step of a compositional proof about the trace. *)
Ltac traces_step :=
  first
    [ apply traces_ret | apply traces_raise | apply traces_out_of_fuel
    | apply traces_answer | apply traces_get_trace
    | apply traces_open_rb | apply traces_os_path_getsize
    | apply traces_emit; done
    | apply traces_api; done
    | apply traces_bind; [|intros ?]
    | apply traces_try_except; [|intros ?] ].

Ltac traces_case :=
  match goal with
  | |- traces _ (match ?x with _ => _ end) => destruct x
  | |- traces _ (let '(_, _) := ?x in _) => destruct x
  end.

Ltac traces_auto := repeat (traces_step || traces_case).

Section UploadTrace.

Context (E : Env).

Lemma upload_loop_traces chunk_size fuel :
  forall dbx file_size f cur commit ap,
    traces (fun ev => is_upload_call ev = true)
      (upload_loop E chunk_size fuel dbx file_size f cur commit ap).
Proof.
  induction fuel as [|fuel IH]; intros dbx file_size f cur commit ap;
    cbn [upload_loop].
  - destruct (f_tell f <? file_size); repeat traces_step.
  - destruct (f_tell f <? file_size); [|traces_step].
    destruct (file_size - f_tell f <=? chunk_size);
      destruct (f_read f chunk_size) as [data f'].
    + unfold dbx_files_upload_session_finish. repeat traces_step. apply IH.
    + unfold dbx_files_upload_session_append. repeat traces_step. apply IH.
Qed.

(** [upload] changes nothing in the world but the trace, and only adds
    upload calls to it. *)
Lemma upload_with_traces chunk_size file_path target_path dbx autorename :
  traces (fun ev => is_upload_call ev = true)
    (upload_with E chunk_size file_path target_path dbx autorename).
Proof.
  unfold upload_with. traces_step; [traces_step|].
  traces_step; [traces_step|].
  destruct (_ <=? chunk_size).
  - destruct (f_read_all _) as [data f']. unfold dbx_files_upload.
    repeat traces_step.
  - destruct (f_read _ chunk_size) as [data f1].
    unfold dbx_files_upload_session_start.
    traces_step; [repeat traces_step|].
    traces_step; [apply upload_loop_traces|].
    traces_auto.
Qed.

Lemma upload_traces file_path target_path dbx autorename :
  traces (fun ev => is_upload_call ev = true)
    (upload E file_path target_path dbx autorename).
Proof. apply upload_with_traces. Qed.

End UploadTrace.

(** *** Trace of the remaining operations *)

Lemma emits_os_path_isfile P path : emits P (os_path_isfile path).
Proof. by apply emits_silent. Qed.

Lemma emits_os_path_exists P path : emits P (os_path_exists path).
Proof. by apply emits_silent. Qed.

Lemma emits_os_path_getsize P path : emits P (os_path_getsize path).
Proof.
  apply emits_silent. intros w. unfold os_path_getsize.
  by destruct (w_files w !! path).
Qed.

Lemma emits_get_file P path : emits P (get_file path).
Proof. by apply emits_silent. Qed.

Lemma emits_set_file P path content : emits P (set_file path content).
Proof. by apply emits_silent. Qed.

Lemma emits_get_global_refresh_token P : emits P get_global_refresh_token.
Proof. by apply emits_silent. Qed.

Lemma emits_set_global_refresh_token P tok :
  emits P (set_global_refresh_token tok).
Proof. by apply emits_silent. Qed.

Ltac emits_step :=
  first
    [ apply emits_ret | apply emits_raise | apply emits_out_of_fuel
    | apply emits_answer | apply emits_get_trace
    | apply emits_os_path_isfile | apply emits_os_path_exists
    | apply emits_os_path_getsize | apply emits_get_file
    | apply emits_set_file | apply emits_get_global_refresh_token
    | apply emits_set_global_refresh_token
    | apply emits_emit; done
    | apply emits_api; done
    | apply emits_bind; [|intros ?]
    | apply emits_try_except; [|intros ?] ].

Ltac emits_case :=
  match goal with
  | |- emits _ (match ?x with _ => _ end) => destruct x
  | |- emits _ (let '(_, _) := ?x in _) => destruct x
  end.

Ltac emits_auto := repeat (emits_step || emits_case).

Section ProgramTrace.

Context (E : Env).

Lemma emits_open_w P path : emits P (open_w E path).
Proof.
  apply emits_silent. intros w. unfold open_w.
  destruct (decide _); [done|]. by destruct (file_writable E path).
Qed.

Lemma emits_os_makedirs P path : emits P (os_makedirs E path).
Proof.
  apply emits_silent. intros w. unfold os_makedirs.
  destruct (w_files w !! path); [done|].
  destruct (decide _); [done|]. by destruct (file_writable E path).
Qed.

Lemma emits_fp_write P path text : emits P (fp_write path text).
Proof. unfold fp_write. emits_auto. Qed.

Lemma emits_fp_write_all P path texts : emits P (fp_write_all path texts).
Proof.
  induction texts as [|text texts IH]; cbn [fp_write_all]; [emits_step|].
  apply emits_bind; [apply emits_fp_write|]. intros _. apply IH.
Qed.

Lemma make_user_login_to_get_tokens_traces :
  traces (fun ev => is_login_event ev = true)
    (make_user_login_to_get_tokens E).
Proof.
  unfold make_user_login_to_get_tokens, print, input, sys_exit.
  traces_auto.
Qed.

Lemma get_refresh_token_emits interactive :
  emits (fun ev => is_login_event ev = true)
    (get_refresh_token E interactive).
Proof.
  unfold get_refresh_token.
  apply emits_bind; [emits_step|]. intros is_file.
  apply emits_bind; [|intros; emits_step].
  destruct (negb is_file).
  - destruct (negb interactive); [emits_step|].
    apply emits_bind;
      [apply traces_emits, make_user_login_to_get_tokens_traces|].
    intros tokens.
    do 5 (apply emits_bind; [emits_step|]; intros ?).
    apply emits_bind; [apply emits_open_w|]. intros _.
    apply emits_bind; [apply emits_fp_write_all|]. intros _. emits_step.
  - emits_auto.
Qed.

Lemma cached_refresh_token_emits interactive :
  emits (fun ev => is_login_event ev = true)
    (cached_refresh_token E interactive).
Proof.
  unfold cached_refresh_token.
  apply emits_bind; [emits_step|]. intros cached.
  destruct (truthy cached); [emits_step|].
  apply emits_bind; [apply get_refresh_token_emits|]. intros tok.
  emits_auto.
Qed.

Lemma new_dropbox_still refresh_token w :
  (new_dropbox E refresh_token w).2 = w.
Proof.
  unfold new_dropbox, bind, answer.
  by destruct (dropbox_init E refresh_token (APP_KEY E)).
Qed.

Lemma choose_root_traces dbx use_team_root :
  traces (fun ev => is_account_call ev = true)
    (choose_root E dbx use_team_root).
Proof.
  unfold choose_root, dbx_users_get_current_account.
  destruct use_team_root; traces_auto.
Qed.

End ProgramTrace.

(** ** [big_file_upload] *)

Lemma try_except_reraise {A} (m : M A) catches w :
  try_except m catches (fun ex => raise ex) w = m w.
Proof.
  unfold try_except. destruct (m w) as [[a|e|] w']; [done| |done].
  by destruct (catches e).
Qed.

Lemma no_share_lookup (l : Trace) i dbx path settings :
  Forall (fun ev => is_share_call ev = false) l ->
  l !! i = Some (EApi dbx (sharing_create_shared_link_with_settings path
                             settings)) ->
  False.
Proof.
  intros Hall Hi. rewrite Forall_lookup in Hall.
  by specialize (Hall i _ Hi).
Qed.

Lemma login_event_no_share ev :
  is_login_event ev = true -> is_share_call ev = false.
Proof. by destruct ev. Qed.

Lemma account_call_no_share ev :
  is_account_call ev = true -> is_share_call ev = false.
Proof. destruct ev as [dbx []| | | | | | |]; done. Qed.

Lemma upload_call_no_share ev :
  is_upload_call ev = true -> is_share_call ev = false.
Proof. destruct ev as [dbx []| | | | | | |]; done. Qed.

(** Where a share call can stand in a trace that ends with the sleep and
    the share call and has none before. *)
Lemma share_call_is_last (l : Trace) i ev dbx path settings :
  Forall (fun ev => is_share_call ev = false) l ->
  (l ++ [ESleep 10; ev]) !! i
  = Some (EApi dbx (sharing_create_shared_link_with_settings path settings)) ->
  i = S (length l) /\
  ev = EApi dbx (sharing_create_shared_link_with_settings path settings).
Proof.
  intros Hall Hi.
  destruct (decide (i < length l)%nat) as [Hlt|Hge].
  - rewrite lookup_app_l in Hi by done.
    by destruct (no_share_lookup _ _ _ _ _ Hall Hi).
  - rewrite lookup_app_r in Hi by lia.
    destruct (i - length l)%nat as [|[|k]] eqn:Hk; simpl in Hi.
    + discriminate.
    + split; [lia|congruence].
    + discriminate.
Qed.

(** The shape of the trace of [big_file_upload]. *)
Lemma big_file_upload_trace (E : Env) (source destination : string)
    (interactive use_team_root : bool) (password : option string)
    (expiration : option Z) (autorename : bool) (w : World) :
  exists new,
    w_trace (big_file_upload E source destination interactive use_team_root
               password expiration autorename w).2
    = w_trace w ++ new /\
    (truthy password = false ->
     Forall (fun ev => is_share_call ev = false) new) /\
    (forall i dbx path settings,
       new !! i
       = Some (EApi dbx
                 (sharing_create_shared_link_with_settings path settings)) ->
       exists before during w1,
         new = before ++ during
               ++ [ESleep 10;
                   EApi dbx (sharing_create_shared_link_with_settings path
                               settings)] /\
         i = S (length (before ++ during)) /\
         Forall (fun ev => is_share_call ev = false) (before ++ during) /\
         w_trace w1 = w_trace w ++ before /\
         upload E source destination dbx autorename w1
         = (Ok path, add_events w1 during) /\
         truthy password = true /\
         link_password settings = default EmptyString password).
Proof.
  (* a run without a share call *)
  assert (Hnone : forall new : Trace,
             Forall (fun ev => is_share_call ev = false) new ->
             (truthy password = false ->
              Forall (fun ev => is_share_call ev = false) new) /\
             (forall i dbx path settings,
                new !! i
                = Some (EApi dbx
                          (sharing_create_shared_link_with_settings path
                             settings)) ->
                exists before during w1,
                  new = before ++ during
                        ++ [ESleep 10;
                            EApi dbx
                              (sharing_create_shared_link_with_settings path
                                 settings)] /\
                  i = S (length (before ++ during)) /\
                  Forall (fun ev => is_share_call ev = false)
                    (before ++ during) /\
                  w_trace w1 = w_trace w ++ before /\
                  upload E source destination dbx autorename w1
                  = (Ok path, add_events w1 during) /\
                  truthy password = true /\
                  link_password settings = default EmptyString password)).
  { intros new Hall. split; [done|]. intros i dbx path settings Hi.
    by destruct (no_share_lookup _ _ _ _ _ Hall Hi). }
  unfold big_file_upload, bind at 1.
  destruct (cached_refresh_token_emits E interactive w)
    as (preA & HtrA & HallA).
  pose proof (Forall_impl _ _ _ HallA login_event_no_share) as HnoA.
  destruct (cached_refresh_token E interactive w) as [[tok|e|] wA];
    simpl in HtrA; try (exists preA; split; [done|]; by apply Hnone).
  unfold bind at 1.
  pose proof (new_dropbox_still E tok wA) as HwB.
  destruct (new_dropbox E tok wA) as [[dbx0|e|] wB]; simpl in HwB; subst wB;
    try (exists preA; split; [done|]; by apply Hnone).
  rewrite try_except_reraise. unfold bind at 1.
  destruct (choose_root_traces E dbx0 use_team_root wA)
    as (evC & HwC & HallC).
  pose proof (Forall_impl _ _ _ HallC account_call_no_share) as HnoC.
  destruct (choose_root E dbx0 use_team_root wA) as [[dbx|e|] wC];
    simpl in HwC; subst wC;
    try (exists (preA ++ evC); simpl; rewrite HtrA, app_assoc;
         split; [done|]; apply Hnone; by apply Forall_app).
  unfold bind at 1.
  destruct (upload_traces E source destination dbx autorename
              (add_events wA evC)) as (during & HwU & HallU).
  pose proof (Forall_impl _ _ _ HallU upload_call_no_share) as HnoU.
  destruct (upload E source destination dbx autorename (add_events wA evC))
    as [[path|e|] wU] eqn:Hup; simpl in HwU; subst wU;
    try (exists (preA ++ evC ++ during); simpl;
         rewrite HtrA, <- !app_assoc;
         split; [done|]; apply Hnone; rewrite !Forall_app; by repeat split).
  destruct (truthy password) eqn:Hpw.
  - (* a password was requested: the sleep, then the share call *)
    set (settings := {| require_password := true;
                        link_password := default EmptyString password;
                        allow_download := true; expires := expiration;
                        audience := LinkAudience_public |}).
    set (share := EApi dbx (sharing_create_shared_link_with_settings path
                              settings)).
    exists ((preA ++ evC) ++ during ++ [ESleep 10; share]).
    assert (Hno : Forall (fun ev => is_share_call ev = false)
                    ((preA ++ evC) ++ during))
      by (rewrite !Forall_app; by repeat split).
    split; [|split; [done|]].
    + unfold time_sleep, dbx_sharing_create_shared_link_with_settings,
        bind, emit.
      match goal with
      | |- context [api ?d ?c ?srv ?w0] =>
          destruct (srv (w_trace w0) d) as [c0|link] eqn:Hsrv;
          [rewrite (api_raise d c srv w0 c0 Hsrv)
          |rewrite (api_ok d c srv w0 link Hsrv)]
      end; cbn [snd ret w_trace add_events];
        rewrite HtrA, <- !app_assoc; done.
    + intros i dbx' path' settings' Hi. rewrite app_assoc in Hi.
      destruct (share_call_is_last _ _ _ _ _ _ Hno Hi) as [-> Heq].
      unfold share in Heq. simplify_eq.
      exists (preA ++ evC), during, (add_events wA evC).
      repeat split; try done.
      simpl. by rewrite HtrA, app_assoc.
  - exists (preA ++ evC ++ during). simpl. rewrite HtrA, <- !app_assoc.
    split; [done|]. apply Hnone. rewrite !Forall_app; by repeat split.
Qed.

(** C9. In every run of [big_file_upload], a call of the share-link API
    is the last action of the run; right before it stands the settling
    delay of ten seconds, and right before that a complete run of
    [upload] that returned, with the path the link is then requested for.
    No share-link call is made before, and none at all when no password
    was requested. *)
Theorem share_link_only_after_upload (E : Env) (source destination : string)
    (interactive use_team_root : bool) (password : option string)
    (expiration : option Z) (autorename : bool) (w : World) :
  exists new,
    w_trace (big_file_upload E source destination interactive use_team_root
               password expiration autorename w).2
    = w_trace w ++ new /\
    (truthy password = false ->
     Forall (fun ev => is_share_call ev = false) new) /\
    (forall i dbx path settings,
       new !! i
       = Some (EApi dbx
                 (sharing_create_shared_link_with_settings path settings)) ->
       exists before during w1,
         new = before ++ during
               ++ [ESleep 10;
                   EApi dbx (sharing_create_shared_link_with_settings path
                               settings)] /\
         i = S (length (before ++ during)) /\
         Forall (fun ev => is_share_call ev = false) (before ++ during) /\
         w_trace w1 = w_trace w ++ before /\
         upload E source destination dbx autorename w1
         = (Ok path, add_events w1 during) /\
         truthy password = true /\
         link_password settings = default EmptyString password).
Proof.
  exact (big_file_upload_trace E source destination interactive
           use_team_root password expiration autorename w).
Qed.


(** ** [download_folder] *)

Example download_three_pages :
  let run := download_folder paging_env 3 sample_dbx "/in" "out" empty_world in
  run.1 = Ok (4, 0) /\
  w_trace run.2
  = map (EApi sample_dbx)
      [files_list_folder "/in";
       files_download "/in/a.txt"; files_download "/in/b.txt";
       files_list_folder_continue "c1";
       files_download "/in/c.txt";
       files_list_folder_continue "c2";
       files_download "/in/d.txt"] /\
  w_files run.2 !! "out/c.txt" = Some [].
Proof. vm_compute. done. Qed.

(** With too little fuel the model gives up rather than invent a result. *)
Example download_three_pages_fuel_2 :
  (download_folder paging_env 2 sample_dbx "/in" "out" empty_world).1
  = OutOfFuel.
Proof. vm_compute. done. Qed.

Section Download.

Context (E : Env) (dbx : Dropbox) (local_dir : string).
Context (recurse : string -> string -> M (Z * Z)).
Hypothesis remote_ok : downloads_succeed E.

Lemma download_file_ok dropbox_path local_path w :
  local_path ∉ w_dirs w ->
  exists w',
    download_file E dbx dropbox_path local_path w = (Ok tt, w') /\
    w_trace w' = w_trace w ++ [EApi dbx (files_download dropbox_path)] /\
    w_dirs w' = w_dirs w.
Proof.
  intros Hfree. destruct remote_ok as [Hdl Hwr].
  unfold download_file, bind, open_w, dbx_files_download.
  destruct (decide (local_path ∈ w_dirs w)); [done|].
  rewrite Hwr. cbn [set_file].
  match goal with
  | |- context [api ?d ?c ?srv ?w0] =>
      destruct (Hdl (w_trace w0) d dropbox_path) as [res Hres];
      rewrite (api_ok d c srv w0 res Hres)
  end.
  eexists. split; [reflexivity|]. done.
Qed.

Lemma download_entries_ok (l : list Metadata) : forall total_files
    total_folders w,
  plain_entries local_dir (w_dirs w) l ->
  exists w',
    download_entries E recurse dbx local_dir l (total_files, total_folders) w
    = (Ok (total_files + count_files l, total_folders), w') /\
    w_trace w' = w_trace w ++ download_calls dbx l /\
    w_dirs w' = w_dirs w.
Proof.
  induction l as [|m l IH]; intros tf tfo w Hplain.
  - exists w. unfold count_files, download_calls. simpl.
    rewrite Z.add_0_r, app_nil_r. done.
  - apply Forall_cons in Hplain as [[Hnf Hfree] Hplain].
    cbn [download_entries]. unfold bind at 1.
    destruct m as [name path_lower pd|name path_lower pd|name path_lower pd];
      [|done|]; cbn [download_entry].
    + destruct (download_file_ok path_lower (os_path_join local_dir name) w)
        as (w1 & Hrun & Htr & Hdirs); [by apply Hfree|].
      erewrite bind_ok by exact Hrun. cbn [ret].
      destruct (IH (tf + 1) tfo w1) as (w' & Hrest & Htr' & Hdirs');
        [by rewrite Hdirs|].
      exists w'. rewrite Hrest, Htr', Htr, Hdirs', Hdirs.
      unfold count_files, download_calls. simpl.
      rewrite <- app_assoc. simpl.
      repeat split; try done. do 3 f_equal. lia.
    + cbn [ret].
      destruct (IH tf tfo w) as (w' & Hrest & Htr' & Hdirs'); [done|].
      exists w'. by rewrite Hrest.
Qed.

Lemma download_pages_ok (rest : list ListFolderResult) : forall p fuel
    total_files total_folders w,
  served_after E p rest ->
  plain_entries local_dir (w_dirs w) (flat_map entries (p :: rest)) ->
  (length rest <= fuel)%nat ->
  exists w',
    download_pages E recurse fuel dbx local_dir p
      (total_files, total_folders) w
    = (Ok (total_files + count_files (flat_map entries (p :: rest)),
           total_folders), w') /\
    w_trace w'
    = w_trace w ++ download_calls dbx (entries p)
      ++ listing_events dbx (files_list_folder_continue (cursor p)) rest /\
    w_dirs w' = w_dirs w.
Proof.
  induction rest as [|q rest IH]; intros p fuel tf tfo w Hserved Hplain Hfuel.
  - simpl in Hserved, Hplain. rewrite app_nil_r in Hplain.
    destruct (download_entries_ok (entries p) tf tfo w Hplain)
      as (w' & Hrun & Htr & Hdirs).
    exists w'. simpl. rewrite !app_nil_r.
    destruct fuel; cbn [download_pages];
      (erewrite bind_ok by exact Hrun); rewrite Hserved; done.
  - destruct Hserved as (Hmore & Hnext & Hserved).
    cbn [flat_map] in Hplain. apply Forall_app in Hplain as [Hp Hrest].
    destruct (download_entries_ok (entries p) tf tfo w Hp)
      as (w1 & Hrun & Htr1 & Hdirs1).
    destruct fuel as [|fuel]; [simpl in Hfuel; lia|].
    cbn [download_pages]. erewrite bind_ok by exact Hrun.
    rewrite Hmore. cbn [negb].
    erewrite bind_ok;
      [|unfold dbx_files_list_folder_continue; apply api_ok; apply Hnext].
    destruct (IH q fuel (tf + count_files (entries p)) tfo
                (add_events w1
                   [EApi dbx (files_list_folder_continue (cursor p))]))
      as (w' & Hrun' & Htr' & Hdirs').
    { done. }
    { simpl. by rewrite Hdirs1. }
    { simpl in Hfuel. lia. }
    exists w'. rewrite Hrun', Htr', Hdirs'. simpl. rewrite Htr1, Hdirs1.
    split; [|split; [|done]].
    + do 3 f_equal. unfold count_files.
      rewrite !List.filter_app, !length_app. lia.
    + by rewrite <- !app_assoc.
Qed.

End Download.

Lemma download_calls_not_listing dbx l :
  List.filter is_listing_call (download_calls dbx l) = [].
Proof.
  unfold download_calls. induction (List.filter is_file_entry l); done.
Qed.

Lemma listing_events_count dbx call pages :
  is_listing_call (EApi dbx call) = true ->
  length (List.filter is_listing_call (listing_events dbx call pages))
  = length pages.
Proof.
  revert call. induction pages as [|p rest IH]; intros call Hcall; [done|].
  cbn [listing_events List.filter]. rewrite Hcall.
  rewrite List.filter_app, download_calls_not_listing. simpl.
  by rewrite IH.
Qed.

(** C7. When the listing of a folder consists of several pages (the
    has-more flag set on all but the last), [download_folder] fetches every
    page, the first by the listing call and each further one by a
    continuation call with the cursor of the page before, downloads the
    files of each page before it fetches the next, and returns the number
    of files of all pages. With three pages (flags true, true, false)
    these are exactly three listing calls: the initial one and two
    continuations. Stated for pages without subfolders, a remote end that
    delivers every file, and enough fuel for the number of pages. *)
Theorem download_folder_fetches_all_pages (E : Env) (dbx : Dropbox)
    (folder_path local_dir : string) (pages : list ListFolderResult)
    (fuel : nat) (w : World) :
  serves_pages E folder_path pages ->
  downloads_succeed E ->
  w_files w !! local_dir = None ->
  plain_entries local_dir ({[local_dir]} ∪ w_dirs w)
    (flat_map entries pages) ->
  (length pages <= fuel)%nat ->
  exists w',
    download_folder E fuel dbx folder_path local_dir w
    = (Ok (count_files (flat_map entries pages), 0), w') /\
    w_trace w'
    = w_trace w ++ listing_events dbx (files_list_folder folder_path) pages /\
    length (List.filter is_listing_call
              (listing_events dbx (files_list_folder folder_path) pages))
    = length pages /\
    (forall p1 p2 p3, pages = [p1; p2; p3] ->
       w_trace w'
       = w_trace w
         ++ [EApi dbx (files_list_folder folder_path)]
         ++ download_calls dbx (entries p1)
         ++ [EApi dbx (files_list_folder_continue (cursor p1))]
         ++ download_calls dbx (entries p2)
         ++ [EApi dbx (files_list_folder_continue (cursor p2))]
         ++ download_calls dbx (entries p3)).
Proof.
  intros Hserves Hremote Hnofile Hplain Hfuel.
  destruct pages as [|p rest]; [done|]. destruct Hserves as [Hfirst Hafter].
  destruct fuel as [|fuel]; [simpl in Hfuel; lia|].
  assert (Hmk : exists w1,
             os_makedirs E local_dir w = (Ok tt, w1) /\
             w_trace w1 = w_trace w /\
             w_dirs w1 ⊆ {[local_dir]} ∪ w_dirs w).
  { unfold os_makedirs. rewrite Hnofile.
    destruct (decide (local_dir ∈ w_dirs w)).
    - exists w. split; [done|]. split; [done|]. set_solver.
    - destruct Hremote as [_ Hwr]. rewrite Hwr. eexists.
      split; [reflexivity|]. done. }
  destruct Hmk as (w1 & Hmk & Htr1 & Hdirs1).
  destruct (download_pages_ok E dbx local_dir (download_folder E fuel dbx)
              Hremote rest p fuel 0 0
              (add_events w1 [EApi dbx (files_list_folder folder_path)]))
    as (w' & Hrun & Htr & Hdirs).
  { done. }
  { simpl. eapply Forall_impl; [exact Hplain|].
    intros m [Hnf Hfree]. split; [done|]. intros Hfile.
    specialize (Hfree Hfile). set_solver. }
  { simpl in Hfuel. lia. }
  exists w'.
  assert (Hfinal : w_trace w'
                   = w_trace w
                     ++ listing_events dbx (files_list_folder folder_path)
                          (p :: rest)).
  { rewrite Htr. simpl. rewrite Htr1, <- app_assoc. done. }
  split; [|split; [exact Hfinal|split]].
  - cbn [download_folder]. unfold try_except.
    erewrite bind_ok by exact Hmk.
    erewrite bind_ok;
      [|unfold dbx_files_list_folder; apply api_ok; apply Hfirst].
    rewrite Hrun. by rewrite Z.add_0_l.
  - by apply listing_events_count.
  - intros p1 p2 p3 Heq. rewrite Hfinal, Heq. simpl.
    by rewrite app_nil_r.
Qed.

Lemma download_folder_fetches_all_pages_witness :
  exists w',
    download_folder paging_env 3 sample_dbx "/in" "out" empty_world
    = (Ok (count_files (flat_map entries [page1; page2; page3]), 0), w') /\
    w_trace w'
    = w_trace empty_world
      ++ listing_events sample_dbx (files_list_folder "/in")
           [page1; page2; page3] /\
    length (List.filter is_listing_call
              (listing_events sample_dbx (files_list_folder "/in")
                 [page1; page2; page3]))
    = length [page1; page2; page3] /\
    (forall p1 p2 p3, [page1; page2; page3] = [p1; p2; p3] ->
       w_trace w'
       = w_trace empty_world
         ++ [EApi sample_dbx (files_list_folder "/in")]
         ++ download_calls sample_dbx (entries p1)
         ++ [EApi sample_dbx (files_list_folder_continue (cursor p1))]
         ++ download_calls sample_dbx (entries p2)
         ++ [EApi sample_dbx (files_list_folder_continue (cursor p2))]
         ++ download_calls sample_dbx (entries p3)).
Proof.
  apply (download_folder_fetches_all_pages paging_env sample_dbx "/in" "out"
           [page1; page2; page3] 3 empty_world).
  - simpl. repeat split; reflexivity.
  - split; intros; simpl; eauto.
  - reflexivity.
  - repeat constructor; try reflexivity; intros _;
      apply (bool_decide_unpack _); vm_compute; exact I.
  - simpl. lia.
Defined.

(** ** The failures of the program *)

Lemma bind_ok_inv {A B} (m : M A) (k : A -> M B) w b w' :
  bind m k w = (Ok b, w') ->
  exists a w1, m w = (Ok a, w1) /\ k a w1 = (Ok b, w').
Proof.
  unfold bind. destruct (m w) as [[a|e|] w1]; intros H; [|done..].
  by exists a, w1.
Qed.

Lemma fails_only_os_path_getsize (Q : option exn -> Prop) path :
  (forall c, Q (Some (Exception c))) -> fails_only Q (os_path_getsize path).
Proof.
  intros HQ w f. unfold os_path_getsize.
  destruct (w_files w !! path); simpl; intros Hf; by simplify_eq.
Qed.

Lemma fails_only_open_rb (Q : option exn -> Prop) path :
  (forall c, Q (Some (Exception c))) -> fails_only Q (open_rb path).
Proof.
  intros HQ w f. unfold open_rb.
  destruct (w_files w !! path); [done|].
  destruct (decide _); simpl; intros Hf; by simplify_eq.
Qed.

Lemma exit_only_42_exception c : exit_only_42 (Some (Exception c)).
Proof. done. Qed.

Lemma exit_only_0_or_42_exception c : exit_only_0_or_42 (Some (Exception c)).
Proof. done. Qed.

Ltac fails_step :=
  first
    [ apply fails_only_ret
    | apply fails_only_raise; done
    | apply fails_only_answer; done
    | apply fails_only_get_trace
    | apply fails_only_emit
    | apply fails_only_api; done
    | apply fails_only_os_path_getsize; done
    | apply fails_only_open_rb; done
    | apply fails_only_silent_ok; intros ?; eexists; reflexivity
    | apply fails_only_bind; [|intros ?] ].

Ltac fails_case :=
  match goal with
  | |- fails_only _ (match ?x with _ => _ end) => destruct x
  | |- fails_only _ (let '(_, _) := ?x in _) => destruct x
  end.

Ltac fails_auto := repeat (fails_step || fails_case).

Section ProgramFailures.

Context (E : Env).

(** A property of failures that every exception of a class deriving from
    [Exception] and every [SystemExit] with code 42 has. *)
Context (Q : option exn -> Prop).
Hypothesis Q_exception : forall c, Q (Some (Exception c)).
Hypothesis Q_exit_42 : Q (Some (SystemExit 42)).
Hypothesis Q_fuel : Q None.

Lemma fails_only_open_w path : fails_only Q (open_w E path).
Proof.
  intros w f. unfold open_w.
  destruct (decide _); [simpl; intros Hf; by simplify_eq|].
  destruct (file_writable E path); simpl; intros Hf; by simplify_eq.
Qed.

Lemma fails_only_fp_write path text : fails_only Q (fp_write path text).
Proof. unfold fp_write. fails_auto. Qed.

Lemma fails_only_fp_write_all path texts :
  fails_only Q (fp_write_all path texts).
Proof.
  induction texts as [|text texts IH]; cbn [fp_write_all]; [fails_step|].
  apply fails_only_bind; [apply fails_only_fp_write|]. intros _. apply IH.
Qed.

Lemma fails_only_make_user_login_to_get_tokens :
  fails_only Q (make_user_login_to_get_tokens E).
Proof.
  unfold make_user_login_to_get_tokens, print, input, sys_exit.
  do 4 (apply fails_only_bind; [fails_auto|]; intros ?).
  apply fails_only_try_except.
  - apply fails_only_bind; [fails_step|]. intros tr.
    apply fails_only_bind; [fails_step|]. intros _.
    destruct (auth_flow_finish E tr _) as [c|res]; cbn [answer].
    + intros w f Hf. simpl in Hf. simplify_eq. intros _. apply Q_exception.
    + fails_step.
  - intros e _. by apply fails_only_raise.
Qed.

Lemma fails_only_get_refresh_token interactive :
  fails_only Q (get_refresh_token E interactive).
Proof.
  unfold get_refresh_token.
  apply fails_only_bind; [fails_step|]. intros is_file.
  apply fails_only_bind; [|intros; fails_step].
  destruct (negb is_file).
  - destruct (negb interactive); [fails_step|].
    apply fails_only_bind; [apply fails_only_make_user_login_to_get_tokens|].
    intros tokens.
    do 5 (apply fails_only_bind; [fails_step|]; intros ?).
    apply fails_only_bind; [apply fails_only_open_w|]. intros _.
    apply fails_only_bind; [apply fails_only_fp_write_all|]. intros _.
    fails_step.
  - fails_auto.
Qed.

Lemma fails_only_cached_refresh_token interactive :
  fails_only Q (cached_refresh_token E interactive).
Proof.
  unfold cached_refresh_token.
  apply fails_only_bind; [fails_step|]. intros cached.
  destruct (truthy cached); [fails_step|].
  apply fails_only_bind; [apply fails_only_get_refresh_token|]. intros tok.
  fails_auto.
Qed.

Lemma fails_only_upload_loop chunk_size fuel :
  forall dbx file_size f cur commit ap,
    fails_only Q
      (upload_loop E chunk_size fuel dbx file_size f cur commit ap).
Proof.
  induction fuel as [|fuel IH]; intros dbx file_size f cur commit ap;
    cbn [upload_loop].
  - destruct (f_tell f <? file_size); [|fails_step].
    intros w f0 Hf. simpl in Hf. by simplify_eq.
  - destruct (f_tell f <? file_size); [|fails_step].
    destruct (file_size - f_tell f <=? chunk_size);
      destruct (f_read f chunk_size) as [data f'].
    + unfold dbx_files_upload_session_finish.
      apply fails_only_bind; [fails_step|]. intros ?. apply IH.
    + unfold dbx_files_upload_session_append.
      apply fails_only_bind; [fails_step|]. intros ?. apply IH.
Qed.

Lemma fails_only_upload file_path target_path dbx autorename :
  fails_only Q (upload E file_path target_path dbx autorename).
Proof.
  unfold upload, upload_with.
  apply fails_only_bind; [fails_step|]. intros f.
  apply fails_only_bind; [fails_step|]. intros file_size.
  destruct (file_size <=? CHUNK_SIZE).
  - destruct (f_read_all f) as [data f']. unfold dbx_files_upload.
    fails_auto.
  - destruct (f_read f CHUNK_SIZE) as [data f1].
    unfold dbx_files_upload_session_start.
    apply fails_only_bind; [fails_step|]. intros sid.
    apply fails_only_bind; [apply fails_only_upload_loop|]. intros ap.
    fails_auto.
Qed.

Lemma fails_only_big_file_upload source destination interactive
    use_team_root password expiration autorename :
  fails_only Q
    (big_file_upload E source destination interactive use_team_root
       password expiration autorename).
Proof.
  unfold big_file_upload.
  apply fails_only_bind; [apply fails_only_cached_refresh_token|].
  intros tok.
  apply fails_only_bind; [unfold new_dropbox; fails_auto|]. intros dbx0.
  intros w f. rewrite try_except_reraise. revert w f.
  apply fails_only_bind;
    [unfold choose_root, dbx_users_get_current_account;
     destruct use_team_root; fails_auto|].
  intros dbx.
  apply fails_only_bind; [apply fails_only_upload|]. intros path.
  unfold time_sleep, dbx_sharing_create_shared_link_with_settings.
  fails_auto.
Qed.

End ProgramFailures.

(** * Further properties of the program *)

(** ** [upload] against a remote end that may refuse calls *)

Lemma session_calls_exists chunk_size sid commit :
  0 < chunk_size ->
  forall n (rest : bytes) sent,
    (length rest <= n)%nat -> (0 < length rest)%nat ->
    exists calls, session_calls chunk_size sid commit sent rest calls.
Proof.
  intros Hpos. induction n as [|n IH]; intros rest sent Hn Hne; [lia|].
  destruct (decide (Z.of_nat (length rest) <= chunk_size)) as [Hle|Hgt].
  - eexists. apply session_finish. lia.
  - destruct (IH (drop (Z.to_nat chunk_size) rest)
                (sent + Z.of_nat (length (take (Z.to_nat chunk_size) rest))))
      as [calls Hcalls].
    + rewrite length_drop. lia.
    + rewrite length_drop. lia.
    + eexists. apply session_append; [lia|exact Hcalls].
Qed.

Section UploadAny.

Context (E : Env) (chunk_size : Z).
Hypothesis chunk_pos : 0 < chunk_size.

(** The loop of [upload] against any remote end: it comes to its end
    within its fuel; when it returns, its calls are a well sequenced
    session; when it raises, the exception is the one the remote end
    answered to the last call, and the calls are the first calls of a
    well sequenced session. *)
Lemma upload_loop_any fuel :
  forall dbx (f : FileObj) cur commit ap w,
    (f_pos f < length (f_content f))%nat ->
    offset cur = f_tell f ->
    (length (f_content f) - f_pos f <= fuel)%nat ->
    exists calls r,
      upload_loop E chunk_size fuel dbx (Z.of_nat (length (f_content f)))
        f cur commit ap w
      = (r, add_events w (map (EApi dbx) calls)) /\
      ((exists m, r = Ok (Some (path_display m)) /\
          session_calls chunk_size (session_id cur) commit (f_tell f)
            (drop (f_pos f) (f_content f)) calls) \/
       (exists c more, r = Raise (Exception c) /\ calls <> [] /\
          session_calls chunk_size (session_id cur) commit (f_tell f)
            (drop (f_pos f) (f_content f)) (calls ++ more))).
Proof.
  induction fuel as [|fuel IH]; intros dbx f cur commit ap w Hpos Hcur Hfuel;
    [lia|].
  destruct f as [content pos], cur as [sid off]; simpl in *.
  unfold f_tell in *; simpl in *; subst off.
  set (rest := drop pos content).
  assert (Hrest : length rest = (length content - pos)%nat)
    by (unfold rest; apply length_drop).
  destruct (Z.of_nat pos <? Z.of_nat (length content)) eqn:Hlt; [|zbool; lia].
  destruct (chunk_size <? 0) eqn:Hneg; [zbool; lia|].
  destruct (Z.of_nat (length content) - Z.of_nat pos <=? chunk_size)
    eqn:Hlast; zbool.
  - (* the finish branch *)
    assert (Htake : take (Z.to_nat chunk_size) rest = rest)
      by (apply take_ge; lia).
    rewrite Htake.
    set (call := files_upload_session_finish rest
                   {| session_id := sid; offset := Z.of_nat pos |} commit).
    assert (Hcalls : session_calls chunk_size sid commit (Z.of_nat pos) rest
                       [call])
      by (constructor; lia).
    exists [call].
    destruct (srv_files_upload_session_finish E (w_trace w) dbx rest
                {| session_id := sid; offset := Z.of_nat pos |} commit)
      as [c|m] eqn:Hm.
    + exists (Raise (Exception c)). split.
      * erewrite bind_raise; [done|].
        unfold dbx_files_upload_session_finish. apply api_raise. exact Hm.
      * right. exists c, []. by rewrite app_nil_r.
    + exists (Ok (Some (path_display m))). split; [|left; by exists m].
      erewrite bind_ok; [|unfold dbx_files_upload_session_finish;
                          apply api_ok; exact Hm].
      destruct fuel; simpl; unfold f_tell; simpl;
        (destruct (Z.of_nat (pos + length rest) <? Z.of_nat (length content))
           eqn:Hend; [zbool; lia|done]).
  - (* the append branch *)
    assert (Hlen : Z.of_nat (length (take (Z.to_nat chunk_size) rest))
                   = chunk_size)
      by (rewrite length_take; lia).
    set (data := take (Z.to_nat chunk_size) rest) in *.
    set (call := files_upload_session_append data sid (Z.of_nat pos)).
    assert (Hdrop : drop (pos + length data) content
                    = drop (Z.to_nat chunk_size) rest).
    { unfold rest. rewrite drop_drop. f_equal. lia. }
    destruct (srv_files_upload_session_append E (w_trace w) dbx data sid
                (Z.of_nat pos)) as [c|[]] eqn:Hm.
    + exists [call], (Raise (Exception c)). split.
      * erewrite bind_raise; [done|].
        unfold dbx_files_upload_session_append. apply api_raise. exact Hm.
      * right.
        destruct (session_calls_exists chunk_size sid commit chunk_pos
                    (length rest) (drop (Z.to_nat chunk_size) rest)
                    (Z.of_nat pos + Z.of_nat (length data)))
          as [more Hmore].
        { rewrite length_drop. lia. }
        { rewrite length_drop. lia. }
        exists c, more. split; [done|]. split; [done|].
        apply session_append; [lia|exact Hmore].
    + erewrite bind_ok; [|unfold dbx_files_upload_session_append;
                          apply api_ok; exact Hm].
      set (f' := {| f_content := content; f_pos := (pos + length data)%nat |}).
      destruct (IH dbx f' {| session_id := sid; offset := f_tell f' |} commit
                  ap (add_events w [EApi dbx call]))
        as (calls & r & Hrun & Hshape).
      { simpl. lia. }
      { done. }
      { simpl. lia. }
      exists (call :: calls), r. split.
      * etrans; [exact Hrun|]. by rewrite add_events_app.
      * simpl in Hshape. unfold f_tell in Hshape; simpl in Hshape.
        rewrite Nat2Z.inj_add, Hdrop in Hshape.
        destruct Hshape as [(m & -> & Hcalls)|(c & more & -> & Hne & Hcalls)].
        -- left. exists m. split; [done|]. by apply session_append; [lia|].
        -- right. exists c, more. split; [done|]. split; [done|].
           simpl. by apply session_append; [lia|].
Qed.

End UploadAny.

(** In a well sequenced session only the last call commits. *)
Lemma session_calls_commit_last chunk_size sid commit sent rest calls :
  0 < chunk_size ->
  session_calls chunk_size sid commit sent rest calls ->
  (exists c, last calls = Some c /\ is_commit c = true) /\
  (forall i c, calls !! i = Some c -> is_commit c = true ->
     S i = length calls).
Proof.
  intros Hpos Hcalls.
  destruct (session_calls_last _ _ _ Hpos _ _ _ Hcalls)
    as (appends & d & off & -> & Happ & _ & _).
  split.
  - eexists. by rewrite last_snoc.
  - intros i c Hi Hc. rewrite length_app. simpl.
    destruct (decide (i < length appends)%nat) as [Hlt|Hge].
    + rewrite lookup_app_l in Hi by done.
      rewrite Forall_lookup in Happ. specialize (Happ i c Hi).
      destruct c; done.
    + apply lookup_lt_Some in Hi. rewrite length_app in Hi. simpl in Hi. lia.
Qed.

Section UploadWithAny.

Context (E : Env) (chunk_size : Z).
Hypothesis chunk_pos : 0 < chunk_size.

Lemma upload_with_no_file fp tp dbx ar w :
  w_files w !! fp = None ->
  exists c, upload_with E chunk_size fp tp dbx ar w = (Raise (Exception c), w).
Proof.
  intros Hfile. unfold upload_with, bind at 1, open_rb. rewrite Hfile.
  destruct (decide _); by eexists.
Qed.

(** [upload] of a file larger than a chunk, against any remote end. *)
Lemma upload_with_any fp tp dbx ar w c :
  w_files w !! fp = Some c ->
  chunk_size < Z.of_nat (length c) ->
  exists calls r,
    upload_with E chunk_size fp tp dbx ar w
    = (r, add_events w
            (map (EApi dbx)
               (files_upload_session_start (take (Z.to_nat chunk_size) c)
                :: calls))) /\
    ((exists sid m, r = Ok (path_display m) /\
        session_calls chunk_size sid
          {| ci_path := tp; ci_mode := WriteMode_add; ci_autorename := ar |}
          chunk_size (drop (Z.to_nat chunk_size) c) calls) \/
     (exists e, r = Raise (Exception e) /\
        (calls = [] \/
         exists sid more,
           session_calls chunk_size sid
             {| ci_path := tp; ci_mode := WriteMode_add;
                ci_autorename := ar |}
             chunk_size (drop (Z.to_nat chunk_size) c) (calls ++ more)))).
Proof.
  intros Hfile Hbig.
  set (d0 := take (Z.to_nat chunk_size) c).
  set (commit := {| ci_path := tp; ci_mode := WriteMode_add;
                    ci_autorename := ar |}).
  assert (Hprefix : forall k : string -> M string,
            upload_with E chunk_size fp tp dbx ar w
            = bind (dbx_files_upload_session_start E dbx d0)
                (fun sid =>
                   let f1 := {| f_content := c; f_pos := length d0 |} in
                   bind (upload_loop E chunk_size (length c) dbx
                           (Z.of_nat (length c)) f1
                           {| session_id := sid; offset := f_tell f1 |}
                           commit None)
                     (fun actual_path =>
                        match actual_path with
                        | Some p => ret p
                        | None => raise (Exception UnboundLocalError)
                        end)) w).
  { intros _. unfold upload_with, bind at 1, open_rb. rewrite Hfile.
    unfold bind at 1, os_path_getsize. rewrite Hfile.
    destruct (Z.of_nat (length c) <=? chunk_size) eqn:Hle; [zbool; lia|].
    unfold f_read. simpl f_pos. simpl f_content. rewrite drop_0.
    destruct (chunk_size <? 0) eqn:Hneg; [zbool; lia|]. done. }
  rewrite (Hprefix (fun _ => ret EmptyString)). clear Hprefix.
  destruct (srv_files_upload_session_start E (w_trace w) dbx d0)
    as [e|sid] eqn:Hsid.
  - exists [], (Raise (Exception e)). split; [|right; exists e; by auto].
    erewrite bind_raise; [done|].
    unfold dbx_files_upload_session_start. apply api_raise. exact Hsid.
  - erewrite bind_ok; [|unfold dbx_files_upload_session_start;
                        apply api_ok; exact Hsid].
    set (f1 := {| f_content := c; f_pos := length d0 |}).
    assert (Hf1 : f_pos f1 = Z.to_nat chunk_size)
      by (simpl; unfold d0; rewrite length_take; lia).
    destruct (upload_loop_any E chunk_size chunk_pos (length c) dbx f1
                {| session_id := sid; offset := f_tell f1 |} commit None
                (add_events w [EApi dbx (files_upload_session_start d0)]))
      as (calls & r & Hrun & Hshape).
    { rewrite Hf1. simpl. lia. }
    { done. }
    { simpl. lia. }
    cbv zeta.
    assert (Htell : f_tell f1 = chunk_size)
      by (unfold f_tell; rewrite Hf1; lia).
    change (f_content f1) with c in Hshape.
    rewrite Hf1, Htell in Hshape. cbn [session_id] in Hshape.
    exists calls.
    destruct Hshape as [(m & -> & Hcalls)|(e & more & -> & Hne & Hcalls)].
    + exists (Ok (path_display m)). split.
      * erewrite bind_ok by exact Hrun. unfold ret.
        by rewrite add_events_app.
      * left. by exists sid, m.
    + exists (Raise (Exception e)). split.
      * erewrite bind_raise by exact Hrun. by rewrite add_events_app.
      * right. exists e. split; [done|]. right. by exists sid, more.
Qed.

End UploadWithAny.

(** The three ways a run of [upload] can go, whatever the remote end
    answers. *)
Lemma upload_cases (E : Env) (w : World) (file_path target_path : string)
    (dbx : Dropbox) (autorename : bool) :
  exists calls r,
    upload E file_path target_path dbx autorename w
    = (r, add_events w (map (EApi dbx) calls)) /\
    (forall i c, calls !! i = Some c -> is_commit c = true ->
       S i = length calls) /\
    match w_files w !! file_path with
    | None => calls = [] /\ exists cls, r = Raise (Exception cls)
    | Some content =>
        (exists p, r = Ok p /\
           concat (map call_payload calls) = content /\
           exists c, last calls = Some c /\ is_commit c = true) \/
        (exists cls, r = Raise (Exception cls) /\
           concat (map call_payload calls) `prefix_of` content /\
           calls <> [])
    end.
Proof.
  unfold upload. destruct (w_files w !! file_path) as [content|] eqn:Hfile.
  - destruct (decide (Z.of_nat (length content) <= CHUNK_SIZE)) as [Hle|Hgt].
    + exists [files_upload content target_path WriteMode_add autorename].
      rewrite (upload_with_single E CHUNK_SIZE _ _ _ _ _ _ Hfile Hle).
      destruct (srv_files_upload _ _ _ _ _ _ _) as [e|m]; eexists;
        (split; [reflexivity|]);
        (split; [by intros [|[|i]] c Hi Hc|]).
      * right. exists e. split; [done|]. split; [|done].
        simpl. by rewrite app_nil_r.
      * left. eexists. split; [done|]. split; [simpl; by rewrite app_nil_r|].
        by eexists.
    + destruct (upload_with_any E CHUNK_SIZE CHUNK_SIZE_pos file_path
                  target_path dbx autorename w content Hfile ltac:(lia))
        as (calls & r & Hrun & Hshape).
      set (d0 := take (Z.to_nat CHUNK_SIZE) content) in *.
      exists (files_upload_session_start d0 :: calls), r.
      split; [exact Hrun|].
      destruct Hshape as [(sid & m & -> & Hcalls)
                         |(e & -> & [->|(sid & more & Hcalls)])].
      * destruct (session_calls_commit_last _ _ _ _ _ _ CHUNK_SIZE_pos Hcalls)
          as [(c & Hlast & Hc) Honly].
        split.
        -- intros [|i] c' Hi Hc'; simpl in Hi; [by simplify_eq|].
           simpl. f_equal. by apply (Honly i c').
        -- left. eexists. split; [done|]. split.
           ++ simpl. erewrite session_calls_payloads by eauto.
              apply take_drop.
           ++ exists c. split; [|done].
              destruct calls as [|c0 calls]; [done|].
              by rewrite last_cons, Hlast.
      * split; [by intros [|[|i]] c Hi Hc|].
        right. exists e. split; [done|]. split; [|done].
        simpl. rewrite app_nil_r. exists (drop (Z.to_nat CHUNK_SIZE) content).
        unfold d0. by rewrite take_drop.
      * destruct (session_calls_commit_last _ _ _ _ _ _ CHUNK_SIZE_pos Hcalls)
          as [_ Honly].
        split.
        -- intros [|i] c' Hi Hc'; simpl in Hi; [by simplify_eq|].
           simpl. f_equal.
           pose proof (lookup_lt_Some _ _ _ Hi) as Hlt.
           specialize (Honly i c').
           rewrite lookup_app_l in Honly by done.
           specialize (Honly Hi Hc'). rewrite length_app in Honly. lia.
        -- right. exists e. split; [done|]. split; [|done].
           exists (concat (map call_payload more)).
           apply session_calls_payloads in Hcalls.
           rewrite map_app, concat_app in Hcalls.
           simpl. rewrite <- app_assoc, Hcalls. unfold d0.
           by rewrite take_drop.
  - destruct (upload_with_no_file E CHUNK_SIZE file_path target_path dbx
                autorename w Hfile) as [c Hrun].
    exists [], (Raise (Exception c)). rewrite Hrun. simpl.
    rewrite add_events_nil. split; [done|]. split; [done|].
    split; [done|]. by exists c.
Qed.

(** X1. Whatever the remote end answers: when [upload] returns, the
    source file exists, the payloads of the calls it made, in order, are
    the whole content of the file, the last call is a committing call
    (the single write call or the finish call of the session), and no call
    before the last one commits. *)
Theorem upload_returns_after_whole_file (E : Env) (w : World)
    (file_path target_path : string) (dbx : Dropbox) (autorename : bool)
    (p : string) :
  (upload E file_path target_path dbx autorename w).1 = Ok p ->
  exists content calls,
    w_files w !! file_path = Some content /\
    (upload E file_path target_path dbx autorename w).2
    = add_events w (map (EApi dbx) calls) /\
    concat (map call_payload calls) = content /\
    (exists c, last calls = Some c /\ is_commit c = true) /\
    (forall i c, calls !! i = Some c -> is_commit c = true ->
       S i = length calls).
Proof.
  intros Hok.
  destruct (upload_cases E w file_path target_path dbx autorename)
    as (calls & r & Hrun & Honly & Hshape).
  rewrite Hrun in Hok |- *. simpl in Hok. subst r.
  destruct (w_files w !! file_path) as [content|].
  - destruct Hshape as [(p' & _ & Hpay & Hlast)|(cls & Hr & _)]; [|done].
    by exists content, calls.
  - by destruct Hshape as (_ & cls & Hr).
Qed.

Lemma upload_returns_after_whole_file_witness :
  exists content calls,
    w_files (world_with_file "a.bin" [Byte.x01; Byte.x02]) !! "a.bin"
    = Some content /\
    (upload sample_env "a.bin" "/dst/a.bin" sample_dbx false
       (world_with_file "a.bin" [Byte.x01; Byte.x02])).2
    = add_events (world_with_file "a.bin" [Byte.x01; Byte.x02])
        (map (EApi sample_dbx) calls) /\
    concat (map call_payload calls) = content /\
    (exists c, last calls = Some c /\ is_commit c = true) /\
    (forall i c, calls !! i = Some c -> is_commit c = true ->
       S i = length calls).
Proof.
  apply (upload_returns_after_whole_file sample_env
           (world_with_file "a.bin" [Byte.x01; Byte.x02]) "a.bin"
           "/dst/a.bin" sample_dbx false "/dst/a.bin").
  vm_compute. reflexivity.
Defined.

(** X2. Whatever the remote end answers: when [upload] raises, it raises
    an exception (not a [SystemExit]); without a source file it made no
    call; with one, the payloads of the calls made so far are an initial
    part of the content, and no call before the last one commits, so that
    nothing was committed unless the commit call itself is what failed. *)
Theorem upload_failure_sends_prefix (E : Env) (w : World)
    (file_path target_path : string) (dbx : Dropbox) (autorename : bool)
    (e : exn) :
  (upload E file_path target_path dbx autorename w).1 = Raise e ->
  exists cls calls,
    e = Exception cls /\
    (upload E file_path target_path dbx autorename w).2
    = add_events w (map (EApi dbx) calls) /\
    (w_files w !! file_path = None -> calls = []) /\
    (forall content, w_files w !! file_path = Some content ->
       concat (map call_payload calls) `prefix_of` content) /\
    (forall i c, calls !! i = Some c -> is_commit c = true ->
       S i = length calls).
Proof.
  intros Hraise.
  destruct (upload_cases E w file_path target_path dbx autorename)
    as (calls & r & Hrun & Honly & Hshape).
  rewrite Hrun in Hraise |- *. simpl in Hraise. subst r.
  destruct (w_files w !! file_path) as [content|].
  - destruct Hshape as [(p' & Hr & _)|(cls & Hr & Hpre & _)]; [done|].
    simplify_eq. exists cls, calls. repeat split; try done.
    intros content' Heq. by simplify_eq.
  - destruct Hshape as (-> & cls & Hr). simplify_eq.
    exists cls, []. by repeat split.
Qed.

Lemma upload_failure_sends_prefix_witness :
  exists cls calls,
    Exception ApiError = Exception cls /\
    (upload refusing_env "a.bin" "/dst/a.bin" sample_dbx false
       (world_with_file "a.bin" [Byte.x01; Byte.x02])).2
    = add_events (world_with_file "a.bin" [Byte.x01; Byte.x02])
        (map (EApi sample_dbx) calls) /\
    (w_files (world_with_file "a.bin" [Byte.x01; Byte.x02]) !! "a.bin" = None ->
     calls = []) /\
    (forall content,
       w_files (world_with_file "a.bin" [Byte.x01; Byte.x02]) !! "a.bin"
       = Some content ->
       concat (map call_payload calls) `prefix_of` content) /\
    (forall i c, calls !! i = Some c -> is_commit c = true ->
       S i = length calls).
Proof.
  apply (upload_failure_sends_prefix refusing_env
           (world_with_file "a.bin" [Byte.x01; Byte.x02]) "a.bin"
           "/dst/a.bin" sample_dbx false (Exception ApiError)).
  vm_compute. reflexivity.
Defined.

(** X3. [upload] comes to an end whatever the file and whatever the
    remote end answers: it returns a path or raises an exception (the
    loop over the chunks reads at least one byte in every round). *)
Theorem upload_terminates (E : Env) (w : World)
    (file_path target_path : string) (dbx : Dropbox) (autorename : bool) :
  (exists p,
     (upload E file_path target_path dbx autorename w).1 = Ok p) \/
  (exists cls,
     (upload E file_path target_path dbx autorename w).1
     = Raise (Exception cls)).
Proof.
  destruct (upload_cases E w file_path target_path dbx autorename)
    as (calls & r & Hrun & _ & Hshape).
  rewrite Hrun. simpl.
  destruct (w_files w !! file_path) as [content|].
  - destruct Hshape as [(p & -> & _)|(cls & -> & _)]; eauto.
  - destruct Hshape as (_ & cls & ->). eauto.
Qed.

(** Every call of [upload] goes through the client it was given and
    names the given target. *)
Lemma upload_calls_for (E : Env) (file_path target_path : string)
    (dbx : Dropbox) (autorename : bool) :
  traces (upload_call_for dbx target_path autorename)
    (upload E file_path target_path dbx autorename).
Proof.
  assert (Hloop : forall fuel file_size f cur ap,
            traces (upload_call_for dbx target_path autorename)
              (upload_loop E CHUNK_SIZE fuel dbx file_size f cur
                 {| ci_path := target_path; ci_mode := WriteMode_add;
                    ci_autorename := autorename |} ap)).
  { induction fuel as [|fuel IH]; intros file_size f cur ap;
      cbn [upload_loop].
    - destruct (f_tell f <? file_size); repeat traces_step.
    - destruct (f_tell f <? file_size); [|traces_step].
      destruct (file_size - f_tell f <=? CHUNK_SIZE);
        destruct (f_read f CHUNK_SIZE) as [data f'].
      + unfold dbx_files_upload_session_finish. repeat traces_step.
        apply IH.
      + unfold dbx_files_upload_session_append. repeat traces_step.
        apply IH. }
  unfold upload, upload_with. traces_step; [traces_step|].
  traces_step; [traces_step|].
  destruct (_ <=? CHUNK_SIZE).
  - destruct (f_read_all _) as [data f']. unfold dbx_files_upload.
    repeat traces_step.
  - destruct (f_read _ CHUNK_SIZE) as [data f1].
    unfold dbx_files_upload_session_start.
    traces_step; [repeat traces_step|].
    traces_step; [apply Hloop|].
    traces_auto.
Qed.

(** X4. [upload] changes nothing on the local machine and only talks to
    the upload calls of the client it was given; every call that writes
    or commits names the target path it was given, the given [autorename]
    flag and the write mode [add], never [overwrite]. *)
Theorem upload_never_overwrites (E : Env) (w : World)
    (file_path target_path : string) (dbx : Dropbox) (autorename : bool) :
  exists new,
    (upload E file_path target_path dbx autorename w).2 = add_events w new /\
    Forall (upload_call_for dbx target_path autorename) new.
Proof. apply upload_calls_for. Qed.

(** ** [download_file] and [zip_folder] *)

(** X5. [download_file] opens the local file for writing before it asks
    for the content: when the local path can be written, the run makes
    exactly one download call and touches no other file; what the remote
    end delivers is what the file holds afterwards; and when the remote
    end refuses, the exception passes on and the local file is left
    empty, whatever it held before. *)
Theorem download_file_truncates_first (E : Env) (dbx : Dropbox)
    (dropbox_path local_path : string) (w : World) :
  local_path ∉ w_dirs w ->
  file_writable E local_path = true ->
  let run := download_file E dbx dropbox_path local_path w in
  w_trace run.2 = w_trace w ++ [EApi dbx (files_download dropbox_path)] /\
  (forall p, p <> local_path -> w_files run.2 !! p = w_files w !! p) /\
  match srv_files_download E (w_trace w) dbx dropbox_path with
  | inr res =>
      run.1 = Ok tt /\ w_files run.2 !! local_path = Some res.2
  | inl c =>
      run.1 = Raise (Exception c) /\ w_files run.2 !! local_path = Some []
  end.
Proof.
  intros Hfree Hwr. cbv zeta.
  set (w0 := {| w_files := <[local_path:=[]]> (w_files w);
                w_dirs := w_dirs w;
                w_refresh_token := w_refresh_token w;
                w_trace := w_trace w |}).
  assert (Hopen : open_w E local_path w = (Ok tt, w0)).
  { unfold open_w. destruct (decide _); [done|]. by rewrite Hwr. }
  unfold download_file. rewrite (bind_ok _ _ _ _ _ Hopen).
  unfold dbx_files_download.
  destruct (srv_files_download E (w_trace w) dbx dropbox_path)
    as [c|res] eqn:Hsrv.
  - rewrite (bind_raise _ _ _ _ _
               (api_raise dbx _
                  (fun tr d => srv_files_download E tr d dropbox_path)
                  w0 c Hsrv)).
    simpl. split; [done|]. split; [|by rewrite lookup_insert_eq].
    intros p Hp. by rewrite lookup_insert_ne.
  - rewrite (bind_ok _ _ _ _ _
               (api_ok dbx _
                  (fun tr d => srv_files_download E tr d dropbox_path)
                  w0 res Hsrv)).
    simpl. split; [done|]. split; [|by rewrite lookup_insert_eq].
    intros p Hp. by rewrite !lookup_insert_ne.
Qed.

Lemma download_file_truncates_first_witness :
  let run := download_file refusing_env sample_dbx "/in/a.txt" "out/a.txt"
               (world_with_file "out/a.txt" [Byte.x01]) in
  w_trace run.2
  = w_trace (world_with_file "out/a.txt" [Byte.x01])
    ++ [EApi sample_dbx (files_download "/in/a.txt")] /\
  (forall p, p <> "out/a.txt" ->
     w_files run.2 !! p
     = w_files (world_with_file "out/a.txt" [Byte.x01]) !! p) /\
  match srv_files_download refusing_env
          (w_trace (world_with_file "out/a.txt" [Byte.x01])) sample_dbx
          "/in/a.txt" with
  | inr res =>
      run.1 = Ok tt /\ w_files run.2 !! "out/a.txt" = Some res.2
  | inl c =>
      run.1 = Raise (Exception c) /\ w_files run.2 !! "out/a.txt" = Some []
  end.
Proof.
  apply (download_file_truncates_first refusing_env sample_dbx "/in/a.txt"
           "out/a.txt" (world_with_file "out/a.txt" [Byte.x01])).
  - apply not_elem_of_empty.
  - reflexivity.
Defined.

(** X6. [zip_folder] creates the archive and nothing else: no other file
    and no directory changes; when something already stands at the output
    path the run raises [FileExistsError] and changes nothing at all (the
    archive is opened in mode ['x']); and when the run returns, the file
    at the output path holds the archive made of the folder. *)
Theorem zip_folder_creates_only_the_archive (E : Env)
    (folder_path output_path : string) (w : World) :
  let run := zip_folder E folder_path output_path w in
  (forall p, p <> output_path -> w_files run.2 !! p = w_files w !! p) /\
  w_dirs run.2 = w_dirs w /\
  (is_Some (w_files w !! output_path) \/ output_path ∈ w_dirs w ->
   run = (Raise (Exception FileExistsError), w)) /\
  (run.1 = Ok tt ->
   w_files w !! output_path = None /\
   w_trace run.2 = w_trace w ++ [EZip folder_path output_path] /\
   exists archive,
     zip_archive E (w_trace w) folder_path = inr archive /\
     w_files run.2 !! output_path = Some archive).
Proof.
  cbv zeta. unfold zip_folder.
  assert (Hex : os_path_exists output_path w
                = (Ok (bool_decide (is_Some (w_files w !! output_path))
                       || bool_decide (output_path ∈ w_dirs w)), w))
    by done.
  rewrite (bind_ok _ _ _ _ _ Hex). clear Hex.
  destruct (bool_decide (is_Some (w_files w !! output_path))) eqn:Hfile.
  { simpl. repeat split; try done. }
  destruct (bool_decide (output_path ∈ w_dirs w)) eqn:Hdir.
  { simpl. repeat split; try done. }
  apply bool_decide_eq_false in Hfile, Hdir. cbn [orb].
  assert (Hnone : w_files w !! output_path = None)
    by (destruct (w_files w !! output_path); [by destruct Hfile|done]).
  destruct (file_writable E output_path) eqn:Hwr.
  - set (w0 := {| w_files := <[output_path:=[]]> (w_files w);
                  w_dirs := w_dirs w;
                  w_refresh_token := w_refresh_token w;
                  w_trace := w_trace w |}).
    assert (Hopen : open_w E output_path w = (Ok tt, w0)).
    { unfold open_w. destruct (decide _); [done|]. by rewrite Hwr. }
    rewrite (bind_ok _ _ _ _ _ Hopen).
    unfold bind, get_trace, emit, answer. simpl.
    destruct (zip_archive E (w_trace w) folder_path) as [c|archive]; simpl.
    + split; [intros p Hp; by rewrite lookup_insert_ne|].
      split; [done|]. split; [by intros [?|?]|done].
    + split; [intros p Hp; by rewrite !lookup_insert_ne|].
      split; [done|]. split; [by intros [?|?]|]. intros _.
      split; [done|]. split; [done|]. exists archive.
      by rewrite lookup_insert_eq.
  - assert (Hopen : open_w E output_path w
                    = (Raise (Exception OSError), w)).
    { unfold open_w. destruct (decide _); [done|]. by rewrite Hwr. }
    rewrite (bind_raise _ _ _ _ _ Hopen). simpl.
    split; [done|]. split; [done|]. split; [by intros [?|?]|done].
Qed.

(** ** [make_user_login_to_get_tokens] *)

(** The events of the login up to the prompt. *)
Lemma make_user_login_to_get_tokens_run (E : Env) (w : World) :
  let shown :=
    [EAuthStart;
     EPrint ("Login Here:" +:+ ConfigParser.NEWLINE
             +:+ auth_flow_start E (w_trace w))] in
  let asked := shown ++ [EInput "Paste Access Code: "] in
  make_user_login_to_get_tokens E w
  = match stdin_readline E (w_trace w ++ shown) with
    | inl c => (Raise (Exception c), add_events w asked)
    | inr line =>
        let auth_code := Str.strip Str.isspace line in
        (match auth_flow_finish E (w_trace w ++ asked) auth_code with
         | inr oauth_result => Ok oauth_result
         | inl RuntimeError => Raise (SystemExit 42)
         | inl c => Raise (Exception c)
         end,
         add_events w (asked ++ [EAuthFinish auth_code]))
    end.
Proof.
  cbv zeta.
  unfold make_user_login_to_get_tokens, print, input, sys_exit, try_except,
    bind, get_trace, emit, answer, raise, ret.
  unfold add_events. cbn [w_trace w_files w_dirs w_refresh_token].
  rewrite <- !app_assoc. cbn [app].
  destruct (stdin_readline E _) as [c|line];
    cbn [w_trace w_files w_dirs w_refresh_token];
    rewrite <- ?app_assoc; cbn [app]; [done|].
  destruct (auth_flow_finish E _ _) as [c|res]; [destruct c|];
    cbn [is_RuntimeError w_trace w_files w_dirs w_refresh_token];
    by rewrite <- ?app_assoc.
Qed.


(** ** [get_refresh_token] without a login *)

Lemma os_path_isfile_run path w :
  os_path_isfile path w
  = (Ok (bool_decide (is_Some (w_files w !! path))), w).
Proof. done. Qed.

(** X8. [get_refresh_token] never prompts and never writes when it is
    not interactive or when the configuration file exists: the world
    after the run is the world before. Without the file and not
    interactive it raises [RuntimeError]. *)
Theorem get_refresh_token_without_login (E : Env) (interactive : bool)
    (w : World) :
  interactive = false \/ is_Some (w_files w !! my_config_file E) ->
  (get_refresh_token E interactive w).2 = w /\
  (w_files w !! my_config_file E = None ->
   (get_refresh_token E interactive w).1 = Raise (Exception RuntimeError)).
Proof.
  intros Hcase. unfold get_refresh_token.
  rewrite (bind_ok _ _ _ _ _ (os_path_isfile_run _ w)).
  destruct (w_files w !! my_config_file E) as [content|] eqn:Hfile.
  - rewrite bool_decide_eq_true_2 by eauto. cbn [negb].
    split; [|done].
    unfold bind, get_file, answer. rewrite Hfile.
    change (default [] (Some content)) with content.
    destruct (decode_text content) as [text|]; [|reflexivity].
    destruct (ConfigParser.read_text text) as [c|cfg]; [reflexivity|].
    cbn [ret raise].
    destruct (ConfigParser.getitem cfg (APP_KEY E) "refresh_token");
      reflexivity.
  - rewrite bool_decide_eq_false_2 by (by intros [? ?]). cbn [negb].
    destruct Hcase as [->|[? ?]]; [|done]. done.
Qed.

Lemma get_refresh_token_without_login_witness :
  (get_refresh_token sample_env false empty_world).2 = empty_world /\
  (w_files empty_world !! my_config_file sample_env = None ->
   (get_refresh_token sample_env false empty_world).1
   = Raise (Exception RuntimeError)).
Proof.
  apply (get_refresh_token_without_login sample_env false empty_world).
  left. reflexivity.
Defined.

(** X9. On a first run (no configuration file, interactive), when the
    exchange rejects the pasted code with a [RuntimeError], the process
    exits with code 42 from inside [get_refresh_token], and no
    configuration file is created: the files and directories are as
    before. *)
Theorem get_refresh_token_login_rejected (E : Env) (w : World)
    (line : string) :
  let shown :=
    [EAuthStart;
     EPrint ("Login Here:" +:+ ConfigParser.NEWLINE
             +:+ auth_flow_start E (w_trace w))] in
  let asked := shown ++ [EInput "Paste Access Code: "] in
  w_files w !! my_config_file E = None ->
  stdin_readline E (w_trace w ++ shown) = inr line ->
  auth_flow_finish E (w_trace w ++ asked) (Str.strip Str.isspace line)
  = inl RuntimeError ->
  get_refresh_token E true w
  = (Raise (SystemExit 42),
     add_events w (asked ++ [EAuthFinish (Str.strip Str.isspace line)])).
Proof.
  cbv zeta. intros Hfile Hline Hfinish. unfold get_refresh_token.
  rewrite (bind_ok _ _ _ _ _ (os_path_isfile_run _ w)).
  rewrite Hfile, bool_decide_eq_false_2 by (by intros [? ?]). cbn [negb].
  pose proof (make_user_login_to_get_tokens_run E w) as Hlogin.
  cbv zeta in Hlogin. rewrite Hline, Hfinish in Hlogin.
  rewrite (bind_raise _ _ _ _ _
             (bind_raise _ _ _ _ _ Hlogin)).
  done.
Qed.

Lemma get_refresh_token_login_rejected_witness :
  get_refresh_token refusing_env true empty_world
  = (Raise (SystemExit 42),
     add_events empty_world
       (([EAuthStart;
          EPrint ("Login Here:" +:+ ConfigParser.NEWLINE
                  +:+ auth_flow_start refusing_env (w_trace empty_world))]
         ++ [EInput "Paste Access Code: "])
        ++ [EAuthFinish (Str.strip Str.isspace "  code  ")])).
Proof.
  apply (get_refresh_token_login_rejected refusing_env empty_world
           "  code  "); reflexivity.
Defined.

(** ** [big_file_upload], step by step *)

Lemma cached_refresh_token_run (E : Env) (interactive : bool) (w : World) :
  cached_refresh_token E interactive w
  = if truthy (w_refresh_token w)
    then (Ok (default EmptyString (w_refresh_token w)), w)
    else
      match get_refresh_token E interactive w with
      | (Ok tok, w1) =>
          (Ok tok, {| w_files := w_files w1; w_dirs := w_dirs w1;
                      w_refresh_token := Some tok; w_trace := w_trace w1 |})
      | (Raise e, w1) => (Raise e, w1)
      | (OutOfFuel, w1) => (OutOfFuel, w1)
      end.
Proof.
  unfold cached_refresh_token, bind, get_global_refresh_token,
    set_global_refresh_token, ret.
  destruct (truthy (w_refresh_token w)); [done|].
  by destruct (get_refresh_token E interactive w) as [[tok|e|] w1].
Qed.

(** The token [cached_refresh_token] returns is the one the global holds
    afterwards. *)
Lemma cached_refresh_token_ok (E : Env) (interactive : bool) (w wA : World)
    (tok : string) :
  cached_refresh_token E interactive w = (Ok tok, wA) ->
  w_refresh_token wA = Some tok.
Proof.
  rewrite cached_refresh_token_run.
  destruct (w_refresh_token w) as [[|c s]|] eqn:Hglobal; cbn [truthy].
  - destruct (get_refresh_token E interactive w) as [[t|e|] w1];
      intros H; by simplify_eq.
  - intros H. by simplify_eq.
  - destruct (get_refresh_token E interactive w) as [[t|e|] w1];
      intros H; by simplify_eq.
Qed.

Lemma choose_root_run (E : Env) (dbx0 : Dropbox) (use_team_root : bool)
    (w : World) :
  choose_root E dbx0 use_team_root w
  = if use_team_root then
      (match srv_users_get_current_account E (w_trace w) dbx0 with
       | inr ns =>
           Ok (with_path_root dbx0 {| pr_tag := "root"; pr_value := ns |})
       | inl c => Raise (Exception c)
       end,
       add_events w [EApi dbx0 users_get_current_account])
    else (Ok dbx0, w).
Proof.
  unfold choose_root. destruct use_team_root; [|done].
  unfold dbx_users_get_current_account.
  destruct (srv_users_get_current_account E (w_trace w) dbx0)
    as [c|ns] eqn:Hsrv.
  - by rewrite (bind_raise _ _ _ _ _ (api_raise _ _ _ _ _ Hsrv)).
  - by rewrite (bind_ok _ _ _ _ _ (api_ok _ _ _ _ _ Hsrv)).
Qed.

Lemma big_file_upload_run (E : Env) (source destination : string)
    (interactive use_team_root : bool) (password : option string)
    (expiration : option Z) (autorename : bool) (w : World) :
  big_file_upload E source destination interactive use_team_root password
    expiration autorename w
  = match cached_refresh_token E interactive w with
    | (Ok tok, wA) =>
        match dropbox_init E tok (APP_KEY E) with
        | inl c => (Raise (Exception c), wA)
        | inr _ =>
            match choose_root E (plain_client E tok) use_team_root wA with
            | (Ok dbx, wC) =>
                match upload E source destination dbx autorename wC with
                | (Ok path, wU) =>
                    if truthy password then
                      (match srv_sharing_create_shared_link_with_settings E
                               (w_trace wU ++ [ESleep 10]) dbx path
                               (link_settings password expiration) with
                       | inr link =>
                           Ok {| url := Some link;
                                 dropbox_path := Some path |}
                       | inl c => Raise (Exception c)
                       end,
                       add_events wU
                         [ESleep 10;
                          EApi dbx
                            (sharing_create_shared_link_with_settings path
                               (link_settings password expiration))])
                    else (Ok {| url := None; dropbox_path := Some path |},
                          wU)
                | (Raise e, wU) => (Raise e, wU)
                | (OutOfFuel, wU) => (OutOfFuel, wU)
                end
            | (Raise e, wC) => (Raise e, wC)
            | (OutOfFuel, wC) => (OutOfFuel, wC)
            end
        end
    | (Raise e, wA) => (Raise e, wA)
    | (OutOfFuel, wA) => (OutOfFuel, wA)
    end.
Proof.
  unfold big_file_upload, bind at 1.
  destruct (cached_refresh_token E interactive w) as [[tok|e|] wA];
    [|done..].
  unfold bind at 1, new_dropbox, bind at 1, answer.
  destruct (dropbox_init E tok (APP_KEY E)) as [c|[]]; [done|].
  cbn [ret]. rewrite try_except_reraise. unfold bind at 1.
  fold (plain_client E tok).
  destruct (choose_root E (plain_client E tok) use_team_root wA)
    as [[dbx|e|] wC]; [|done..].
  unfold bind at 1.
  destruct (upload E source destination dbx autorename wC)
    as [[path|e|] wU]; [|done..].
  destruct (truthy password); [|done].
  fold (link_settings password expiration).
  unfold time_sleep, dbx_sharing_create_shared_link_with_settings.
  unfold bind at 1, emit.
  destruct (srv_sharing_create_shared_link_with_settings E
              (w_trace wU ++ [ESleep 10]) dbx path
              (link_settings password expiration)) as [c0|link] eqn:Hsrv.
  - rewrite (bind_raise _ _ _ _ _
               (api_raise dbx _
                  (fun tr d =>
                     srv_sharing_create_shared_link_with_settings E tr d path
                       (link_settings password expiration))
                  (add_events wU [ESleep 10]) c0 Hsrv)).
    by rewrite add_events_app.
  - rewrite (bind_ok _ _ _ _ _
               (api_ok dbx _
                  (fun tr d =>
                     srv_sharing_create_shared_link_with_settings E tr d path
                       (link_settings password expiration))
                  (add_events wU [ESleep 10]) link Hsrv)).
    unfold ret. by rewrite add_events_app.
Qed.

Lemma login_event_call_as (E : Env) tok use_team_root ev :
  is_login_event ev = true ->
  call_as E tok use_team_root ev /\ is_api_event ev = false.
Proof. by destruct ev. Qed.

Lemma upload_call_call_as (E : Env) tok use_team_root dbx target_path
    autorename ev :
  oauth2_refresh_token dbx = tok ->
  app_key dbx = APP_KEY E ->
  (if use_team_root : bool
   then exists ns, path_root dbx = Some {| pr_tag := "root"; pr_value := ns |}
   else path_root dbx = None) ->
  upload_call_for dbx target_path autorename ev ->
  call_as E tok use_team_root ev /\ is_login_event ev = false.
Proof.
  intros Htok Hkey Hroot Hev.
  destruct ev as [d []| | | | | | |]; try done; simpl in Hev |- *.
  - destruct Hev as (-> & _). by repeat split.
  - subst d. by repeat split.
  - subst d. by repeat split.
  - destruct Hev as (-> & _). by repeat split.
Qed.

(** What the client [choose_root] returns looks like, and what the call
    it makes looks like. *)
Lemma choose_root_ok (E : Env) (tok : string) (use_team_root : bool)
    (w wC : World) (dbx : Dropbox) :
  choose_root E (plain_client E tok) use_team_root w = (Ok dbx, wC) ->
  exists evC,
    wC = add_events w evC /\
    Forall (call_as E tok use_team_root) evC /\
    Forall (fun ev => is_login_event ev = false) evC /\
    oauth2_refresh_token dbx = tok /\ app_key dbx = APP_KEY E /\
    (if use_team_root
     then exists ns,
            path_root dbx = Some {| pr_tag := "root"; pr_value := ns |}
     else path_root dbx = None).
Proof.
  rewrite choose_root_run. destruct use_team_root.
  - destruct (srv_users_get_current_account E _ _) as [c|ns];
      intros H; simplify_eq.
    eexists. split; [done|]. repeat split; try by repeat constructor.
    by exists ns.
  - intros H. simplify_eq. exists []. rewrite add_events_nil.
    by repeat split.
Qed.

Lemma choose_root_failed (E : Env) (tok : string) (use_team_root : bool)
    (w wC : World) r :
  choose_root E (plain_client E tok) use_team_root w = (r, wC) ->
  exists evC,
    wC = add_events w evC /\
    Forall (call_as E tok use_team_root) evC /\
    Forall (fun ev => is_login_event ev = false) evC.
Proof.
  rewrite choose_root_run. destruct use_team_root.
  - intros H. simplify_eq. eexists. split; [done|].
    split; by repeat constructor.
  - intros H. simplify_eq. exists []. by rewrite add_events_nil.
Qed.

(** X10. When [big_file_upload] returns, the [dropbox_path] of the
    dictionary it returns is the path [upload] returned (the path the
    remote end reports, not the requested destination); without a
    password (or with an empty one) [url] is [None] and nothing follows
    the upload; with a password [url] is the link the share call for
    that path returned; and the refresh token the calls used is the one
    the global variable holds afterwards. *)
Theorem big_file_upload_result (E : Env) (source destination : string)
    (interactive use_team_root : bool) (password : option string)
    (expiration : option Z) (autorename : bool) (w : World)
    (r : return_struct) :
  let run := big_file_upload E source destination interactive use_team_root
               password expiration autorename w in
  run.1 = Ok r ->
  exists dbx w1 during path,
    upload E source destination dbx autorename w1
    = (Ok path, add_events w1 during) /\
    dropbox_path r = Some path /\
    w_refresh_token run.2 = Some (oauth2_refresh_token dbx) /\
    if truthy password
    then exists link,
           url r = Some link /\
           srv_sharing_create_shared_link_with_settings E
             (w_trace w1 ++ during ++ [ESleep 10]) dbx path
             (link_settings password expiration) = inr link /\
           run.2
           = add_events w1
               (during
                ++ [ESleep 10;
                    EApi dbx
                      (sharing_create_shared_link_with_settings path
                         (link_settings password expiration))])
    else url r = None /\ run.2 = add_events w1 during.
Proof.
  cbv zeta. rewrite big_file_upload_run.
  destruct (cached_refresh_token E interactive w) as [[tok|e|] wA] eqn:HA;
    [|done..].
  apply cached_refresh_token_ok in HA.
  destruct (dropbox_init E tok (APP_KEY E)) as [c|[]]; [done|].
  destruct (choose_root E (plain_client E tok) use_team_root wA)
    as [[dbx|e|] wC] eqn:HC; [|done..].
  destruct (choose_root_ok _ _ _ _ _ _ HC)
    as (evC & -> & _ & _ & Htok & _ & _).
  destruct (upload_calls_for E source destination dbx autorename
              (add_events wA evC)) as (during & HwU & _).
  destruct (upload E source destination dbx autorename (add_events wA evC))
    as [[path|e|] wU] eqn:HU; [|done..].
  simpl in HwU. subst wU.
  destruct (truthy password).
  - simpl. rewrite <- app_assoc.
    destruct (srv_sharing_create_shared_link_with_settings E _ dbx path _)
      as [c|link] eqn:Hsrv; [done|].
    intros Hr. simplify_eq.
    exists dbx, (add_events wA evC), during, path. split; [done|].
    split; [done|]. split; [done|].
    exists link. split; [done|]. split; [done|].
    by rewrite add_events_app.
  - simpl. intros Hr. simplify_eq.
    by exists dbx, (add_events wA evC), during, path.
Qed.

Lemma big_file_upload_result_witness :
  let run := big_file_upload sample_env "a.bin" "/dst/a.bin" true true
               (Some "pw") None false
               (world_with_file "a.bin" [Byte.x01; Byte.x02]) in
  exists dbx w1 during path,
    upload sample_env "a.bin" "/dst/a.bin" dbx false w1
    = (Ok path, add_events w1 during) /\
    dropbox_path
      {| url := Some "https://www.dropbox.com/scl/fi/abc/dst/a.bin?rlkey=k1&dl=0";
         dropbox_path := Some "/dst/a.bin" |} = Some path /\
    w_refresh_token run.2 = Some (oauth2_refresh_token dbx) /\
    if truthy (Some "pw")
    then exists link,
           url
             {| url := Some "https://www.dropbox.com/scl/fi/abc/dst/a.bin?rlkey=k1&dl=0";
                dropbox_path := Some "/dst/a.bin" |} = Some link /\
           srv_sharing_create_shared_link_with_settings sample_env
             (w_trace w1 ++ during ++ [ESleep 10]) dbx path
             (link_settings (Some "pw") None) = inr link /\
           run.2
           = add_events w1
               (during
                ++ [ESleep 10;
                    EApi dbx
                      (sharing_create_shared_link_with_settings path
                         (link_settings (Some "pw") None))])
    else url
           {| url := Some "https://www.dropbox.com/scl/fi/abc/dst/a.bin?rlkey=k1&dl=0";
              dropbox_path := Some "/dst/a.bin" |} = None /\
         run.2 = add_events w1 during.
Proof.
  apply (big_file_upload_result sample_env "a.bin" "/dst/a.bin" true true
           (Some "pw") None false
           (world_with_file "a.bin" [Byte.x01; Byte.x02])
           {| url := Some "https://www.dropbox.com/scl/fi/abc/dst/a.bin?rlkey=k1&dl=0";
              dropbox_path := Some "/dst/a.bin" |}).
  vm_compute. reflexivity.
Defined.

(** X11. Whatever the run of [big_file_upload] comes to: every call it
    makes to the servers is made with the refresh token that the global
    variable holds after the run and with the application key; the
    account is asked for through the plain client, and only when the team
    root is used; every other call goes through a client rooted at a
    namespace when the team root is used, and through the plain client
    otherwise. When the global holds no token after the run, no call was
    made. *)
Theorem big_file_upload_clients (E : Env) (source destination : string)
    (interactive use_team_root : bool) (password : option string)
    (expiration : option Z) (autorename : bool) (w : World) :
  let run := big_file_upload E source destination interactive use_team_root
               password expiration autorename w in
  exists new,
    w_trace run.2 = w_trace w ++ new /\
    match w_refresh_token run.2 with
    | Some tok => Forall (call_as E tok use_team_root) new
    | None => Forall (fun ev => is_api_event ev = false) new
    end.
Proof.
  cbv zeta. rewrite big_file_upload_run.
  destruct (cached_refresh_token_emits E interactive w)
    as (preA & HtrA & HallA).
  assert (Hpre : forall tok,
            Forall (call_as E tok use_team_root) preA /\
            Forall (fun ev => is_api_event ev = false) preA).
  { intros tok. split; (eapply Forall_impl; [exact HallA|]);
      intros ev Hev; by apply (login_event_call_as E tok use_team_root). }
  destruct (cached_refresh_token E interactive w) as [[tok|e|] wA] eqn:HA;
    simpl in HtrA;
    try (exists preA; split; [done|]; simpl;
         destruct (w_refresh_token wA); by apply Hpre).
  apply cached_refresh_token_ok in HA.
  destruct (dropbox_init E tok (APP_KEY E)) as [c|[]].
  { exists preA. split; [done|]. simpl. rewrite HA. apply Hpre. }
  destruct (choose_root E (plain_client E tok) use_team_root wA)
    as [[dbx|e|] wC] eqn:HC;
    try (destruct (choose_root_failed _ _ _ _ _ _ HC) as (evC & -> & HallC & _);
         exists (preA ++ evC); simpl; rewrite HtrA, app_assoc, HA;
         split; [done|]; rewrite Forall_app; split; [apply Hpre|done]).
  destruct (choose_root_ok _ _ _ _ _ _ HC)
    as (evC & -> & HallC & _ & Htok & Hkey & Hroot).
  destruct (upload_calls_for E source destination dbx autorename
              (add_events wA evC)) as (during & HwU & HallU).
  assert (HallU' : Forall (call_as E tok use_team_root) during).
  { eapply Forall_impl; [exact HallU|]. intros ev Hev.
    by apply (upload_call_call_as E tok use_team_root dbx destination
                autorename ev). }
  destruct (upload E source destination dbx autorename (add_events wA evC))
    as [[path|e|] wU]; simpl in HwU; subst wU;
    try (exists (preA ++ evC ++ during); simpl;
         rewrite HtrA, <- !app_assoc, HA;
         split; [done|]; rewrite !Forall_app; split; [apply Hpre|done]).
  destruct (truthy password).
  - exists (preA ++ evC ++ during
            ++ [ESleep 10;
                EApi dbx (sharing_create_shared_link_with_settings path
                            (link_settings password expiration))]).
    simpl. rewrite HtrA, <- !app_assoc, HA. split; [done|].
    rewrite !Forall_app. split; [apply Hpre|]. split; [done|].
    split; [done|]. repeat constructor; try done.
  - exists (preA ++ evC ++ during). simpl.
    rewrite HtrA, <- !app_assoc, HA.
    split; [done|]. rewrite !Forall_app. split; [apply Hpre|done].
Qed.



(** ** [download_folder] and [big_download_directory] *)

Section DownloadEmits.

Context (E : Env) (P : Event -> Prop).
Hypothesis P_listing : forall dbx path, P (EApi dbx (files_list_folder path)).
Hypothesis P_continue :
  forall dbx cur, P (EApi dbx (files_list_folder_continue cur)).
Hypothesis P_download : forall dbx path, P (EApi dbx (files_download path)).

Lemma emits_download_file dbx dropbox_path local_path :
  emits P (download_file E dbx dropbox_path local_path).
Proof.
  unfold download_file, dbx_files_download.
  apply emits_bind; [apply emits_open_w|]. intros _.
  apply emits_bind; [by apply emits_api|]. intros res. emits_step.
Qed.

Lemma emits_download_entries recurse dbx local_dir :
  (forall a b, emits P (recurse a b)) ->
  forall l totals,
    emits P (download_entries E recurse dbx local_dir l totals).
Proof.
  intros Hrec. induction l as [|entry l IH]; intros totals;
    cbn [download_entries]; [emits_step|].
  apply emits_bind; [|intros; apply IH].
  destruct totals as [tf tfo].
  destruct entry; cbn [download_entry].
  - apply emits_bind; [apply emits_download_file|]. intros _. emits_step.
  - apply emits_bind; [apply Hrec|]. intros [sf sfo]. emits_step.
  - emits_step.
Qed.

Lemma emits_download_pages recurse :
  (forall a b, emits P (recurse a b)) ->
  forall fuel dbx local_dir response totals,
    emits P (download_pages E recurse fuel dbx local_dir response totals).
Proof.
  intros Hrec. induction fuel as [|fuel IH];
    intros dbx local_dir response totals; cbn [download_pages];
    (apply emits_bind; [by apply emits_download_entries|]); intros totals'.
  - destruct (negb (has_more response)); emits_step.
  - destruct (negb (has_more response)); [emits_step|].
    unfold dbx_files_list_folder_continue.
    apply emits_bind; [by apply emits_api|]. intros response'. apply IH.
Qed.

Lemma emits_download_folder fuel :
  forall dbx folder_path local_dir,
    emits P (download_folder E fuel dbx folder_path local_dir).
Proof.
  induction fuel as [|fuel IH]; intros dbx folder_path local_dir;
    cbn [download_folder]; [emits_step|].
  apply emits_try_except; [|intros; emits_step].
  apply emits_bind; [apply emits_os_makedirs|]. intros _.
  unfold dbx_files_list_folder.
  apply emits_bind; [by apply emits_api|]. intros response.
  apply emits_download_pages. intros a b. apply IH.
Qed.

End DownloadEmits.

Lemma login_event_is_download_event ev :
  is_login_event ev = true -> is_download_event ev = true.
Proof. by destruct ev. Qed.

(** X13. [big_download_directory] never writes to Dropbox: whatever the
    remote end answers and however deep the folders are, the actions of a
    run are those of the login, the request for the account, listing calls
    and download calls; there is no upload call, no share call and no
    delay among them. *)
Theorem big_download_directory_never_uploads (E : Env) (fuel : nat)
    (dropbox_path local_dir : string) (interactive use_team_root : bool)
    (w : World) :
  exists new,
    w_trace (big_download_directory E fuel dropbox_path local_dir
               interactive use_team_root w).2
    = w_trace w ++ new /\
    Forall (fun ev => is_download_event ev = true) new.
Proof.
  revert w.
  change (emits (fun ev => is_download_event ev = true)
            (big_download_directory E fuel dropbox_path local_dir
               interactive use_team_root)).
  unfold big_download_directory.
  apply emits_bind.
  { eapply emits_mono; [|apply cached_refresh_token_emits].
    apply login_event_is_download_event. }
  intros tok. apply emits_bind.
  { apply emits_silent. intros w. by rewrite new_dropbox_still. }
  intros dbx0. apply emits_try_except; [|intros; emits_step].
  apply emits_bind.
  { unfold choose_root, dbx_users_get_current_account.
    destruct use_team_root; emits_auto. }
  intros dbx. by apply emits_download_folder.
Qed.


(** ** The main program *)

Lemma os_path_exists_run path w :
  os_path_exists path w = (Ok (path_exists w path), w).
Proof. done. Qed.

(** [upload] and [big_file_upload] never leave the model: every failure
    is an exception or, from the login, an exit with code 42. *)
Lemma fails_only_upload_strong (E : Env) (Q : option exn -> Prop)
    file_path target_path dbx autorename :
  (forall c, Q (Some (Exception c))) ->
  fails_only Q (upload E file_path target_path dbx autorename).
Proof.
  intros HQ w f Hf.
  destruct (upload_cases E w file_path target_path dbx autorename)
    as (calls & r & Hrun & _ & Hshape).
  rewrite Hrun in Hf. simpl in Hf.
  destruct (w_files w !! file_path).
  - destruct Hshape as [(p & -> & _)|(cls & -> & _)]; simpl in Hf;
      by simplify_eq.
  - destruct Hshape as (_ & cls & ->). simpl in Hf. by simplify_eq.
Qed.

Lemma fails_only_big_file_upload_strong (E : Env) (Q : option exn -> Prop)
    source destination interactive use_team_root password expiration
    autorename :
  (forall c, Q (Some (Exception c))) ->
  Q (Some (SystemExit 42)) ->
  fails_only Q
    (big_file_upload E source destination interactive use_team_root
       password expiration autorename).
Proof.
  intros HQ H42. unfold big_file_upload.
  apply fails_only_bind; [by apply fails_only_cached_refresh_token|].
  intros tok.
  apply fails_only_bind; [unfold new_dropbox; fails_auto|]. intros dbx0.
  intros w f. rewrite try_except_reraise. revert w f.
  apply fails_only_bind;
    [unfold choose_root, dbx_users_get_current_account;
     destruct use_team_root; fails_auto|].
  intros dbx.
  apply fails_only_bind; [by apply fails_only_upload_strong|]. intros path.
  unfold time_sleep, dbx_sharing_create_shared_link_with_settings.
  fails_auto.
Qed.

Section MainFailures.

Context (E : Env) (Q : option exn -> Prop).
Hypothesis Q_exception : forall c, Q (Some (Exception c)).






Hypothesis Q_fuel : Q None.


End MainFailures.



(** The main program after the check of its arguments, without [-a] and
    without [-z]. *)
Lemma main_upload_run (E : Env) (args : Args) (w : World) :
  authenticate args = false ->
  zip args = false ->
  Str.is_empty (source args) = false ->
  path_exists w (source args) = true ->
  Str.is_empty (destination args) = false ->
  main E args w
  = match big_file_upload E (source args) (destination args) true
            (use_team_root_of args) (password args) None (auto_rename args)
            w with
    | (Ok _, w') => (Ok tt, w')
    | (Raise e, w') =>
        if is_Exception e then (Raise (SystemExit 42), w') else (Raise e, w')
    | (OutOfFuel, w') => (OutOfFuel, w')
    end.
Proof.
  intros Hauth Hzip Hsrc Hexists Hdst. unfold main.
  rewrite Hauth, Hzip, Hsrc, Hdst.
  rewrite (bind_ok _ _ w tt w).
  2: { rewrite (bind_ok _ _ _ _ _ (os_path_exists_run _ w)).
       by rewrite Hexists. }
  unfold bind at 1, ret at 1. unfold bind at 1, ret at 1.
  unfold bind, try_except. fold (use_team_root_of args).
  destruct (big_file_upload E (source args) (destination args) true
              (use_team_root_of args) (password args) None (auto_rename args)
              w) as [[r|e|] w']; [done| |done].
  by destruct (is_Exception e).
Qed.

(** X16. Without [-a], a missing source (none given, or nothing at that
    path) or a missing destination ends the main program with an uncaught
    [ValueError], exit status 1, before anything happens: the world is
    unchanged, no request is made and nobody is asked to log in. *)
Theorem main_rejects_missing_arguments (E : Env) (args : Args) (w : World) :
  authenticate args = false ->
  Str.is_empty (source args) = true \/
  path_exists w (source args) = false \/
  Str.is_empty (destination args) = true ->
  main E args w = (Raise (Exception ValueError), w) /\
  exit_status (main E args w).1 = Some 1.
Proof.
  intros Hauth Hbad.
  assert (Hrun : main E args w = (Raise (Exception ValueError), w));
    [|by rewrite Hrun].
  unfold main. rewrite Hauth.
  destruct (Str.is_empty (source args)) eqn:Hsrc; [done|].
  destruct (path_exists w (source args)) eqn:Hexists.
  - rewrite (bind_ok _ _ w tt w).
    2: { rewrite (bind_ok _ _ _ _ _ (os_path_exists_run _ w)).
         by rewrite Hexists. }
    destruct Hbad as [?|[?|Hdst]]; [done..|].
    unfold bind at 1. by rewrite Hdst.
  - rewrite (bind_raise _ _ w (Exception ValueError) w); [done|].
    rewrite (bind_ok _ _ _ _ _ (os_path_exists_run _ w)).
    by rewrite Hexists.
Qed.

Lemma main_rejects_missing_arguments_witness :
  main sample_env (upload_args "a.bin" "") (world_with_file "a.bin" [])
  = (Raise (Exception ValueError), world_with_file "a.bin" []) /\
  exit_status
    (main sample_env (upload_args "a.bin" "") (world_with_file "a.bin" [])).1
  = Some 1.
Proof.
  apply (main_rejects_missing_arguments sample_env (upload_args "a.bin" "")
           (world_with_file "a.bin" [])).
  - reflexivity.
  - right. right. reflexivity.
Defined.

(** X17. A plain upload (no [-a], no [-z], arguments that pass the
    check): the exit status is 0 exactly when [big_file_upload] returns,
    and 42 whenever it fails, be it by an exception, which the main
    program catches, or by the exit of a rejected login. The main program
    adds nothing to what [big_file_upload] does to the world. *)
Theorem main_exit_42_on_upload_failure (E : Env) (args : Args) (w : World) :
  authenticate args = false ->
  zip args = false ->
  Str.is_empty (source args) = false ->
  path_exists w (source args) = true ->
  Str.is_empty (destination args) = false ->
  let upload_run :=
    big_file_upload E (source args) (destination args) true
      (use_team_root_of args) (password args) None (auto_rename args) w in
  (main E args w).2 = upload_run.2 /\
  exit_status (main E args w).1
  = match upload_run.1 with Ok _ => Some 0 | _ => Some 42 end.
Proof.
  intros Hauth Hzip Hsrc Hexists Hdst. cbv zeta.
  rewrite (main_upload_run E args w Hauth Hzip Hsrc Hexists Hdst).
  pose proof (fails_only_big_file_upload_strong E
                (fun f => match f with
                          | Some (Exception _) => True
                          | Some (SystemExit code) => code = 42
                          | None => False
                          end)
                (source args) (destination args) true
                (use_team_root_of args) (password args) None
                (auto_rename args) ltac:(done) ltac:(done) w) as Hfail.
  destruct (big_file_upload E (source args) (destination args) true
              (use_team_root_of args) (password args) None (auto_rename args)
              w) as [[r|[c|code]|] w']; simpl in *.
  - done.
  - done.
  - by rewrite (Hfail _ eq_refl).
  - by destruct (Hfail _ eq_refl).
Qed.

Lemma main_exit_42_on_upload_failure_witness :
  let upload_run :=
    big_file_upload refusing_env (source (upload_args "a.bin" "/dst/a.bin"))
      (destination (upload_args "a.bin" "/dst/a.bin")) true
      (use_team_root_of (upload_args "a.bin" "/dst/a.bin"))
      (password (upload_args "a.bin" "/dst/a.bin")) None
      (auto_rename (upload_args "a.bin" "/dst/a.bin"))
      (world_with_file "a.bin" []) in
  (main refusing_env (upload_args "a.bin" "/dst/a.bin")
     (world_with_file "a.bin" [])).2 = upload_run.2 /\
  exit_status
    (main refusing_env (upload_args "a.bin" "/dst/a.bin")
       (world_with_file "a.bin" [])).1
  = match upload_run.1 with Ok _ => Some 0 | _ => Some 42 end.
Proof.
  apply (main_exit_42_on_upload_failure refusing_env
           (upload_args "a.bin" "/dst/a.bin") (world_with_file "a.bin" []));
    reflexivity.
Defined.

(** X18. With [-a] the main program only obtains the refresh token: it
    does not look at the source or the destination, makes no request to
    the Dropbox servers (its actions are those of the login, if any), and
    exits with code 0 as soon as [get_refresh_token] returns; a failure of
    [get_refresh_token] passes on as it is. *)
Theorem main_authenticate_only (E : Env) (args : Args) (w : World) :
  authenticate args = true ->
  let token_run := get_refresh_token E true w in
  (main E args w).2 = token_run.2 /\
  (main E args w).1
  = match token_run.1 with
    | Ok _ => Raise (SystemExit 0)
    | Raise e => Raise e
    | OutOfFuel => OutOfFuel
    end /\
  exists new,
    w_trace (main E args w).2 = w_trace w ++ new /\
    Forall (fun ev => is_login_event ev = true) new.
Proof.
  intros Hauth. cbv zeta. unfold main. rewrite Hauth.
  destruct (get_refresh_token_emits E true w) as (new & Htr & Hall).
  unfold bind, sys_exit, raise.
  destruct (get_refresh_token E true w) as [[tok|e|] w']; simpl in *;
    (split; [done|]); (split; [done|]); by exists new.
Qed.

Lemma main_authenticate_only_witness :
  let token_run := get_refresh_token sample_env true empty_world in
  (main sample_env authenticate_args empty_world).2 = token_run.2 /\
  (main sample_env authenticate_args empty_world).1
  = match token_run.1 with
    | Ok _ => Raise (SystemExit 0)
    | Raise e => Raise e
    | OutOfFuel => OutOfFuel
    end /\
  exists new,
    w_trace (main sample_env authenticate_args empty_world).2
    = w_trace empty_world ++ new /\
    Forall (fun ev => is_login_event ev = true) new.
Proof.
  apply (main_authenticate_only sample_env authenticate_args empty_world).
  reflexivity.
Defined.

(** X19. With [-z], an archive that already stands at the output path is
    never overwritten: the main program raises [FileExistsError] (exit
    status 1) before it zips, generates a password or contacts the remote
    end, and leaves the world as it was. *)
Theorem main_zip_keeps_existing_archive (E : Env) (args : Args) (w : World) :
  authenticate args = false ->
  zip args = true ->
  Str.is_empty (source args) = false ->
  path_exists w (source args) = true ->
  Str.is_empty (destination args) = false ->
  path_exists w (archive_path E args) = true ->
  main E args w = (Raise (Exception FileExistsError), w) /\
  exit_status (main E args w).1 = Some 1.
Proof.
  intros Hauth Hzip Hsrc Hexists Hdst Harchive.
  assert (Hrun : main E args w = (Raise (Exception FileExistsError), w));
    [|by rewrite Hrun].
  unfold main. rewrite Hauth, Hzip, Hsrc, Hdst.
  rewrite (bind_ok _ _ w tt w).
  2: { rewrite (bind_ok _ _ _ _ _ (os_path_exists_run _ w)).
       by rewrite Hexists. }
  unfold bind at 1, ret at 1.
  assert (Hzipped : main_zip E args w
                    = (Raise (Exception FileExistsError), w)).
  { unfold main_zip. fold (archive_path E args).
    rewrite (bind_ok _ _ _ _ _ (os_path_exists_run _ w)).
    by rewrite Harchive. }
  by rewrite (bind_raise _ _ _ _ _ Hzipped).
Qed.

Lemma main_zip_keeps_existing_archive_witness :
  main sample_env (zip_args "data" "/dst/data.zip" "report.json")
    {| w_files := {[ "./data.zip" := [Byte.x01] ]}; w_dirs := {[ "data" ]};
       w_refresh_token := None; w_trace := [] |}
  = (Raise (Exception FileExistsError),
     {| w_files := {[ "./data.zip" := [Byte.x01] ]}; w_dirs := {[ "data" ]};
        w_refresh_token := None; w_trace := [] |}) /\
  exit_status
    (main sample_env (zip_args "data" "/dst/data.zip" "report.json")
       {| w_files := {[ "./data.zip" := [Byte.x01] ]}; w_dirs := {[ "data" ]};
          w_refresh_token := None; w_trace := [] |}).1
  = Some 1.
Proof.
  apply (main_zip_keeps_existing_archive sample_env
           (zip_args "data" "/dst/data.zip" "report.json")
           {| w_files := {[ "./data.zip" := [Byte.x01] ]};
              w_dirs := {[ "data" ]};
              w_refresh_token := None; w_trace := [] |});
    try reflexivity; vm_compute; reflexivity.
Defined.
